(** * DRISHTI image panel: viewport transform and annotation overlay engine

    Shallow embedding of [frontend/components/ImagePanel.tsx].

    JavaScript numbers are modelled as exact rationals ([Q]): every
    arithmetic step of the component is written out as in the source, but
    without rounding and without the non-finite values [NaN] and
    [Infinity].  The auto-zoom effect is the one place where the source
    relies on [Infinity] (its running bounds start there, and it divides by
    a padded size that may be zero) and where nothing keeps a zero-sized
    canvas rectangle away from a division, so it is modelled over numbers
    with [NaN] and the infinities ([JSNum], [autoZoomJS]): the model tells
    what the effect passes to the setters in every case, and the state after
    the effect is undefined where one of these numbers is not finite.
    Elsewhere a quotient by zero has no meaning in the model, and the
    statements that depend on one assume the divisor is not zero.
    Equalities between numbers are stated with [==], the equality of
    rationals.

    React state is a record ([PanelState]); a handler is a function from the
    state captured by the render closure to the state after the batched
    [setX] calls.  Calls to the optional callback props ([onRegionSelect],
    [onObjectSelect]) are returned as a list of [Call]s. *)

From Stdlib Require Import QArith Qminmax Qabs Qround Qpower Lqa Lia ZArith List
  String Bool Decimal DecimalString DecimalNat.
Import ListNotations.
Open Scope Q_scope.

(** ** The pieces of the JavaScript [Math] object the component uses *)

Module JSMath.

Definition min (a b : Q) : Q := Qmin a b.
Definition max (a b : Q) : Q := Qmax a b.
Definition abs (a : Q) : Q := Qabs a.

(** [Math.round] rounds to the nearest integer, ties towards +infinity. *)
Definition round (a : Q) : Q := inject_Z (Qfloor (a + (1 # 2))).

End JSMath.

(** ** Data model *)

Module Point.
Record t : Type := mk { x : Q; y : Q }.
End Point.

(** [RegionSelection] of [types/api.ts]: an axis-aligned rectangle in image
    pixels. *)
Module RegionSelection.
Record t : Type := mk { x : Q; y : Q; width : Q; height : Q }.
End RegionSelection.

(** The result of [canvas.getBoundingClientRect()]. *)
Module DOMRect.
Record t : Type := mk { left : Q; top : Q; width : Q; height : Q }.
End DOMRect.

(** [BoundingBox] of [types/api.ts]; [coordinates] is the list of [[x, y]]
    vertices. *)
Record BoundingBox : Type := mkBoundingBox {
  object_id : string;
  coordinates : list (Q * Q)
}.

(** What the handlers read from the DOM through [canvasRef.current] and
    [imageRef.current]: the image's natural size, the canvas' internal size
    and its on-screen rectangle.  A handler receives [None] when the refs
    are still null. *)
Record Dom : Type := mkDom {
  naturalWidth : Q;
  naturalHeight : Q;
  canvas_width : Q;
  canvas_height : Q;
  rect : DOMRect.t
}.

(** The [useState] cells of the component. *)
Record PanelState : Type := mkPanelState {
  imageLoaded : bool;
  blinkOpacity : Q;
  scale : Q;
  translateX : Q;
  translateY : Q;
  isPanning : bool;
  startPos : Point.t;
  isDrawingRegion : bool;
  regionStart : option Point.t;
  currentRegion : option RegionSelection.t;
  touchStartDistance : Q;
  touchStartScale : Q
}.

(** The props the engine reads.  An optional callback prop is represented by
    whether it was passed. *)
Record Props : Type := mkProps {
  boundingBoxes : list BoundingBox;
  selectedObjectId : option string;
  onObjectSelect : bool;
  maskUrl : option string;
  isRegionSelectMode : bool;
  regionSelection : option RegionSelection.t;
  onRegionSelect : bool
}.

(** A call of one of the callback props. *)
Inductive Call : Type :=
| CallRegionSelect (region : option RegionSelection.t)
| CallObjectSelect (objectId : option string).

(** Initial values of the [useState] cells. *)
Definition initialState : PanelState :=
  {| imageLoaded := false; blinkOpacity := 0.4;
     scale := 1; translateX := 0; translateY := 0;
     isPanning := false; startPos := Point.mk 0 0;
     isDrawingRegion := false; regionStart := None; currentRegion := None;
     touchStartDistance := 0; touchStartScale := 1 |}.

(** The state setters. *)
Definition setImageLoaded (v : bool) (s : PanelState) : PanelState :=
  mkPanelState v (blinkOpacity s) (scale s) (translateX s) (translateY s)
    (isPanning s) (startPos s) (isDrawingRegion s) (regionStart s)
    (currentRegion s) (touchStartDistance s) (touchStartScale s).
Definition setBlinkOpacity (v : Q) (s : PanelState) : PanelState :=
  mkPanelState (imageLoaded s) v (scale s) (translateX s) (translateY s)
    (isPanning s) (startPos s) (isDrawingRegion s) (regionStart s)
    (currentRegion s) (touchStartDistance s) (touchStartScale s).
Definition setScale (v : Q) (s : PanelState) : PanelState :=
  mkPanelState (imageLoaded s) (blinkOpacity s) v (translateX s) (translateY s)
    (isPanning s) (startPos s) (isDrawingRegion s) (regionStart s)
    (currentRegion s) (touchStartDistance s) (touchStartScale s).
Definition setTranslateX (v : Q) (s : PanelState) : PanelState :=
  mkPanelState (imageLoaded s) (blinkOpacity s) (scale s) v (translateY s)
    (isPanning s) (startPos s) (isDrawingRegion s) (regionStart s)
    (currentRegion s) (touchStartDistance s) (touchStartScale s).
Definition setTranslateY (v : Q) (s : PanelState) : PanelState :=
  mkPanelState (imageLoaded s) (blinkOpacity s) (scale s) (translateX s) v
    (isPanning s) (startPos s) (isDrawingRegion s) (regionStart s)
    (currentRegion s) (touchStartDistance s) (touchStartScale s).
Definition setIsPanning (v : bool) (s : PanelState) : PanelState :=
  mkPanelState (imageLoaded s) (blinkOpacity s) (scale s) (translateX s)
    (translateY s) v (startPos s) (isDrawingRegion s) (regionStart s)
    (currentRegion s) (touchStartDistance s) (touchStartScale s).
Definition setStartPos (v : Point.t) (s : PanelState) : PanelState :=
  mkPanelState (imageLoaded s) (blinkOpacity s) (scale s) (translateX s)
    (translateY s) (isPanning s) v (isDrawingRegion s) (regionStart s)
    (currentRegion s) (touchStartDistance s) (touchStartScale s).
Definition setIsDrawingRegion (v : bool) (s : PanelState) : PanelState :=
  mkPanelState (imageLoaded s) (blinkOpacity s) (scale s) (translateX s)
    (translateY s) (isPanning s) (startPos s) v (regionStart s)
    (currentRegion s) (touchStartDistance s) (touchStartScale s).
Definition setRegionStart (v : option Point.t) (s : PanelState) : PanelState :=
  mkPanelState (imageLoaded s) (blinkOpacity s) (scale s) (translateX s)
    (translateY s) (isPanning s) (startPos s) (isDrawingRegion s) v
    (currentRegion s) (touchStartDistance s) (touchStartScale s).
Definition setCurrentRegion (v : option RegionSelection.t) (s : PanelState)
  : PanelState :=
  mkPanelState (imageLoaded s) (blinkOpacity s) (scale s) (translateX s)
    (translateY s) (isPanning s) (startPos s) (isDrawingRegion s)
    (regionStart s) v (touchStartDistance s) (touchStartScale s).
Definition setTouchStartDistance (v : Q) (s : PanelState) : PanelState :=
  mkPanelState (imageLoaded s) (blinkOpacity s) (scale s) (translateX s)
    (translateY s) (isPanning s) (startPos s) (isDrawingRegion s)
    (regionStart s) (currentRegion s) v (touchStartScale s).
Definition setTouchStartScale (v : Q) (s : PanelState) : PanelState :=
  mkPanelState (imageLoaded s) (blinkOpacity s) (scale s) (translateX s)
    (translateY s) (isPanning s) (startPos s) (isDrawingRegion s)
    (regionStart s) (currentRegion s) (touchStartDistance s) v.

(** ** Geometry shared by the handlers *)

(** [Math.max(60, Math.round(Math.max(img.naturalWidth, img.naturalHeight) / 20))] *)
Definition rulerMargin (d : Dom) : Q :=
  JSMath.max 60
    (JSMath.round (JSMath.max (naturalWidth d) (naturalHeight d) / 20)).

(** [Math.min(rect.width / canvas.width, rect.height / canvas.height)] *)
Definition displayScale (d : Dom) : Q :=
  JSMath.min (DOMRect.width (rect d) / canvas_width d)
             (DOMRect.height (rect d) / canvas_height d).

(** The size the render effect gives the canvas:
    [canvas.width = img.naturalWidth + rulerMargin * 2]. *)
Definition renderedCanvas (d : Dom) : Prop :=
  canvas_width d == naturalWidth d + rulerMargin d * 2 /\
  canvas_height d == naturalHeight d + rulerMargin d * 2.

(** ** The boundary solver *)

(** [constrainPan] (lines 690-736). *)
Definition constrainPan (refs : option Dom)
    (newTranslateX newTranslateY currentScale : Q) : Point.t :=
  match refs with
  | None => Point.mk newTranslateX newTranslateY
  | Some d =>
      if Qeq_bool currentScale 1 then Point.mk 0 0
      else
        let rect := rect d in
        let rulerMargin := rulerMargin d in
        let displayScale := displayScale d in
        let scaledWidth := naturalWidth d * displayScale * currentScale in
        let scaledHeight := naturalHeight d * displayScale * currentScale in
        let newTranslateX :=
          if Qle_bool scaledWidth (DOMRect.width rect) then
            (DOMRect.width rect / displayScale
             - naturalWidth d * currentScale) / 2 - rulerMargin
          else
            let minTranslateX :=
              (DOMRect.width rect - scaledWidth) / displayScale - rulerMargin in
            let maxTranslateX := - rulerMargin in
            JSMath.max minTranslateX (JSMath.min maxTranslateX newTranslateX) in
        let newTranslateY :=
          if Qle_bool scaledHeight (DOMRect.height rect) then
            (DOMRect.height rect / displayScale
             - naturalHeight d * currentScale) / 2 - rulerMargin
          else
            let minTranslateY :=
              (DOMRect.height rect - scaledHeight) / displayScale - rulerMargin in
            let maxTranslateY := - rulerMargin in
            JSMath.max minTranslateY (JSMath.min maxTranslateY newTranslateY) in
        Point.mk newTranslateX newTranslateY
  end.

(** ** Pointer events *)

(** The fields of a [React.MouseEvent] (and of a [Touch]) the handlers
    read. *)
Record MouseEvent : Type := mkMouseEvent { clientX : Q; clientY : Q }.

Definition Touch : Type := MouseEvent.

Record WheelEvent : Type := mkWheelEvent { pointer : MouseEvent; deltaY : Q }.

(** [a < b] on numbers, as a boolean. *)
Definition Qlt_bool (a b : Q) : bool := negb (Qle_bool b a).

(** JavaScript truthiness of an optional string: [null], [undefined] and the
    empty string are falsy. *)
Definition truthy (s : option string) : bool :=
  match s with
  | None => false
  | Some v => negb (String.eqb v EmptyString)
  end.

(** ** Wheel zoom *)

(** [handleWheel] (lines 739-778). *)
Definition handleWheel (refs : option Dom) (e : WheelEvent) (st : PanelState)
  : PanelState :=
  match refs with
  | None => st
  | Some d =>
      let rect := rect d in
      let rulerMargin := rulerMargin d in
      let displayScale := displayScale d in
      let mouseXDisplay := clientX (pointer e) - DOMRect.left rect in
      let mouseYDisplay := clientY (pointer e) - DOMRect.top rect in
      let mouseXCanvas := mouseXDisplay / displayScale - rulerMargin in
      let mouseYCanvas := mouseYDisplay / displayScale - rulerMargin in
      let zoomFactor := if Qlt_bool (deltaY e) 0 then 1.1 else 0.9 in
      let newScale := JSMath.min (JSMath.max 1 (scale st * zoomFactor)) 10 in
      let scaleChange := newScale / scale st in
      let newTranslateX :=
        mouseXCanvas - (mouseXCanvas - translateX st) * scaleChange in
      let newTranslateY :=
        mouseYCanvas - (mouseYCanvas - translateY st) * scaleChange in
      let constrained := constrainPan refs newTranslateX newTranslateY newScale in
      setScale newScale
        (setTranslateY (Point.y constrained)
           (setTranslateX (Point.x constrained) st))
  end.

(** ** Pointer position in image coordinates *)

(** [mouseToImageCoords] (lines 781-810). *)
Definition mouseToImageCoords (refs : option Dom) (st : PanelState)
    (e : MouseEvent) : option Point.t :=
  match refs with
  | None => None
  | Some d =>
      let rect := rect d in
      let rulerMargin := rulerMargin d in
      let displayScale := displayScale d in
      let mouseXDisplay := clientX e - DOMRect.left rect in
      let mouseYDisplay := clientY e - DOMRect.top rect in
      let mouseXCanvas := mouseXDisplay / displayScale - rulerMargin in
      let mouseYCanvas := mouseYDisplay / displayScale - rulerMargin in
      let imageX := (mouseXCanvas - translateX st) / scale st in
      let imageY := (mouseYCanvas - translateY st) / scale st in
      Some (Point.mk imageX imageY)
  end.

(** The forward direction, read off the render effect (lines 437-438:
    [ctx.translate(translateX + rulerMargin, translateY + rulerMargin)]
    followed by [ctx.scale(scale, scale)]; the same map is written out for
    the labels at lines 614-615) and the scaling of the canvas to its
    on-screen rectangle by [displayScale]. *)
Definition imageToCanvas (d : Dom) (st : PanelState) (p : Point.t) : Point.t :=
  Point.mk (translateX st + rulerMargin d + Point.x p * scale st)
           (translateY st + rulerMargin d + Point.y p * scale st).

Definition imageToClient (d : Dom) (st : PanelState) (p : Point.t) : MouseEvent :=
  let c := imageToCanvas d st p in
  mkMouseEvent (DOMRect.left (rect d) + Point.x c * displayScale d)
               (DOMRect.top (rect d) + Point.y c * displayScale d).

(** ** Mouse handlers *)

(** [handleMouseDown] (lines 813-847). *)
Definition handleMouseDown (refs : option Dom) (props : Props) (e : MouseEvent)
    (st : PanelState) : PanelState * list Call :=
  match refs with
  | None => (st, [])
  | Some d =>
      let displayScale := displayScale d in
      if isRegionSelectMode props then
        match mouseToImageCoords refs st e with
        | Some coords =>
            (setCurrentRegion None
               (setRegionStart (Some coords) (setIsDrawingRegion true st)),
             if onRegionSelect props then [CallRegionSelect None] else [])
        | None => (st, [])
        end
      else
        (setStartPos
           (Point.mk (clientX e - translateX st * displayScale)
                     (clientY e - translateY st * displayScale))
           (setIsPanning true st),
         [])
  end.

(** [handleMouseMove] (lines 850-887). *)
Definition handleMouseMove (refs : option Dom) (props : Props) (e : MouseEvent)
    (st : PanelState) : PanelState :=
  match isDrawingRegion st, regionStart st, isRegionSelectMode props with
  | true, Some regionStart, true =>
      match mouseToImageCoords refs st e, refs with
      | Some coords, Some img =>
          let x := JSMath.max 0 (JSMath.min (Point.x regionStart) (Point.x coords)) in
          let y := JSMath.max 0 (JSMath.min (Point.y regionStart) (Point.y coords)) in
          let width :=
            JSMath.min (naturalWidth img - x)
                       (JSMath.abs (Point.x coords - Point.x regionStart)) in
          let height :=
            JSMath.min (naturalHeight img - y)
                       (JSMath.abs (Point.y coords - Point.y regionStart)) in
          setCurrentRegion (Some (RegionSelection.mk x y width height)) st
      | _, _ => st
      end
  | _, _, _ =>
      match isPanning st, refs with
      | true, Some d =>
          let displayScale := displayScale d in
          let newTranslateX := (clientX e - Point.x (startPos st)) / displayScale in
          let newTranslateY := (clientY e - Point.y (startPos st)) / displayScale in
          let constrained :=
            constrainPan refs newTranslateX newTranslateY (scale st) in
          setTranslateY (Point.y constrained)
            (setTranslateX (Point.x constrained) st)
      | _, _ => st
      end
  end.

(** The test [currentRegion.width >= 10 && currentRegion.height >= 10]. *)
Definition meaningfulSize (r : RegionSelection.t) : bool :=
  Qle_bool 10 (RegionSelection.width r) && Qle_bool 10 (RegionSelection.height r).

(** [handleMouseUp] (lines 890-907); it is also the [onMouseLeave] handler. *)
Definition handleMouseUp (props : Props) (st : PanelState)
  : PanelState * list Call :=
  match isDrawingRegion st, currentRegion st, isRegionSelectMode props with
  | true, Some currentRegion, true =>
      let (st1, calls) :=
        if meaningfulSize currentRegion then
          (st, if onRegionSelect props
               then [CallRegionSelect (Some currentRegion)] else [])
        else (setCurrentRegion None st, []) in
      (setRegionStart None (setIsDrawingRegion false st1), calls)
  | _, _, _ => (setIsPanning false st, [])
  end.

(** [handleClearRegion] (lines 910-915). *)
Definition handleClearRegion (props : Props) (st : PanelState)
  : PanelState * list Call :=
  (setCurrentRegion None st,
   if onRegionSelect props then [CallRegionSelect None] else []).

(** ** Zoom buttons *)

(** [zoomIn] (lines 999-1005). *)
Definition zoomIn (refs : option Dom) (st : PanelState) : PanelState :=
  let newScale := JSMath.min (scale st * 1.2) 10 in
  let constrained := constrainPan refs (translateX st) (translateY st) newScale in
  setScale newScale
    (setTranslateY (Point.y constrained)
       (setTranslateX (Point.x constrained) st)).

(** [zoomOut] (lines 1008-1014). *)
Definition zoomOut (refs : option Dom) (st : PanelState) : PanelState :=
  let newScale := JSMath.max (scale st / 1.2) 1 in
  let constrained := constrainPan refs (translateX st) (translateY st) newScale in
  setScale newScale
    (setTranslateY (Point.y constrained)
       (setTranslateX (Point.x constrained) st)).

(** [resetView] (lines 1017-1021); the [img.onload] handler of the first
    effect (lines 75-81) resets the transform in the same way after setting
    [imageLoaded]. *)
Definition resetView (st : PanelState) : PanelState :=
  setTranslateY 0 (setTranslateX 0 (setScale 1 st)).

Definition imageOnLoad (st : PanelState) : PanelState :=
  setTranslateY 0 (setTranslateX 0 (setScale 1 (setImageLoaded true st))).

(** ** Touch handlers *)

Section TouchHandlers.

(** [Math.sqrt], which has no rational counterpart, is left abstract. *)
Variable Math_sqrt : Q -> Q.

(** [getTouchDistance] (lines 1024-1032). *)
Definition getTouchDistance (touches : list Touch) : Q :=
  match touches with
  | touch1 :: touch2 :: _ =>
      Math_sqrt ((clientX touch2 - clientX touch1) ^ 2
                 + (clientY touch2 - clientY touch1) ^ 2)
  | _ => 0
  end.

(** [getTouchCenter] (lines 1034-1044). *)
Definition getTouchCenter (touches : list Touch) : Point.t :=
  match touches with
  | [] => Point.mk 0 0
  | [touch] => Point.mk (clientX touch) (clientY touch)
  | touch1 :: touch2 :: _ =>
      Point.mk ((clientX touch1 + clientX touch2) / 2)
               ((clientY touch1 + clientY touch2) / 2)
  end.

(** [handleTouchStart] (lines 1046-1088). *)
Definition handleTouchStart (refs : option Dom) (props : Props)
    (touches : list Touch) (st : PanelState) : PanelState * list Call :=
  match refs with
  | None => (st, [])
  | Some d =>
      let displayScale := displayScale d in
      match touches with
      | [_; _] =>
          let distance := getTouchDistance touches in
          (setTouchStartScale (scale st) (setTouchStartDistance distance st),
           [])
      | [touch] =>
          if isRegionSelectMode props then
            match mouseToImageCoords refs st touch with
            | Some coords =>
                (setCurrentRegion None
                   (setRegionStart (Some coords) (setIsDrawingRegion true st)),
                 if onRegionSelect props then [CallRegionSelect None] else [])
            | None => (st, [])
            end
          else
            (setStartPos
               (Point.mk (clientX touch - translateX st * displayScale)
                         (clientY touch - translateY st * displayScale))
               (setIsPanning true st),
             [])
      | _ => (st, [])
      end
  end.

(** [handleTouchMove] (lines 1090-1151). *)
Definition handleTouchMove (refs : option Dom) (props : Props)
    (touches : list Touch) (st : PanelState) : PanelState :=
  match refs with
  | None => st
  | Some img =>
      let rect := rect img in
      let displayScale := displayScale img in
      match touches with
      | [_; _] =>
          let distance := getTouchDistance touches in
          let center := getTouchCenter touches in
          if Qlt_bool 0 (touchStartDistance st) then
            let scaleChange := distance / touchStartDistance st in
            let newScale :=
              JSMath.min (JSMath.max 1 (touchStartScale st * scaleChange)) 10 in
            let centerXCanvas :=
              (Point.x center - DOMRect.left rect) / displayScale
              - JSMath.max 60
                  (JSMath.round
                     (JSMath.max (naturalWidth img) (naturalHeight img) / 20)) in
            let centerYCanvas :=
              (Point.y center - DOMRect.top rect) / displayScale
              - JSMath.max 60
                  (JSMath.round
                     (JSMath.max (naturalWidth img) (naturalHeight img) / 20)) in
            let scaleRatio := newScale / scale st in
            let newTranslateX :=
              centerXCanvas - (centerXCanvas - translateX st) * scaleRatio in
            let newTranslateY :=
              centerYCanvas - (centerYCanvas - translateY st) * scaleRatio in
            let constrained :=
              constrainPan refs newTranslateX newTranslateY newScale in
            setScale newScale
              (setTranslateY (Point.y constrained)
                 (setTranslateX (Point.x constrained) st))
          else st
      | [touch] =>
          match isDrawingRegion st, regionStart st, isRegionSelectMode props with
          | true, Some regionStart, true =>
              match mouseToImageCoords refs st touch with
              | Some coords =>
                  let x :=
                    JSMath.max 0
                      (JSMath.min (Point.x regionStart) (Point.x coords)) in
                  let y :=
                    JSMath.max 0
                      (JSMath.min (Point.y regionStart) (Point.y coords)) in
                  let width :=
                    JSMath.min (naturalWidth img - x)
                      (JSMath.abs (Point.x coords - Point.x regionStart)) in
                  let height :=
                    JSMath.min (naturalHeight img - y)
                      (JSMath.abs (Point.y coords - Point.y regionStart)) in
                  setCurrentRegion
                    (Some (RegionSelection.mk x y width height)) st
              | None => st
              end
          | _, _, _ =>
              if isPanning st then
                let newTranslateX :=
                  (clientX touch - Point.x (startPos st)) / displayScale in
                let newTranslateY :=
                  (clientY touch - Point.y (startPos st)) / displayScale in
                let constrained :=
                  constrainPan refs newTranslateX newTranslateY (scale st) in
                setTranslateY (Point.y constrained)
                  (setTranslateX (Point.x constrained) st)
              else st
          end
      | _ => st
      end
  end.

(** [handleTouchEnd] (lines 1153-1176); [touches] are the touches that
    remain on the surface. *)
Definition handleTouchEnd (props : Props) (touches : list Touch)
    (st : PanelState) : PanelState * list Call :=
  match touches with
  | [] =>
      let (st1, calls) :=
        match isDrawingRegion st, currentRegion st, isRegionSelectMode props with
        | true, Some currentRegion, true =>
            let (st0, calls) :=
              if meaningfulSize currentRegion then
                (st, if onRegionSelect props
                     then [CallRegionSelect (Some currentRegion)] else [])
              else (setCurrentRegion None st, []) in
            (setRegionStart None (setIsDrawingRegion false st0), calls)
        | _, _, _ => (st, [])
        end in
      (setTouchStartScale 1
         (setTouchStartDistance 0 (setIsPanning false st1)),
       calls)
  | [_] => (setTouchStartScale 1 (setTouchStartDistance 0 st), [])
  | _ => (st, [])
  end.

End TouchHandlers.

(** ** The two-finger branch with checked divisions

    JavaScript division by zero does not trap: it produces [Infinity] or
    [NaN].  To state that the pinch branch performs no such division, the
    branch [e.touches.length === 2] of [handleTouchMove] (lines 1096-1124,
    with the calls of [constrainPan] it makes) is repeated here with every
    division replaced by [Checked.div], which fails on a zero divisor. *)

Module Checked.

Definition div (a b : Q) : option Q :=
  if Qeq_bool b 0 then None else Some (a / b).

Definition bind {A B : Type} (m : option A) (k : A -> option B) : option B :=
  match m with
  | Some a => k a
  | None => None
  end.

Notation "x <- m ;; k" := (bind m (fun x => k))
  (at level 61, m at next level, right associativity).

Definition rulerMargin (d : Dom) : option Q :=
  q <- div (JSMath.max (naturalWidth d) (naturalHeight d)) 20 ;;
  Some (JSMath.max 60 (JSMath.round q)).

Definition displayScale (d : Dom) : option Q :=
  a <- div (DOMRect.width (rect d)) (canvas_width d) ;;
  b <- div (DOMRect.height (rect d)) (canvas_height d) ;;
  Some (JSMath.min a b).

Definition constrainAxis (natural extent displayScale rulerMargin
    newTranslate currentScale : Q) : option Q :=
  let scaled := natural * displayScale * currentScale in
  if Qle_bool scaled extent then
    a <- div extent displayScale ;;
    b <- div (a - natural * currentScale) 2 ;;
    Some (b - rulerMargin)
  else
    a <- div (extent - scaled) displayScale ;;
    let minTranslate := a - rulerMargin in
    let maxTranslate := - rulerMargin in
    Some (JSMath.max minTranslate (JSMath.min maxTranslate newTranslate)).

Definition constrainPan (d : Dom)
    (newTranslateX newTranslateY currentScale : Q) : option Point.t :=
  if Qeq_bool currentScale 1 then Some (Point.mk 0 0)
  else
    rulerMargin <- rulerMargin d ;;
    displayScale <- displayScale d ;;
    x <- constrainAxis (naturalWidth d) (DOMRect.width (rect d))
           displayScale rulerMargin newTranslateX currentScale ;;
    y <- constrainAxis (naturalHeight d) (DOMRect.height (rect d))
           displayScale rulerMargin newTranslateY currentScale ;;
    Some (Point.mk x y).

Definition pinchMove (Math_sqrt : Q -> Q) (img : Dom)
    (touches : list Touch) (st : PanelState) : option PanelState :=
  displayScale <- displayScale img ;;
  let distance := getTouchDistance Math_sqrt touches in
  let center := getTouchCenter touches in
  if Qlt_bool 0 (touchStartDistance st) then
    scaleChange <- div distance (touchStartDistance st) ;;
    let newScale :=
      JSMath.min (JSMath.max 1 (touchStartScale st * scaleChange)) 10 in
    cx <- div (Point.x center - DOMRect.left (rect img)) displayScale ;;
    mx <- rulerMargin img ;;
    let centerXCanvas := cx - mx in
    cy <- div (Point.y center - DOMRect.top (rect img)) displayScale ;;
    my <- rulerMargin img ;;
    let centerYCanvas := cy - my in
    scaleRatio <- div newScale (scale st) ;;
    let newTranslateX :=
      centerXCanvas - (centerXCanvas - translateX st) * scaleRatio in
    let newTranslateY :=
      centerYCanvas - (centerYCanvas - translateY st) * scaleRatio in
    constrained <- constrainPan img newTranslateX newTranslateY newScale ;;
    Some (setScale newScale
            (setTranslateY (Point.y constrained)
               (setTranslateX (Point.x constrained) st)))
  else Some st.

End Checked.

(** ** Auto-zoom to the detections *)

(** Numbers extended with the two infinities: the auto-zoom effect starts
    its running minima and maxima at [Infinity] and [-Infinity], and divides
    by the padded size, which is zero for a detection without extent. *)
Module Ext.

Inductive t : Type :=
| NegInfinity
| Fin (q : Q)
| Infinity.

Definition min (a b : t) : t :=
  match a, b with
  | NegInfinity, _ | _, NegInfinity => NegInfinity
  | Infinity, c | c, Infinity => c
  | Fin p, Fin q => Fin (JSMath.min p q)
  end.

Definition max (a b : t) : t :=
  match a, b with
  | Infinity, _ | _, Infinity => Infinity
  | NegInfinity, c | c, NegInfinity => c
  | Fin p, Fin q => Fin (JSMath.max p q)
  end.

(** Quotient of two finite numbers; [None] stands for [NaN] (0/0).  A zero
    divisor is taken to be the positive zero. *)
Definition div (a b : Q) : option t :=
  if Qeq_bool b 0 then
    if Qeq_bool a 0 then None
    else if Qlt_bool 0 a then Some Infinity else Some NegInfinity
  else Some (Fin (a / b)).

Definition finite (a : t) : option Q :=
  match a with
  | Fin q => Some q
  | _ => None
  end.

End Ext.

(** Running bounds of the nested [forEach] (lines 112-121). *)
Record Bounds : Type := mkBounds {
  minX : Ext.t; minY : Ext.t; maxX : Ext.t; maxY : Ext.t
}.

Definition boundsOfVertices (acc : Bounds) (coordinates : list (Q * Q)) : Bounds :=
  fold_left
    (fun b '(x, y) =>
       mkBounds (Ext.min (minX b) (Ext.Fin x)) (Ext.min (minY b) (Ext.Fin y))
                (Ext.max (maxX b) (Ext.Fin x)) (Ext.max (maxY b) (Ext.Fin y)))
    coordinates acc.

Definition boundsOfBoxes (boxes : list BoundingBox) : Bounds :=
  fold_left (fun b box => boundsOfVertices b (coordinates box)) boxes
    (mkBounds Ext.Infinity Ext.Infinity Ext.NegInfinity Ext.NegInfinity).

(** The values the auto-zoom effect computes before it sets the state. *)
Record AutoZoom : Type := mkAutoZoom {
  centerX : Q;
  centerY : Q;
  paddedWidth : Q;
  paddedHeight : Q;
  autoDisplayScale : Q;
  newScale : Q;
  newTranslateX : Q;
  newTranslateY : Q
}.

(** Lines 102-190 of the effect where every value it computes is a finite
    number, with the intermediate values ([None] otherwise: no vertex at
    all, so that the bounds stay infinite, or an image or a canvas rectangle
    without extent).  [autoZoomJS] below follows the same lines on all
    inputs. *)
Definition autoZoom (d : Dom) (boxes : list BoundingBox) : option AutoZoom :=
  let canvasRect := rect d in
  let b := boundsOfBoxes boxes in
  match minX b, minY b, maxX b, maxY b with
  | Ext.Fin minX, Ext.Fin minY, Ext.Fin maxX, Ext.Fin maxY =>
      let boxWidth := maxX - minX in
      let boxHeight := maxY - minY in
      let padding := JSMath.max boxWidth boxHeight * 1.2 in
      let minX := JSMath.max 0 (minX - padding) in
      let minY := JSMath.max 0 (minY - padding) in
      let maxX := JSMath.min (naturalWidth d) (maxX + padding) in
      let maxY := JSMath.min (naturalHeight d) (maxY + padding) in
      let paddedWidth := maxX - minX in
      let paddedHeight := maxY - minY in
      let centerX := (minX + maxX) / 2 in
      let centerY := (minY + maxY) / 2 in
      match Ext.div (DOMRect.width canvasRect) (naturalWidth d),
            Ext.div (DOMRect.height canvasRect) (naturalHeight d) with
      | Some (Ext.Fin sw), Some (Ext.Fin sh) =>
          let displayScale := JSMath.min sw sh in
          let paddedWidthDisplay := paddedWidth * displayScale in
          let paddedHeightDisplay := paddedHeight * displayScale in
          let targetFillRatio := 0.45 in
          match Ext.div (DOMRect.width canvasRect * targetFillRatio)
                        paddedWidthDisplay,
                Ext.div (DOMRect.height canvasRect * targetFillRatio)
                        paddedHeightDisplay,
                Ext.div (DOMRect.width canvasRect / 2) displayScale,
                Ext.div (DOMRect.height canvasRect / 2) displayScale with
          | Some scaleX, Some scaleY, Some (Ext.Fin halfW), Some (Ext.Fin halfH) =>
              let newScale := Ext.min scaleX scaleY in
              match Ext.finite
                      (Ext.max (Ext.Fin 1.2) (Ext.min newScale (Ext.Fin 6))) with
              | Some newScale =>
                  Some (mkAutoZoom centerX centerY paddedWidth paddedHeight
                          displayScale newScale
                          (halfW - centerX * newScale)
                          (halfH - centerY * newScale))
              | None => None
              end
          | _, _, _, _ => None
          end
      | _, _ => None
      end
  | _, _, _, _ => None
  end.

(** JavaScript numbers with their non-finite values.  The arithmetic of the
    auto-zoom effect is not guarded: with a canvas rectangle or an image
    without extent, or without any vertex, it reaches [NaN] and the
    infinities, and the effect passes what it has computed to [setScale],
    [setTranslateX] and [setTranslateY] all the same.  Zeros carry no sign
    here and a zero divisor counts as the positive zero.  With sizes that
    are not negative that is the zero the effect divides by, except for a
    padded display length made of a negative padded length and a
    [displayScale] of 0; the other of [scaleX] and [scaleY] is then 0/0,
    so that [newScale] is [NaN] with either sign. *)
Module JSNum.

Inductive t : Type :=
| NaN
| NegInfinity
| Fin (q : Q)
| Infinity.

Definition ofExt (e : Ext.t) : t :=
  match e with
  | Ext.NegInfinity => NegInfinity
  | Ext.Fin q => Fin q
  | Ext.Infinity => Infinity
  end.

Definition neg (a : t) : t :=
  match a with
  | NaN => NaN
  | NegInfinity => Infinity
  | Fin q => Fin (- q)
  | Infinity => NegInfinity
  end.

Definition add (a b : t) : t :=
  match a, b with
  | NaN, _ | _, NaN => NaN
  | Infinity, NegInfinity | NegInfinity, Infinity => NaN
  | Infinity, _ | _, Infinity => Infinity
  | NegInfinity, _ | _, NegInfinity => NegInfinity
  | Fin p, Fin q => Fin (p + q)
  end.

Definition sub (a b : t) : t :=
  match a, b with
  | NaN, _ | _, NaN => NaN
  | Infinity, Infinity | NegInfinity, NegInfinity => NaN
  | Infinity, _ | _, NegInfinity => Infinity
  | NegInfinity, _ | _, Infinity => NegInfinity
  | Fin p, Fin q => Fin (p - q)
  end.

(** An infinity times a finite number: the sign of [q] decides, and
    infinity times zero is [NaN]. *)
Definition signed (a : t) (q : Q) : t :=
  if Qeq_bool q 0 then NaN else if Qlt_bool 0 q then a else neg a.

Definition mul (a b : t) : t :=
  match a, b with
  | NaN, _ | _, NaN => NaN
  | Fin p, Fin q => Fin (p * q)
  | Fin p, c => signed c p
  | c, Fin q => signed c q
  | Infinity, Infinity | NegInfinity, NegInfinity => Infinity
  | _, _ => NegInfinity
  end.

Definition div (a b : t) : t :=
  match a, b with
  | NaN, _ | _, NaN => NaN
  | Fin p, Fin q =>
      if Qeq_bool q 0 then
        if Qeq_bool p 0 then NaN
        else if Qlt_bool 0 p then Infinity else NegInfinity
      else Fin (p / q)
  | Fin _, _ => Fin 0
  | c, Fin q => if Qlt_bool q 0 then neg c else c
  | _, _ => NaN
  end.

(** [Math.min] and [Math.max]: [NaN] as soon as an argument is [NaN]. *)
Definition min (a b : t) : t :=
  match a, b with
  | NaN, _ | _, NaN => NaN
  | NegInfinity, _ | _, NegInfinity => NegInfinity
  | Infinity, c | c, Infinity => c
  | Fin p, Fin q => Fin (JSMath.min p q)
  end.

Definition max (a b : t) : t :=
  match a, b with
  | NaN, _ | _, NaN => NaN
  | Infinity, _ | _, Infinity => Infinity
  | NegInfinity, c | c, NegInfinity => c
  | Fin p, Fin q => Fin (JSMath.max p q)
  end.

(** [a <= b]: false as soon as an operand is [NaN]. *)
Definition leb (a b : t) : bool :=
  match a, b with
  | NaN, _ | _, NaN => false
  | NegInfinity, _ | _, Infinity => true
  | Fin p, Fin q => Qle_bool p q
  | _, _ => false
  end.

Definition finite (a : t) : option Q :=
  match a with
  | Fin q => Some q
  | _ => None
  end.

End JSNum.

(** The arguments of the three setter calls that end the effect (lines
    193-195). *)
Record Writes : Type := mkWrites {
  scaleArg : JSNum.t;
  translateXArg : JSNum.t;
  translateYArg : JSNum.t
}.

(** Lines 102-195 of the effect on JavaScript numbers, whatever the
    measurements: what it passes to [setScale], [setTranslateX] and
    [setTranslateY]. *)
Definition autoZoomJS (d : Dom) (boxes : list BoundingBox) : Writes :=
  let canvasRect := rect d in
  let b := boundsOfBoxes boxes in
  let minX := JSNum.ofExt (minX b) in
  let minY := JSNum.ofExt (minY b) in
  let maxX := JSNum.ofExt (maxX b) in
  let maxY := JSNum.ofExt (maxY b) in
  let boxWidth := JSNum.sub maxX minX in
  let boxHeight := JSNum.sub maxY minY in
  let padding := JSNum.mul (JSNum.max boxWidth boxHeight) (JSNum.Fin 1.2) in
  let minX := JSNum.max (JSNum.Fin 0) (JSNum.sub minX padding) in
  let minY := JSNum.max (JSNum.Fin 0) (JSNum.sub minY padding) in
  let maxX := JSNum.min (JSNum.Fin (naturalWidth d)) (JSNum.add maxX padding) in
  let maxY := JSNum.min (JSNum.Fin (naturalHeight d)) (JSNum.add maxY padding) in
  let paddedWidth := JSNum.sub maxX minX in
  let paddedHeight := JSNum.sub maxY minY in
  let centerX := JSNum.div (JSNum.add minX maxX) (JSNum.Fin 2) in
  let centerY := JSNum.div (JSNum.add minY maxY) (JSNum.Fin 2) in
  let displayScale :=
    JSNum.min
      (JSNum.div (JSNum.Fin (DOMRect.width canvasRect))
                 (JSNum.Fin (naturalWidth d)))
      (JSNum.div (JSNum.Fin (DOMRect.height canvasRect))
                 (JSNum.Fin (naturalHeight d))) in
  let paddedWidthDisplay := JSNum.mul paddedWidth displayScale in
  let paddedHeightDisplay := JSNum.mul paddedHeight displayScale in
  let targetFillRatio := 0.45 in
  let scaleX :=
    JSNum.div (JSNum.Fin (DOMRect.width canvasRect * targetFillRatio))
              paddedWidthDisplay in
  let scaleY :=
    JSNum.div (JSNum.Fin (DOMRect.height canvasRect * targetFillRatio))
              paddedHeightDisplay in
  let newScale := JSNum.min scaleX scaleY in
  let newScale := JSNum.max (JSNum.Fin 1.2) (JSNum.min newScale (JSNum.Fin 6)) in
  let newTranslateX :=
    JSNum.sub (JSNum.div (JSNum.Fin (DOMRect.width canvasRect / 2)) displayScale)
              (JSNum.mul centerX newScale) in
  let newTranslateY :=
    JSNum.sub (JSNum.div (JSNum.Fin (DOMRect.height canvasRect / 2)) displayScale)
              (JSNum.mul centerY newScale) in
  mkWrites newScale newTranslateX newTranslateY.

(** The auto-zoom effect (lines 91-196), run when [boundingBoxes],
    [imageLoaded] or [maskUrl] change: the arguments of its setter calls,
    [None] when it returns before any call. *)
Definition autoZoomWrites (refs : option Dom) (props : Props) (st : PanelState)
  : option Writes :=
  match refs with
  | None => None
  | Some d =>
      if negb (imageLoaded st)
         || Nat.eqb (List.length (boundingBoxes props)) 0 then None
      else if truthy (maskUrl props) then
        Some (mkWrites (JSNum.Fin 1) (JSNum.Fin 0) (JSNum.Fin 0))
      else Some (autoZoomJS d (boundingBoxes props))
  end.

(** The state after the effect.  [PanelState] holds finite numbers only:
    the result is [None] exactly when one of the numbers the effect passes
    to a setter is not finite, and [autoZoomWrites] tells which. *)
Definition autoZoomEffect (refs : option Dom) (props : Props) (st : PanelState)
  : option PanelState :=
  match autoZoomWrites refs props st with
  | None => Some st
  | Some w =>
      match JSNum.finite (scaleArg w), JSNum.finite (translateXArg w),
            JSNum.finite (translateYArg w) with
      | Some newScale, Some newTranslateX, Some newTranslateY =>
          Some (setTranslateY newTranslateY
                  (setTranslateX newTranslateX (setScale newScale st)))
      | _, _, _ => None
      end
  end.

(** ** The parent page

    [app/page.tsx] keeps [regionSelection] and [selectedObjectId] in its own
    state and passes the setters as [onRegionSelect] and [onObjectSelect]. *)

Module Page.

Record t : Type := mk {
  regionSelection : option RegionSelection.t;
  selectedObjectId : option string
}.

Definition receive (p : t) (c : Call) : t :=
  match c with
  | CallRegionSelect r => mk r (selectedObjectId p)
  | CallObjectSelect o => mk (regionSelection p) o
  end.

Definition receiveAll (p : t) (calls : list Call) : t :=
  fold_left receive calls p.

End Page.

(** ** Selection blink animation *)

(** The host's frame scheduler: [requestAnimationFrame] hands out a fresh
    non-zero handle and queues the callback, [cancelAnimationFrame] removes
    it from the queue. *)
Record Scheduler : Type := mkScheduler {
  nextHandle : positive;
  pendingFrames : list positive
}.

Definition requestAnimationFrame (s : Scheduler) : positive * Scheduler :=
  (nextHandle s,
   mkScheduler (Pos.succ (nextHandle s)) (nextHandle s :: pendingFrames s)).

Definition cancelAnimationFrame (h : positive) (s : Scheduler) : Scheduler :=
  mkScheduler (nextHandle s) (List.remove Pos.eq_dec h (pendingFrames s)).

(** The variables captured by one run of the blink effect. *)
Record BlinkRun : Type := mkBlinkRun {
  animationFrame : option positive;
  startTime : Q
}.

(** The panel together with the scheduler, the current run of the effect (if
    it started a loop) and the callback calls made so far. *)
Record World : Type := mkWorld {
  panel : PanelState;
  scheduler : Scheduler;
  blinkRun : option BlinkRun;
  calls : list Call
}.

Definition blinkDuration : Q := 400.
Definition totalBlinks : Q := 10.
Definition totalDuration : Q := blinkDuration * totalBlinks.

Section Blink.

(** [Math.sin] is left abstract. *)
Variable Math_sin : Q -> Q.

(** The body of the blink effect (lines 199-229), run at time [now] when
    [selectedObjectId] changes. *)
Definition blinkEffect (props : Props) (now : Q) (w : World) : World :=
  if negb (truthy (selectedObjectId props)) then
    mkWorld (setBlinkOpacity 0.4 (panel w)) (scheduler w) None (calls w)
  else
    let (h, s) := requestAnimationFrame (scheduler w) in
    mkWorld (panel w) s (Some (mkBlinkRun (Some h) now)) (calls w).

(** The frame callback [animate] (lines 211-227), run at time [now]. *)
Definition animate (props : Props) (now : Q) (run : BlinkRun) (w : World)
  : World :=
  let elapsed := now - startTime run in
  if Qle_bool totalDuration elapsed then
    mkWorld (setBlinkOpacity 0.4 (panel w)) (scheduler w) (Some run)
      (calls w ++ (if onObjectSelect props then [CallObjectSelect None] else []))
  else
    let opacity := 0.35 + Math_sin (elapsed / blinkDuration) * 0.15 in
    let (h, s) := requestAnimationFrame (scheduler w) in
    mkWorld (setBlinkOpacity opacity (panel w)) s
      (Some (mkBlinkRun (Some h) (startTime run))) (calls w).

(** The cleanup function of the effect (lines 231-235). *)
Definition blinkCleanup (w : World) : World :=
  match blinkRun w with
  | Some run =>
      match animationFrame run with
      | Some h =>
          mkWorld (panel w) (cancelAnimationFrame h (scheduler w)) None (calls w)
      | None => mkWorld (panel w) (scheduler w) None (calls w)
      end
  | None => w
  end.

(** The host delivers an animation frame at time [now]: the queued
    callbacks are taken off the queue and run.  The only callback this
    component queues is [animate] of the current run. *)
Definition frame (props : Props) (now : Q) (w : World) : World :=
  match blinkRun w with
  | Some run =>
      match animationFrame run with
      | Some h =>
          if existsb (Pos.eqb h) (pendingFrames (scheduler w)) then
            animate props now run
              (mkWorld (panel w) (cancelAnimationFrame h (scheduler w))
                 (blinkRun w) (calls w))
          else w
      | None => w
      end
  | None => w
  end.

(** Frames delivered at the given times, in order. *)
Definition frames (props : Props) (times : list Q) (w : World) : World :=
  fold_left (fun w now => frame props now w) times w.

End Blink.

(** ** Export with overlays *)

(** The drawing calls the export makes on its 2D context. *)
Inductive CanvasOp : Type :=
| DrawImage (dx dy : Q)
| BeginPath
| MoveTo (x y : Q)
| LineTo (x y : Q)
| ClosePath
| StrokeStyle (color : string)
| LineWidth (w : Q)
| Stroke
| FillStyle (color : string)
| Font (font : string)
| FillRect (x y w h : Q)
| FillText (text : string) (x y : Q).

Record Color : Type := mkColor { stroke : string; fill : string; label : string }.

Definition pastelColors : list Color :=
  [ mkColor "#60a5fa" "rgba(96, 165, 250, 0.3)" "#3b82f6";
    mkColor "#34d399" "rgba(52, 211, 153, 0.3)" "#10b981";
    mkColor "#f59e0b" "rgba(245, 158, 11, 0.3)" "#d97706";
    mkColor "#ec4899" "rgba(236, 72, 153, 0.3)" "#db2777";
    mkColor "#8b5cf6" "rgba(139, 92, 246, 0.3)" "#7c3aed";
    mkColor "#06b6d4" "rgba(6, 182, 212, 0.3)" "#0891b2";
    mkColor "#f97316" "rgba(249, 115, 22, 0.3)" "#ea580c";
    mkColor "#14b8a6" "rgba(20, 184, 166, 0.3)" "#0d9488";
    mkColor "#a855f7" "rgba(168, 85, 247, 0.3)" "#9333ea";
    mkColor "#ef4444" "rgba(239, 68, 68, 0.3)" "#dc2626" ]%string.

Definition getObjectColor (index : nat) : Color :=
  nth (index mod List.length pastelColors) pastelColors
      (mkColor "" "" "")%string.

(** The export surface: its size and the drawing calls made on it. *)
Record ExportCanvas : Type := mkExportCanvas {
  export_width : Q;
  export_height : Q;
  ops : list CanvasOp
}.

Section ExportRenderer.

(** [ctx.measureText(label).width] for the export font. *)
Variable measureText : string -> Q.

(** The body of [boundingBoxes.forEach] in the export (lines 953-989). *)
Definition exportBox (index : nat) (box : BoundingBox) : list CanvasOp :=
  let coords := coordinates box in
  match coords with
  | (x0, y0) :: ((_ :: _) as rest) =>
      let objectColor := getObjectColor index in
      let n := inject_Z (Z.of_nat (List.length coords)) in
      let centerX := fold_left (fun sum coord => sum + fst coord) coords 0 / n in
      let centerY := fold_left (fun sum coord => sum + snd coord) coords 0 / n in
      let labelColor := label objectColor in
      let label := object_id box in
      let metrics_width := measureText label in
      let padding := 6 in
      [BeginPath; MoveTo x0 y0]
      ++ map (fun c => LineTo (fst c) (snd c)) rest
      ++ [ClosePath;
          StrokeStyle (stroke objectColor); LineWidth 3; Stroke;
          FillStyle labelColor; Font "600 14px Inter, sans-serif";
          FillRect (centerX - metrics_width / 2 - padding) (centerY - 20)
                   (metrics_width + padding * 2) 22;
          FillStyle "#000000";
          FillText label (centerX - metrics_width / 2) (centerY - 6)]
  | _ => []
  end.

Fixpoint exportBoxes (index : nat) (boxes : list BoundingBox) : list CanvasOp :=
  match boxes with
  | [] => []
  | box :: rest => exportBox index box ++ exportBoxes (S index) rest
  end.

(** [handleDownloadWithOverlays] (lines 918-996): the canvas that is
    encoded by [toDataURL] and offered for download. *)
Definition handleDownloadWithOverlays (refs : option Dom) (props : Props)
    (st : PanelState) : option ExportCanvas :=
  match refs with
  | None => None
  | Some img =>
      if negb (imageLoaded st) then None
      else
        Some (mkExportCanvas (naturalWidth img) (naturalHeight img)
                (DrawImage 0 0 :: exportBoxes 0 (boundingBoxes props)))
  end.

End ExportRenderer.

(** ** The spec's wording of the composite transform

    Section 4.1 of the specification gives the composite as
    [((p + margin) * scale + translate) * displayFitScale]; it is written
    down here, next to [imageToClient] above, for comparison. *)
Definition imageToClient_spec (d : Dom) (st : PanelState) (p : Point.t)
  : MouseEvent :=
  mkMouseEvent
    (((Point.x p + rulerMargin d) * scale st + translateX st) * displayScale d)
    (((Point.y p + rulerMargin d) * scale st + translateY st) * displayScale d).

(** The spec's wording of the candidate rectangle of a region drag: the
    rectangle spanned by the anchor and the current point,
    [{x: min, y: min, width: |dx|, height: |dy|}], clipped to the image
    bounds [[0, width] x [0, height]], that is, with both corners brought
    into the bounds. *)
Definition clipTo (bound v : Q) : Q := JSMath.max 0 (JSMath.min bound v).

Definition clippedDragRegion (naturalWidth naturalHeight : Q)
    (anchor cur : Point.t) : RegionSelection.t :=
  let x0 := clipTo naturalWidth (JSMath.min (Point.x anchor) (Point.x cur)) in
  let y0 := clipTo naturalHeight (JSMath.min (Point.y anchor) (Point.y cur)) in
  let x1 :=
    clipTo naturalWidth
      (JSMath.min (Point.x anchor) (Point.x cur)
       + JSMath.abs (Point.x cur - Point.x anchor)) in
  let y1 :=
    clipTo naturalHeight
      (JSMath.min (Point.y anchor) (Point.y cur)
       + JSMath.abs (Point.y cur - Point.y anchor)) in
  RegionSelection.mk x0 y0 (x1 - x0) (y1 - y0).

(** Equality of rectangles, field by field. *)
Definition sameRegion (r s : RegionSelection.t) : Prop :=
  RegionSelection.x r == RegionSelection.x s /\
  RegionSelection.y r == RegionSelection.y s /\
  RegionSelection.width r == RegionSelection.width s /\
  RegionSelection.height r == RegionSelection.height s.

(** The candidate rectangle after a press at [down] and a move to [cur], in
    region-select mode. *)
Definition dragCandidate (refs : option Dom) (props : Props)
    (down cur : MouseEvent) (st : PanelState) : option RegionSelection.t :=
  currentRegion
    (handleMouseMove refs props cur (fst (handleMouseDown refs props down st))).

(** ** Events and reachable states *)

(** Everything that can change the transform state, with the DOM
    measurements and props in force when it happens. *)
Inductive Event : Type :=
| EvImageLoad
| EvAutoZoom (refs : option Dom) (props : Props)
| EvWheel (refs : option Dom) (e : WheelEvent)
| EvMouseDown (refs : option Dom) (props : Props) (e : MouseEvent)
| EvMouseMove (refs : option Dom) (props : Props) (e : MouseEvent)
| EvMouseUp (props : Props)
| EvClearRegion (props : Props)
| EvZoomIn (refs : option Dom)
| EvZoomOut (refs : option Dom)
| EvResetView
| EvTouchStart (refs : option Dom) (props : Props) (touches : list Touch)
| EvTouchMove (refs : option Dom) (props : Props) (touches : list Touch)
| EvTouchEnd (props : Props) (touches : list Touch).

Section Run.

Variable Math_sqrt : Q -> Q.

(** One event; [None] only where the auto-zoom effect passes a number that
    is not finite to a setter (see [autoZoomWrites]). *)
Definition step (st : PanelState) (ev : Event) : option PanelState :=
  match ev with
  | EvImageLoad => Some (imageOnLoad st)
  | EvAutoZoom refs props => autoZoomEffect refs props st
  | EvWheel refs e => Some (handleWheel refs e st)
  | EvMouseDown refs props e => Some (fst (handleMouseDown refs props e st))
  | EvMouseMove refs props e => Some (handleMouseMove refs props e st)
  | EvMouseUp props => Some (fst (handleMouseUp props st))
  | EvClearRegion props => Some (fst (handleClearRegion props st))
  | EvZoomIn refs => Some (zoomIn refs st)
  | EvZoomOut refs => Some (zoomOut refs st)
  | EvResetView => Some (resetView st)
  | EvTouchStart refs props touches =>
      Some (fst (handleTouchStart Math_sqrt refs props touches st))
  | EvTouchMove refs props touches =>
      Some (handleTouchMove Math_sqrt refs props touches st)
  | EvTouchEnd props touches => Some (fst (handleTouchEnd props touches st))
  end.

(** The states after each event of a sequence, in order; [None] if some
    step leaves the finite numbers. *)
Fixpoint run (st : PanelState) (evs : list Event) : option (list PanelState) :=
  match evs with
  | [] => Some []
  | ev :: rest =>
      match step st ev with
      | Some st' =>
          match run st' rest with
          | Some trace => Some (st' :: trace)
          | None => None
          end
      | None => None
      end
  end.

End Run.

(** The scale invariant of the transform state. *)
Definition scaleInBounds (st : PanelState) : Prop :=
  1 <= scale st /\ scale st <= 10.

(** A sample of [Math.sqrt], exact on squares of integers, used to run the
    touch handlers on concrete inputs. *)
Definition sqrtFloor (q : Q) : Q := inject_Z (Z.sqrt (Qfloor q)).

(** What the boundary solver promises on one axis once the image is zoomed
    in: [natural] is the image extent and [extent] the extent of the canvas
    rectangle on that axis, [requested] the translate passed in and [result]
    the translate returned. *)
Definition axisSolved (d : Dom) (natural extent requested s result : Q) : Prop :=
  let scaled := natural * displayScale d * s in
  let lo := (extent - scaled) / displayScale d - rulerMargin d in
  let hi := - rulerMargin d in
  (scaled <= extent ->
     result == (extent / displayScale d - natural * s) / 2 - rulerMargin d /\
     (* the image is centred: the gap before it equals the gap after it *)
     (result + rulerMargin d + 0 * s) * displayScale d
     == extent - (result + rulerMargin d + natural * s) * displayScale d) /\
  (extent < scaled ->
     (lo <= result /\ result <= hi) /\
     (lo <= requested /\ requested <= hi -> result == requested) /\
     (requested < lo -> result == lo) /\
     (hi < requested -> result == hi) /\
     (* the image spans the whole rectangle on this axis *)
     (result + rulerMargin d + 0 * s) * displayScale d <= 0 /\
     extent <= (result + rulerMargin d + natural * s) * displayScale d).

(** The bounds are finite, which they are as soon as one vertex was seen. *)
Definition initialBounds : Bounds :=
  mkBounds Ext.Infinity Ext.Infinity Ext.NegInfinity Ext.NegInfinity.

Definition finiteBounds (b : Bounds) : Prop :=
  exists x0 y0 x1 y1,
    b = mkBounds (Ext.Fin x0) (Ext.Fin y0) (Ext.Fin x1) (Ext.Fin y1).

Definition hasVertex (boxes : list BoundingBox) : Prop :=
  exists box, In box boxes /\ coordinates box <> [].

(** The geometry the auto-zoom needs to stay within the finite numbers: an
    image and a canvas rectangle with positive extent. *)
Definition positiveGeometry (d : Dom) : Prop :=
  0 < naturalWidth d /\ 0 < naturalHeight d /\
  0 < DOMRect.width (rect d) /\ 0 < DOMRect.height (rect d).

(** The two points of the specification's auto-fit the code is compared
    with: the translate is a fixed point of the boundary solver (it "was
    passed through" it), and an image point lands within [tolerance] client
    pixels of the centre of the canvas rectangle. *)
Definition boundarySolved (d : Dom) (st : PanelState) : Prop :=
  Point.x (constrainPan (Some d) (translateX st) (translateY st) (scale st))
  == translateX st /\
  Point.y (constrainPan (Some d) (translateX st) (translateY st) (scale st))
  == translateY st.


(** [clientToImage]: the conversion every pointer interaction uses, that
    is [mouseToImageCoords] with the refs in place. *)
Definition clientToImage (d : Dom) (st : PanelState) (c : MouseEvent) : Point.t :=
  match mouseToImageCoords (Some d) st c with
  | Some p => p
  | None => Point.mk 0 0
  end.

(** A client point in canvas coordinates less the margin, the
    [mouseXCanvas] of the handlers. *)
Definition clientToCanvas (d : Dom) (c : MouseEvent) : Point.t :=
  Point.mk ((clientX c - DOMRect.left (rect d)) / displayScale d - rulerMargin d)
           ((clientY c - DOMRect.top (rect d)) / displayScale d - rulerMargin d).

(** The translate that keeps the point [pointerRS] fixed while the scale
    changes from [scale] to [scale']. *)
Definition focalTranslate (pointerRS translate scale scale' : Q) : Q :=
  pointerRS - (pointerRS - translate) * (scale' / scale).

(** A zoom from [st] to [st'] about the client point [c] to the scale
    [scale']: the translate is the focal translate passed through the
    boundary solver, and on each axis where the solver leaves the focal
    translate as it is, the image point under [c] is the same before and
    after. *)
Definition focalZoom (d : Dom) (st st' : PanelState) (c : MouseEvent)
    (scale' : Q) : Prop :=
  let fx := focalTranslate (Point.x (clientToCanvas d c)) (translateX st)
              (scale st) scale' in
  let fy := focalTranslate (Point.y (clientToCanvas d c)) (translateY st)
              (scale st) scale' in
  scale st' == scale' /\
  translateX st' == Point.x (constrainPan (Some d) fx fy scale') /\
  translateY st' == Point.y (constrainPan (Some d) fx fy scale') /\
  (translateX st' == fx ->
   Point.x (clientToImage d st' c) == Point.x (clientToImage d st c)) /\
  (translateY st' == fy ->
   Point.y (clientToImage d st' c) == Point.y (clientToImage d st c)).

(** [clamp(v, 1, 10)] *)
Definition clampScale (v : Q) : Q := Qmin (Qmax 1 v) 10.

(** The blink loop of the run started at [start] is alive: its latest frame
    request is the one frame pending. *)
Definition blinkAlive (w : World) (start : Q) : Prop :=
  exists h,
    blinkRun w = Some (mkBlinkRun (Some h) start) /\
    pendingFrames (scheduler w) = [h].

(** The opacity [animate] sets [elapsed] milliseconds into the blink. *)
Definition blinkCurve (Math_sin : Q -> Q) (elapsed : Q) : Q :=
  0.35 + Math_sin (elapsed / 400) * 0.15.

(** An event on which the model is defined: an auto-zoom that has work to
    do needs an image and a canvas rectangle with extent and a vertex. *)
Definition finiteEvent (ev : Event) : Prop :=
  match ev with
  | EvAutoZoom (Some d) props =>
      positiveGeometry d /\ hasVertex (boundingBoxes props)
  | _ => True
  end.

(** Order on the extended numbers, and the vertices a pair of bounds
    encloses. *)
Definition Ext_le (a b : Ext.t) : Prop :=
  match a, b with
  | Ext.NegInfinity, _ | _, Ext.Infinity => True
  | Ext.Fin p, Ext.Fin q => p <= q
  | _, _ => False
  end.

Definition encloses (b : Bounds) (v : Q * Q) : Prop :=
  Ext_le (minX b) (Ext.Fin (fst v)) /\ Ext_le (Ext.Fin (fst v)) (maxX b) /\
  Ext_le (minY b) (Ext.Fin (snd v)) /\ Ext_le (Ext.Fin (snd v)) (maxY b).

(** ** Rulers and border

    [drawRulersAndBorder] (lines 239-413), at its one call (line 686), where
    [imgWidth] and [imgHeight] are the natural size of the image and the
    current scale and translate are those of the state.  The text of the
    labels and the colours are left out. *)

Section Rulers.

(** [Math.log10] is left abstract. *)
Variable Math_log10 : Q -> Q.

(** Lines 257-275: the spacing of the ticks, in image pixels. *)
Definition tickSpacing (d : Dom) (currentScale : Q) : Q :=
  let imgWidth := naturalWidth d in
  let displayScale := displayScale d in
  let displayedWidth := imgWidth * currentScale * displayScale in
  let sizeRatio := displayedWidth / imgWidth in
  let baseSpacing := 50 in
  let tickSpacing := baseSpacing * sizeRatio in
  let minTickSpacing := 40 in
  let maxTickSpacing := 150 in
  let tickSpacingInScreen := tickSpacing * currentScale * displayScale in
  if Qlt_bool tickSpacingInScreen minTickSpacing then
    minTickSpacing / (currentScale * displayScale)
  else if Qlt_bool maxTickSpacing tickSpacingInScreen then
    maxTickSpacing / (currentScale * displayScale)
  else tickSpacing.

(** Lines 277-283: the spacing rounded to a nice number. *)
Definition niceInterval (tickSpacing : Q) : Q :=
  let magnitude := 10 ^ Qfloor (Math_log10 tickSpacing) in
  let normalized := tickSpacing / magnitude in
  if Qlt_bool normalized 2 then magnitude
  else if Qlt_bool normalized 5 then 2 * magnitude
  else 5 * magnitude.

Definition baseInterval (d : Dom) (currentScale : Q) : Q :=
  niceInterval (tickSpacing d currentScale).

End Rulers.

(** Lines 285-297: the dimensions of the ruler bars. *)
Definition rulerScale (d : Dom) : Q :=
  let canvasSize := JSMath.max (canvas_width d) (canvas_height d) in
  JSMath.max 1 (canvasSize / 1000).

Definition rulerThickness (d : Dom) : Q := JSMath.round (45 * rulerScale d).
Definition tickLength (d : Dom) : Q := JSMath.round (6 * rulerScale d).
Definition majorTickLength (d : Dom) : Q := JSMath.round (12 * rulerScale d).

(** Lines 299-309 and 321-326: the rectangle of the border, the part of the
    image that is visible on the canvas, as the arguments of [strokeRect]. *)
Definition borderRect (d : Dom) (st : PanelState) : RegionSelection.t :=
  let rulerMargin := rulerMargin d in
  let rulerThickness := rulerThickness d in
  let imgCanvasLeft := translateX st + rulerMargin in
  let imgCanvasTop := translateY st + rulerMargin in
  let imgCanvasRight := translateX st + rulerMargin + naturalWidth d * scale st in
  let imgCanvasBottom := translateY st + rulerMargin + naturalHeight d * scale st in
  let visibleLeft := JSMath.max rulerThickness imgCanvasLeft in
  let visibleTop := JSMath.max rulerThickness imgCanvasTop in
  let visibleRight := JSMath.min (canvas_width d) imgCanvasRight in
  let visibleBottom := JSMath.min (canvas_height d) imgCanvasBottom in
  RegionSelection.mk visibleLeft visibleTop
    (visibleRight - visibleLeft) (visibleBottom - visibleTop).

(** The [%] of JavaScript on numbers: the remainder of the division
    truncated towards zero. *)
Definition Qtruncate (q : Q) : Z :=
  if Qle_bool 0 q then Qfloor q else Qceiling q.

Definition JSrem (x y : Q) : Q := x - y * inject_Z (Qtruncate (x / y)).

(** A tick mark of a ruler: its image coordinate, its canvas coordinate
    along the ruler, and whether it is a major (longer, labelled) tick. *)
Record Tick : Type := mkTick { tickAt : Q; tickScreen : Q; tickMajor : bool }.

(** The tick loop of one ruler (lines 342-364 for the top ruler, 380-406 for
    the left one): [translate] is the translate on the ruler's axis,
    [extent] the canvas size and [imgExtent] the image size along it.
    [fuel] bounds the number of iterations. *)
Fixpoint tickLoop (d : Dom) (currentScale translate extent imgExtent : Q)
    (baseInterval endTick : Q) (fuel : nat) (x : Q) : list Tick :=
  match fuel with
  | O => []
  | S fuel' =>
      if Qle_bool x endTick then
        let rest :=
          tickLoop d currentScale translate extent imgExtent baseInterval
            endTick fuel' (x + baseInterval) in
        if Qlt_bool x 0 || Qlt_bool imgExtent x then rest
        else
          let screenX := translate + rulerMargin d + x * currentScale in
          if Qlt_bool screenX (rulerThickness d) || Qlt_bool extent screenX
          then rest
          else
            let isMajor := Qeq_bool (JSrem x (baseInterval * 2)) 0 in
            mkTick x screenX isMajor :: rest
      else []
  end.

(** The ticks of one ruler.  In exact arithmetic the loop variable runs over
    the multiples of [baseInterval] from [startTick] to [endTick], one
    iteration for each integer from the floor to the ceiling. *)
Definition rulerTicks (d : Dom) (currentScale translate extent imgExtent : Q)
    (baseInterval : Q) : list Tick :=
  let first := Qfloor (- (translate + rulerMargin d) / currentScale / baseInterval) in
  let last :=
    Qceiling ((extent - translate - rulerMargin d) / currentScale / baseInterval) in
  let startTick := inject_Z first * baseInterval in
  let endTick := inject_Z last * baseInterval in
  tickLoop d currentScale translate extent imgExtent baseInterval endTick
    (Z.to_nat (last - first + 1)) startTick.

Definition xTicks (d : Dom) (st : PanelState) (baseInterval : Q) : list Tick :=
  rulerTicks d (scale st) (translateX st) (canvas_width d) (naturalWidth d)
    baseInterval.

Definition yTicks (d : Dom) (st : PanelState) (baseInterval : Q) : list Tick :=
  rulerTicks d (scale st) (translateY st) (canvas_height d) (naturalHeight d)
    baseInterval.

(** ** Pieces of the render effect (lines 415-688) *)

(** The current transformation matrix of the 2D context, restricted to the
    scalings and translations the render effect uses:
    a point (x, y) is drawn at (a x + e, d y + f). *)
Record Matrix : Type := mkMatrix { m_a : Q; m_d : Q; m_e : Q; m_f : Q }.

Definition identityMatrix : Matrix := mkMatrix 1 1 0 0.

(** [ctx.translate(x, y)] and [ctx.scale(x, y)] multiply the current matrix
    on the right. *)
Definition ctx_translate (x y : Q) (m : Matrix) : Matrix :=
  mkMatrix (m_a m) (m_d m) (m_e m + m_a m * x) (m_f m + m_d m * y).

Definition ctx_scale (x y : Q) (m : Matrix) : Matrix :=
  mkMatrix (m_a m * x) (m_d m * y) (m_e m) (m_f m).

Definition transformPoint (m : Matrix) (p : Point.t) : Point.t :=
  Point.mk (m_a m * Point.x p + m_e m) (m_d m * Point.y p + m_f m).

(** Lines 435-438: the matrix under which the image, the polygons and the
    region rectangle are drawn. *)
Definition renderMatrix (d : Dom) (st : PanelState) : Matrix :=
  ctx_scale (scale st) (scale st)
    (ctx_translate (translateX st + rulerMargin d) (translateY st + rulerMargin d)
       identityMatrix).

(** Lines 516-517 (and 971-972 of the export): the centroid of the
    vertices, where the label goes. *)
Definition centroid (coords : list (Q * Q)) : Point.t :=
  Point.mk
    (fold_left (fun sum coord => sum + fst coord) coords 0
     / inject_Z (Z.of_nat (List.length coords)))
    (fold_left (fun sum coord => sum + snd coord) coords 0
     / inject_Z (Z.of_nat (List.length coords))).

(** Lines 535-543: the sizes of the region rectangle's decorations, in image
    units (they are drawn under [renderMatrix]). *)
Definition clampedUiScale (scale : Q) : Q :=
  let uiScale := 1 / scale in
  let minScale := 0.5 in
  let maxScale := 3 in
  JSMath.min (JSMath.max uiScale minScale) maxScale.

Definition regionLineWidth (scale : Q) : Q := 2.5 * clampedUiScale scale.
Definition regionHandleSize (scale : Q) : Q := 10 * clampedUiScale scale.

(** Line 531: the region that is drawn. *)
Definition activeRegion (props : Props) (st : PanelState)
  : option RegionSelection.t :=
  match currentRegion st with
  | Some r => Some r
  | None => regionSelection props
  end.

(** ** Detections arriving in the parent page ([app/page.tsx])

    The body of [response.obbs.map] in [handleSendMessage] (lines 467-481):
    a flat array of normalised coordinates becomes a list of vertices in
    image pixels.  A flat array of odd length has no y for its last vertex
    ([undefined], giving [NaN]); the model is undefined there. *)
Fixpoint denormalize (imgWidth imgHeight : Q) (flatCoords : list Q)
  : option (list (Q * Q)) :=
  match flatCoords with
  | [] => Some []
  | [_] => None
  | fx :: fy :: rest =>
      match denormalize imgWidth imgHeight rest with
      | Some coordinates => Some ((fx * imgWidth, fy * imgHeight) :: coordinates)
      | None => None
      end
  end.

(** [`object_${idx + 1}`] *)
Definition objectName (idx : nat) : string :=
  ("object_" ++ NilZero.string_of_uint (Nat.to_uint (idx + 1)))%string.

Fixpoint boxesOfObbs (imgWidth imgHeight : Q) (idx : nat)
    (obbs : list (list Q)) : option (list BoundingBox) :=
  match obbs with
  | [] => Some []
  | flatCoords :: rest =>
      match denormalize imgWidth imgHeight flatCoords,
            boxesOfObbs imgWidth imgHeight (S idx) rest with
      | Some coordinates, Some boxes =>
          Some (mkBoundingBox (objectName idx) coordinates :: boxes)
      | _, _ => None
      end
  end.

(** [handleObjectRename] (lines 281-289 of [app/page.tsx]), on the boxes. *)
Definition handleObjectRename (objectId newName : string)
    (boxes : list BoundingBox) : list BoundingBox :=
  map (fun box =>
         if String.eqb (object_id box) objectId
         then mkBoundingBox newName (coordinates box)
         else box)
      boxes.

(** The props the panel is rendered with once the page has called
    [setBoundingBoxes] ([boundingBoxes={boundingBoxes}], line 579 of
    [app/page.tsx]). *)
Definition setBoundingBoxes (boxes : list BoundingBox) (props : Props) : Props :=
  mkProps boxes (selectedObjectId props) (onObjectSelect props) (maskUrl props)
    (isRegionSelectMode props) (regionSelection props) (onRegionSelect props).

(** A normalised coordinate, as the detector returns it. *)
Definition normalised (c : Q) : Prop := 0 <= c /\ c <= 1.

(** A vertex within the image bounds. *)
Definition insideImage (imgWidth imgHeight : Q) (v : Q * Q) : Prop :=
  (0 <= fst v /\ fst v <= imgWidth) /\ (0 <= snd v /\ snd v <= imgHeight).

(** A tick position a ruler shows: on the image and, on the canvas, between
    the ruler bar and the far edge. *)
Definition tickVisible (d : Dom) (currentScale translate extent imgExtent : Q)
    (x : Q) : Prop :=
  0 <= x /\ x <= imgExtent /\
  rulerThickness d <= translate + rulerMargin d + x * currentScale /\
  translate + rulerMargin d + x * currentScale <= extent.

(** ** Sample inputs *)

(** A viewport used in the examples: a 1000 x 800 image (margin 60, canvas
    1120 x 920) shown in a 560 x 460 rectangle at the client origin, so that
    [displayScale] is 1/2. *)
Definition sampleDom : Dom :=
  mkDom 1000 800 1120 920 (DOMRect.mk 0 0 560 460).

(** The detection of the specification's scenario: the square with corners
    (100, 100) and (300, 300). *)
Definition sampleBox : BoundingBox :=
  mkBoundingBox "obj_1" [(100, 100); (300, 100); (300, 300); (100, 300)].

Definition sampleProps : Props :=
  mkProps [sampleBox] None true None false None true.

(** The same props in region-select mode. *)
Definition regionProps : Props :=
  mkProps [sampleBox] None true None true None true.

(** A session: the image loads, the detections arrive, then the user zooms
    with the wheel, the buttons and a pinch. *)
Definition sampleEvents : list Event :=
  [ EvImageLoad;
    EvAutoZoom (Some sampleDom) sampleProps;
    EvWheel (Some sampleDom) (mkWheelEvent (mkMouseEvent 140 140) (-100));
    EvZoomIn (Some sampleDom);
    EvTouchStart (Some sampleDom) sampleProps
      [mkMouseEvent 100 100; mkMouseEvent 103 104];
    EvTouchMove (Some sampleDom) sampleProps
      [mkMouseEvent 100 100; mkMouseEvent 400 500];
    EvTouchEnd sampleProps [];
    EvZoomOut (Some sampleDom);
    EvWheel (Some sampleDom) (mkWheelEvent (mkMouseEvent 300 200) 100) ].

Definition sampleTrace : list PanelState :=
  Eval vm_compute in
    match run sqrtFloor initialState sampleEvents with
    | Some trace => trace
    | None => []
    end.

(** The state after the image of the sample viewport has loaded and the
    sample detection has arrived. *)
Definition afterAutoFit : PanelState :=
  Eval vm_compute in
    match autoZoomEffect (Some sampleDom) sampleProps (imageOnLoad initialState) with
    | Some st => st
    | None => initialState
    end.

(** The same viewport while the canvas has no layout box (the panel is
    hidden or not laid out yet): [getBoundingClientRect()] is 0 x 0. *)
Definition collapsedDom : Dom :=
  mkDom 1000 800 1120 920 (DOMRect.mk 0 0 0 0).

(** A view zoomed to 200 % and panned to (-500, -400), well inside the range
    [[-940, -60] x [-740, -60]] the boundary solver allows there. *)
Definition zoomedView : PanelState :=
  setTranslateY (-400) (setTranslateX (-500) (setScale 2 (imageOnLoad initialState))).

(** A wheel notch towards the user at the client point (200, 150). *)
Definition zoomedWheel : WheelEvent := mkWheelEvent (mkMouseEvent 200 150) (-100).

(** A pinch on that view that started with the fingers 100 client pixels
    apart. *)
Definition zoomedPinch : PanelState :=
  setTouchStartScale 2 (setTouchStartDistance 100 zoomedView).

(** A wheel notch towards the user over the image, left of the centre. *)
Definition sampleWheel : WheelEvent := mkWheelEvent (mkMouseEvent 140 140) (-100).

(** A pinch in progress: the fingers started 5 client pixels apart. *)
Definition pinching : PanelState :=
  setTouchStartScale (6 # 5) (setTouchStartDistance 5 afterAutoFit).

(** A region draw in progress in the sample viewport: pressed at the image
    point (20, 20) (client (40, 40)) and dragged to (35, 35) (client
    (47.5, 47.5)), and the same press dragged to (29, 35) only. *)
Definition drawing15 : PanelState :=
  Eval vm_compute in
    handleMouseMove (Some sampleDom) regionProps (mkMouseEvent 47.5 47.5)
      (fst (handleMouseDown (Some sampleDom) regionProps (mkMouseEvent 40 40)
              (imageOnLoad initialState))).

Definition drawing9 : PanelState :=
  Eval vm_compute in
    handleMouseMove (Some sampleDom) regionProps (mkMouseEvent 44.5 47.5)
      (fst (handleMouseDown (Some sampleDom) regionProps (mkMouseEvent 40 40)
              (imageOnLoad initialState))).

Definition candidate15 : RegionSelection.t :=
  Eval vm_compute in
    match currentRegion drawing15 with
    | Some r => r
    | None => RegionSelection.mk 0 0 0 0
    end.

(** The parent page after the press: [onRegionSelect(null)] was called. *)
Definition pageAfterPress : Page.t :=
  Page.receiveAll (Page.mk (Some (RegionSelection.mk 1 2 30 40)) None)
    (snd (handleMouseDown (Some sampleDom) regionProps (mkMouseEvent 40 40)
            (imageOnLoad initialState))).

(** A sample of [Math.sin]: the first two terms of its series. *)
Definition sinSeries (x : Q) : Q := x - x * x * x / 6.

(** The sample detection is selected. *)
Definition selectedProps : Props :=
  mkProps [sampleBox] (Some "obj_1"%string) true None false None true.

Definition sampleWorld : World :=
  mkWorld afterAutoFit (mkScheduler 1 []) None [].

(** An answer of the detector with two objects, and the boxes the page
    makes of it for a 1000 x 800 image. *)
Definition sampleObbs : list (list Q) :=
  [[0.1; 0.2; 0.3; 0.4]; [0.5; 0.5; 1; 1]].

Definition sampleDetections : list BoundingBox :=
  [mkBoundingBox "object_1" [(0.1 * 1000, 0.2 * 800); (0.3 * 1000, 0.4 * 800)];
   mkBoundingBox "object_2" [(0.5 * 1000, 0.5 * 800); (1 * 1000, 1 * 800)]].

(** Two states show the same view. *)
Definition sameView (a b : PanelState) : Prop :=
  scale a = scale b /\ translateX a = translateX b /\ translateY a = translateY b.

(** A sample of [Math.log10], exact in its integer part from 1 on: the
    number of decimal digits of the integer part, less one. *)
Definition log10Floor (q : Q) : Q :=
  inject_Z
    (Z.of_nat
       (String.length (NilZero.string_of_uint (N.to_uint (Z.to_N (Qfloor q)))))
     - 1).

(** * Properties *)

(** ** Arithmetic helpers *)

Ltac gen_max a b :=
  let m := fresh "m" in
  let H := fresh "Hm" in
  pose proof (Q.max_spec a b) as H; set (m := Qmax a b) in *; clearbody m.

Ltac gen_min a b :=
  let m := fresh "m" in
  let H := fresh "Hm" in
  pose proof (Q.min_spec a b) as H; set (m := Qmin a b) in *; clearbody m.

(** Replace every [Qmax]/[Qmin] by a fresh number constrained by its
    specification. *)
Ltac minmax :=
  unfold JSMath.min, JSMath.max in *;
  repeat match goal with
         | |- context [Qmax ?a ?b] => gen_max a b
         | |- context [Qmin ?a ?b] => gen_min a b
         | _ : context [Qmax ?a ?b] |- _ => gen_max a b
         | _ : context [Qmin ?a ?b] |- _ => gen_min a b
         end.

Lemma Qle_bool_false (a b : Q) : Qle_bool a b = false -> b < a.
Proof.
  intros H. apply Qnot_le_lt. intros L.
  apply Qle_bool_iff in L. congruence.
Qed.

Lemma Qlt_bool_true (a b : Q) : Qlt_bool a b = true <-> a < b.
Proof.
  unfold Qlt_bool. split.
  - intros H. apply Qle_bool_false. now destruct (Qle_bool b a).
  - intros H. destruct (Qle_bool b a) eqn:E; [|reflexivity].
    apply Qle_bool_iff in E. lra.
Qed.

Lemma Qlt_bool_false (a b : Q) : Qlt_bool a b = false <-> b <= a.
Proof.
  unfold Qlt_bool. split.
  - intros H. apply Qle_bool_iff. now destruct (Qle_bool b a).
  - intros H. apply Qle_bool_iff in H. now rewrite H.
Qed.

Lemma Qeq_bool_false (a b : Q) : Qeq_bool a b = false -> ~ a == b.
Proof. intros H E. apply Qeq_bool_iff in E. congruence. Qed.

Lemma Qdiv_mult_cancel (a b : Q) : ~ b == 0 -> a / b * b == a.
Proof. intros. field. assumption. Qed.

(** ** The boundary solver *)

Lemma constrainPan_at_one (d : Dom) (tx ty s : Q) :
  s == 1 -> constrainPan (Some d) tx ty s = Point.mk 0 0.
Proof.
  intros E. unfold constrainPan.
  apply Qeq_bool_iff in E. now rewrite E.
Qed.

Lemma constrainPan_x (d : Dom) (tx ty s : Q) :
  0 < displayScale d -> ~ s == 1 ->
  axisSolved d (naturalWidth d) (DOMRect.width (rect d)) tx s
    (Point.x (constrainPan (Some d) tx ty s)).
Proof.
  intros Hds Hs. unfold constrainPan.
  destruct (Qeq_bool s 1) eqn:E; [apply Qeq_bool_iff in E; contradiction|].
  cbn [Point.x]. unfold axisSolved.
  set (W := DOMRect.width (rect d)). set (ds := displayScale d) in *.
  set (m := rulerMargin d). set (n := naturalWidth d).
  assert (C : (W - n * ds * s) / ds * ds == W - n * ds * s)
    by (apply Qdiv_mult_cancel; lra).
  destruct (Qle_bool (n * ds * s) W) eqn:L.
  - apply Qle_bool_iff in L. split; [|lra]. intros _.
    split; [reflexivity | field; lra].
  - apply Qle_bool_false in L. split; [lra|]. intros _.
    set (lo := (W - n * ds * s) / ds) in *.
    assert (lo < 0) by nra.
    minmax. repeat split; try lra; try nra.
Qed.

Lemma constrainPan_y (d : Dom) (tx ty s : Q) :
  0 < displayScale d -> ~ s == 1 ->
  axisSolved d (naturalHeight d) (DOMRect.height (rect d)) ty s
    (Point.y (constrainPan (Some d) tx ty s)).
Proof.
  intros Hds Hs. unfold constrainPan.
  destruct (Qeq_bool s 1) eqn:E; [apply Qeq_bool_iff in E; contradiction|].
  cbn [Point.y]. unfold axisSolved.
  set (H := DOMRect.height (rect d)). set (ds := displayScale d) in *.
  set (m := rulerMargin d). set (n := naturalHeight d).
  assert (C : (H - n * ds * s) / ds * ds == H - n * ds * s)
    by (apply Qdiv_mult_cancel; lra).
  destruct (Qle_bool (n * ds * s) H) eqn:L.
  - apply Qle_bool_iff in L. split; [|lra]. intros _.
    split; [reflexivity | field; lra].
  - apply Qle_bool_false in L. split; [lra|]. intros _.
    set (lo := (H - n * ds * s) / ds) in *.
    assert (lo < 0) by nra.
    minmax. repeat split; try lra; try nra.
Qed.

Lemma constrainPan_axes_independent (d : Dom) (tx ty tx' ty' s : Q) :
  Point.x (constrainPan (Some d) tx ty s) = Point.x (constrainPan (Some d) tx ty' s) /\
  Point.y (constrainPan (Some d) tx ty s) = Point.y (constrainPan (Some d) tx' ty s).
Proof.
  unfold constrainPan. destruct (Qeq_bool s 1); split; reflexivity.
Qed.

(** C3: the boundary solver [constrainPan].  At scale 1 it returns the
    translate (0, 0) whatever was requested.  At a scale above 1 each axis is
    solved on its own: when the scaled image footprint in display units is
    at most the container extent the result is the centring translate,
    otherwise the requested translate is clamped into the closed interval
    [(container - scaledSize) / displayFitScale - margin, - margin], and
    with a translate in that interval the image covers the container on that
    axis. *)
Theorem constrainPan_boundary_solver (d : Dom) (tx ty s : Q) :
  0 < displayScale d ->
  (s == 1 -> constrainPan (Some d) tx ty s = Point.mk 0 0) /\
  (1 < s ->
   axisSolved d (naturalWidth d) (DOMRect.width (rect d)) tx s
     (Point.x (constrainPan (Some d) tx ty s)) /\
   axisSolved d (naturalHeight d) (DOMRect.height (rect d)) ty s
     (Point.y (constrainPan (Some d) tx ty s)) /\
   (forall ty', Point.x (constrainPan (Some d) tx ty' s)
                = Point.x (constrainPan (Some d) tx ty s)) /\
   (forall tx', Point.y (constrainPan (Some d) tx' ty s)
                = Point.y (constrainPan (Some d) tx ty s))).
Proof.
  intros Hds. split.
  - apply constrainPan_at_one.
  - intros Hs. assert (~ s == 1) by lra.
    split; [now apply constrainPan_x|].
    split; [now apply constrainPan_y|].
    split.
    + intros ty'. apply (constrainPan_axes_independent d tx ty' tx ty s).
    + intros tx'. apply (constrainPan_axes_independent d tx' ty tx ty s).
Qed.

Lemma constrainPan_boundary_solver_witness :
  0 < displayScale sampleDom /\
  (2 == 1 -> constrainPan (Some sampleDom) 10 (-500) 2 = Point.mk 0 0) /\
  (1 < 2 ->
   axisSolved sampleDom 1000 560 10 2
     (Point.x (constrainPan (Some sampleDom) 10 (-500) 2)) /\
   axisSolved sampleDom 800 460 (-500) 2
     (Point.y (constrainPan (Some sampleDom) 10 (-500) 2)) /\
   (forall ty', Point.x (constrainPan (Some sampleDom) 10 ty' 2)
                = Point.x (constrainPan (Some sampleDom) 10 (-500) 2)) /\
   (forall tx', Point.y (constrainPan (Some sampleDom) tx' (-500) 2)
                = Point.y (constrainPan (Some sampleDom) 10 (-500) 2))).
Proof.
  split.
  - vm_compute. reflexivity.
  - apply (constrainPan_boundary_solver sampleDom 10 (-500) 2).
    vm_compute. reflexivity.
Defined.


(** ** Scale bounds *)

Lemma clamp_zoom_finite (e : Ext.t) (v : Q) :
  Ext.finite (Ext.max (Ext.Fin 1.2) (Ext.min e (Ext.Fin 6))) = Some v ->
  1.2 <= v /\ v <= 6.
Proof.
  destruct e as [|q|]; cbn; intros H; injection H as <-.
  - lra.
  - minmax. lra.
  - minmax. lra.
Qed.

(** Peel the nested matches of a hypothesis [autoZoom d boxes = Some z]. *)
Ltac peel H :=
  repeat match type of H with
         | context [match ?x with _ => _ end] =>
             destruct x eqn:?; try discriminate H
         end.

Lemma autoZoom_scale_bounds (d : Dom) (boxes : list BoundingBox) (z : AutoZoom) :
  autoZoom d boxes = Some z -> 1.2 <= newScale z /\ newScale z <= 6.
Proof.
  unfold autoZoom. intros H. peel H.
  injection H as <-. cbn [newScale].
  eapply clamp_zoom_finite; eassumption.
Qed.

Lemma clamp_zoom_JS (x : JSNum.t) (v : Q) :
  JSNum.finite (JSNum.max (JSNum.Fin 1.2) (JSNum.min x (JSNum.Fin 6))) = Some v ->
  1.2 <= v /\ v <= 6.
Proof.
  destruct x as [| |q|]; cbn; intros H; try discriminate H;
    injection H as <-; minmax; lra.
Qed.

Lemma autoZoomJS_scale (d : Dom) (boxes : list BoundingBox) (v : Q) :
  JSNum.finite (scaleArg (autoZoomJS d boxes)) = Some v -> 1.2 <= v /\ v <= 6.
Proof. unfold autoZoomJS. cbv zeta. cbn [scaleArg]. apply clamp_zoom_JS. Qed.

Lemma autoZoomEffect_scale (refs : option Dom) (props : Props)
    (st st' : PanelState) :
  autoZoomEffect refs props st = Some st' ->
  scaleInBounds st -> scaleInBounds st'.
Proof.
  unfold autoZoomEffect, autoZoomWrites, scaleInBounds. intros H I.
  destruct refs as [d|]; [|now injection H as <-].
  destruct (negb (imageLoaded st) || _)%bool; [now injection H as <-|].
  destruct (truthy (maskUrl props)).
  - injection H as <-. cbn. lra.
  - destruct (JSNum.finite (scaleArg (autoZoomJS d (boundingBoxes props))))
      as [v|] eqn:V; [|discriminate].
    destruct (JSNum.finite (translateXArg _)); [|discriminate].
    destruct (JSNum.finite (translateYArg _)); [|discriminate].
    injection H as <-. cbn. apply autoZoomJS_scale in V. lra.
Qed.

Lemma handleWheel_scale (refs : option Dom) (e : WheelEvent) (st : PanelState) :
  scaleInBounds st -> scaleInBounds (handleWheel refs e st).
Proof.
  unfold handleWheel, scaleInBounds. intros I.
  destruct refs as [d|]; [|assumption].
  cbn. minmax. lra.
Qed.

Lemma zoomIn_scale (refs : option Dom) (st : PanelState) :
  scaleInBounds st -> scaleInBounds (zoomIn refs st).
Proof.
  unfold zoomIn, scaleInBounds. intros I. cbn. minmax. lra.
Qed.

Lemma zoomOut_scale (refs : option Dom) (st : PanelState) :
  scaleInBounds st -> scaleInBounds (zoomOut refs st).
Proof.
  unfold zoomOut, scaleInBounds. intros I. cbn.
  assert (E : scale st / 1.2 == scale st * (5 # 6)) by (field).
  minmax. lra.
Qed.

Section ScaleBounds.

Variable Math_sqrt : Q -> Q.

Lemma handleTouchMove_scale (refs : option Dom) (props : Props)
    (touches : list Touch) (st : PanelState) :
  scaleInBounds st ->
  scaleInBounds (handleTouchMove Math_sqrt refs props touches st).
Proof.
  unfold handleTouchMove, scaleInBounds. intros I.
  destruct refs as [d|]; [|assumption].
  destruct touches as [|t1 [|t2 [|t3 ts]]]; try assumption.
  - destruct (isDrawingRegion st), (regionStart st), (isRegionSelectMode props),
      (isPanning st); cbn; assumption.
  - destruct (Qlt_bool 0 (touchStartDistance st)); [|assumption].
    cbn. minmax. lra.
Qed.

Lemma step_scale (st st' : PanelState) (ev : Event) :
  step Math_sqrt st ev = Some st' -> scaleInBounds st -> scaleInBounds st'.
Proof.
  destruct ev; cbn [step]; intros H I;
    try (injection H as <-).
  - unfold scaleInBounds. cbn. lra.
  - eapply autoZoomEffect_scale; eassumption.
  - now apply handleWheel_scale.
  - unfold handleMouseDown. destruct refs; [|assumption].
    destruct (isRegionSelectMode props); [|assumption].
    cbn. assumption.
  - unfold handleMouseMove.
    destruct (isDrawingRegion st), (regionStart st), (isRegionSelectMode props),
      refs, (isPanning st); cbn; assumption.
  - unfold handleMouseUp.
    destruct (isDrawingRegion st), (currentRegion st) as [r|],
      (isRegionSelectMode props); try assumption.
    destruct (meaningfulSize r); assumption.
  - assumption.
  - now apply zoomIn_scale.
  - now apply zoomOut_scale.
  - unfold scaleInBounds. cbn. lra.
  - unfold handleTouchStart. destruct refs; [|assumption].
    destruct touches as [|t1 [|t2 [|t3 ts]]]; try assumption.
    destruct (isRegionSelectMode props); assumption.
  - now apply handleTouchMove_scale.
  - unfold handleTouchEnd.
    destruct touches as [|t1 [|t2 ts]]; try assumption.
    destruct (isDrawingRegion st), (currentRegion st) as [r|],
      (isRegionSelectMode props); try assumption.
    destruct (meaningfulSize r); assumption.
Qed.

Lemma run_scale (evs : list Event) :
  forall (st : PanelState) (trace : list PanelState),
    run Math_sqrt st evs = Some trace ->
    scaleInBounds st -> Forall scaleInBounds trace.
Proof.
  induction evs as [|ev evs IH]; cbn [run]; intros st trace H I.
  - injection H as <-. constructor.
  - destruct (step Math_sqrt st ev) as [st1|] eqn:S; [|discriminate].
    destruct (run Math_sqrt st1 evs) as [tr|] eqn:R; [|discriminate].
    injection H as <-.
    assert (scaleInBounds st1) by (eapply step_scale; eassumption).
    constructor; [assumption|]. eapply IH; eassumption.
Qed.

Lemma run_length (evs : list Event) :
  forall (st : PanelState) (trace : list PanelState),
    run Math_sqrt st evs = Some trace -> List.length trace = List.length evs.
Proof.
  induction evs as [|ev evs IH]; cbn [run]; intros st trace H.
  - now injection H as <-.
  - destruct (step Math_sqrt st ev) as [st1|]; [|discriminate].
    destruct (run Math_sqrt st1 evs) as [tr|] eqn:R; [|discriminate].
    injection H as <-. cbn. f_equal. now apply (IH st1).
Qed.

End ScaleBounds.

(** Starting from the initial transform state (scale 1), the scale
    satisfies 1 <= scale <= 10 after every update of a sequence of events
    (wheel zoom, pinch zoom, the zoom-in and zoom-out buttons, the auto-fit,
    and all the other handlers) as long as no auto-fit passes a number that
    is not finite to a setter; [scale_bounds_total] below gives the
    geometry under which none does. *)
Theorem scale_bounds_after_every_update (Math_sqrt : Q -> Q)
    (evs : list Event) (trace : list PanelState) :
  run Math_sqrt initialState evs = Some trace ->
  Forall scaleInBounds trace /\ List.length trace = List.length evs.
Proof.
  intros H. split.
  - apply (run_scale Math_sqrt evs initialState trace H).
    unfold scaleInBounds. cbn. lra.
  - apply (run_length Math_sqrt evs initialState trace H).
Qed.

Lemma scale_bounds_after_every_update_witness :
  run sqrtFloor initialState sampleEvents = Some sampleTrace /\
  Forall scaleInBounds sampleTrace /\
  List.length sampleTrace = List.length sampleEvents.
Proof.
  assert (R : run sqrtFloor initialState sampleEvents = Some sampleTrace)
    by (vm_compute; reflexivity).
  split; [exact R|].
  exact (scale_bounds_after_every_update sqrtFloor sampleEvents sampleTrace R).
Defined.

(** C1: the scale is meant to stay within [[1, 10]] after every update, the
    auto-fit included.  The effect clamps its scale into [[1.2, 6]], but
    [Math.max] and [Math.min] let [NaN] through: when the detections arrive
    while the canvas rectangle is 0 x 0, [displayScale] is 0, the padded
    display lengths are 0, [scaleX] and [scaleY] are 0/0, and the effect
    calls [setScale(NaN)] (and [setTranslateX(NaN)], [setTranslateY(NaN)]).
    [NaN] is neither at least 1 nor at most 10. *)
Theorem autoZoom_sets_NaN_scale :
  imageLoaded (imageOnLoad initialState) = true /\
  autoZoomWrites (Some collapsedDom) sampleProps (imageOnLoad initialState)
  = Some (mkWrites JSNum.NaN JSNum.NaN JSNum.NaN) /\
  JSNum.leb (JSNum.Fin 1) JSNum.NaN = false /\
  JSNum.leb JSNum.NaN (JSNum.Fin 10) = false /\
  run sqrtFloor initialState
    [EvImageLoad; EvAutoZoom (Some collapsedDom) sampleProps] = None.
Proof.
  split; [reflexivity|].
  split; [vm_compute; reflexivity|].
  split; [reflexivity|].
  split; [reflexivity|].
  vm_compute. reflexivity.
Qed.

(** ** Auto-zoom *)

Lemma boundsOfVertices_finite (cs : list (Q * Q)) :
  forall acc, finiteBounds acc -> finiteBounds (boundsOfVertices acc cs).
Proof.
  unfold boundsOfVertices.
  induction cs as [|[x y] cs IH]; intros acc F; cbn [fold_left]; [assumption|].
  apply IH. destruct F as (x0 & y0 & x1 & y1 & ->). cbn.
  now repeat eexists.
Qed.

Lemma boundsOfVertices_nonempty (cs : list (Q * Q)) :
  cs <> [] -> finiteBounds (boundsOfVertices initialBounds cs).
Proof.
  destruct cs as [|[x y] cs]; [congruence|]. intros _.
  unfold boundsOfVertices. cbn [fold_left].
  apply (boundsOfVertices_finite cs). cbn. now repeat eexists.
Qed.

Lemma boundsOfVertices_progress (cs : list (Q * Q)) (acc : Bounds) :
  acc = initialBounds \/ finiteBounds acc ->
  (boundsOfVertices acc cs = initialBounds /\ cs = [] /\ acc = initialBounds)
  \/ finiteBounds (boundsOfVertices acc cs).
Proof.
  intros [-> | F].
  - destruct cs as [|c cs].
    + left. now repeat split.
    + right. now apply boundsOfVertices_nonempty.
  - right. now apply boundsOfVertices_finite.
Qed.

Lemma fold_boxes_finite (boxes : list BoundingBox) :
  forall acc, finiteBounds acc ->
    finiteBounds
      (fold_left (fun b box => boundsOfVertices b (coordinates box)) boxes acc).
Proof.
  induction boxes as [|box boxes IH]; intros acc F; cbn [fold_left]; [assumption|].
  apply IH. now apply boundsOfVertices_finite.
Qed.

Lemma boundsOfBoxes_finite (boxes : list BoundingBox) :
  hasVertex boxes -> finiteBounds (boundsOfBoxes boxes).
Proof.
  unfold boundsOfBoxes. fold initialBounds.
  induction boxes as [|box boxes IH]; intros (b & I & N).
  - destruct I.
  - cbn [fold_left].
    destruct (boundsOfVertices_progress (coordinates box) initialBounds)
      as [(E & C & _) | F]; [now left | |].
    + rewrite E. apply IH. destruct I as [<- | I]; [contradiction|].
      now exists b.
    + now apply fold_boxes_finite.
Qed.

Lemma Ext_div_nonzero (a b : Q) :
  ~ b == 0 -> Ext.div a b = Some (Ext.Fin (a / b)).
Proof.
  intros N. unfold Ext.div.
  destruct (Qeq_bool b 0) eqn:E; [apply Qeq_bool_iff in E; contradiction|].
  reflexivity.
Qed.

Lemma Ext_div_defined (a b : Q) : 0 < a -> exists e, Ext.div a b = Some e.
Proof.
  intros P. unfold Ext.div.
  destruct (Qeq_bool b 0); [|now eexists].
  destruct (Qeq_bool a 0) eqn:E; [apply Qeq_bool_iff in E; lra|].
  destruct (Qlt_bool 0 a); now eexists.
Qed.

Lemma clamp_zoom_defined (e : Ext.t) :
  exists v, Ext.finite (Ext.max (Ext.Fin 1.2) (Ext.min e (Ext.Fin 6))) = Some v.
Proof. destruct e; cbn; now eexists. Qed.

Lemma Qmin_pos (a b : Q) : 0 < a -> 0 < b -> 0 < Qmin a b.
Proof. intros. minmax. lra. Qed.

Lemma Qdiv_pos (a b : Q) : 0 < a -> 0 < b -> 0 < a / b.
Proof. intros. apply Qlt_shift_div_l; lra. Qed.

Lemma autoZoom_solved (d : Dom) (boxes : list BoundingBox) (x0 y0 x1 y1 : Q) :
  boundsOfBoxes boxes
  = mkBounds (Ext.Fin x0) (Ext.Fin y0) (Ext.Fin x1) (Ext.Fin y1) ->
  positiveGeometry d ->
  let W := DOMRect.width (rect d) in
  let H := DOMRect.height (rect d) in
  let padding := Qmax (x1 - x0) (y1 - y0) * 1.2 in
  let pminX := Qmax 0 (x0 - padding) in
  let pminY := Qmax 0 (y0 - padding) in
  let pmaxX := Qmin (naturalWidth d) (x1 + padding) in
  let pmaxY := Qmin (naturalHeight d) (y1 + padding) in
  let ds := Qmin (W / naturalWidth d) (H / naturalHeight d) in
  exists z,
    autoZoom d boxes = Some z /\
    centerX z = (pminX + pmaxX) / 2 /\
    centerY z = (pminY + pmaxY) / 2 /\
    paddedWidth z = pmaxX - pminX /\
    paddedHeight z = pmaxY - pminY /\
    autoDisplayScale z = ds /\
    (~ paddedWidth z * ds == 0 -> ~ paddedHeight z * ds == 0 ->
     newScale z
     = Qmax 1.2
         (Qmin (Qmin (W * 0.45 / (paddedWidth z * ds))
                     (H * 0.45 / (paddedHeight z * ds))) 6)) /\
    newTranslateX z = W / 2 / ds - centerX z * newScale z /\
    newTranslateY z = H / 2 / ds - centerY z * newScale z.
Proof.
  intros Hb (PW & PH & RW & RH). intros W H padding pminX pminY pmaxX pmaxY ds.
  assert (Pds : 0 < ds)
    by (apply Qmin_pos; apply Qdiv_pos; assumption).
  change (0 < W) in RW. change (0 < H) in RH.
  unfold autoZoom. rewrite Hb. cbn [minX minY maxX maxY]. cbv zeta.
  unfold JSMath.min, JSMath.max.
  fold W H. fold padding. fold pminX pminY pmaxX pmaxY.
  rewrite (Ext_div_nonzero W (naturalWidth d)) by lra.
  rewrite (Ext_div_nonzero H (naturalHeight d)) by lra.
  fold ds.
  rewrite (Ext_div_nonzero (W / 2) ds) by lra.
  rewrite (Ext_div_nonzero (H / 2) ds) by lra.
  destruct (Ext_div_defined (W * 0.45) ((pmaxX - pminX) * ds)) as [sx Hsx];
    [lra|].
  destruct (Ext_div_defined (H * 0.45) ((pmaxY - pminY) * ds)) as [sy Hsy];
    [lra|].
  rewrite Hsx, Hsy.
  destruct (clamp_zoom_defined (Ext.min sx sy)) as [v Hv]. rewrite Hv.
  eexists. split; [reflexivity|]. cbn.
  repeat split.
  intros NX NY.
  rewrite Ext_div_nonzero in Hsx by assumption.
  rewrite Ext_div_nonzero in Hsy by assumption.
  injection Hsx as <-. injection Hsy as <-.
  cbn in Hv. now injection Hv as <-.
Qed.

Lemma boundsOfBoxes_nil_not_finite (x0 y0 x1 y1 : Q) :
  boundsOfBoxes []
  <> mkBounds (Ext.Fin x0) (Ext.Fin y0) (Ext.Fin x1) (Ext.Fin y1).
Proof. cbn. discriminate. Qed.

Lemma JSNum_div_Ext (a b : Q) (e : Ext.t) :
  Ext.div a b = Some e ->
  JSNum.div (JSNum.Fin a) (JSNum.Fin b) = JSNum.ofExt e.
Proof.
  unfold Ext.div, JSNum.div.
  destruct (Qeq_bool b 0);
    [destruct (Qeq_bool a 0); [discriminate | destruct (Qlt_bool 0 a)]|];
    intros [= <-]; reflexivity.
Qed.

Lemma JSNum_min_Ext (a b : Ext.t) :
  JSNum.min (JSNum.ofExt a) (JSNum.ofExt b) = JSNum.ofExt (Ext.min a b).
Proof. destruct a, b; reflexivity. Qed.

Lemma JSNum_max_Ext (a b : Ext.t) :
  JSNum.max (JSNum.ofExt a) (JSNum.ofExt b) = JSNum.ofExt (Ext.max a b).
Proof. destruct a, b; reflexivity. Qed.

Lemma JSNum_finite_Ext (e : Ext.t) (v : Q) :
  Ext.finite e = Some v -> JSNum.ofExt e = JSNum.Fin v.
Proof. destruct e; cbn; intros [= <-]; reflexivity. Qed.

Lemma JSNum_min_Ext_r (a : Ext.t) (q : Q) :
  JSNum.min (JSNum.ofExt a) (JSNum.Fin q) = JSNum.ofExt (Ext.min a (Ext.Fin q)).
Proof. destruct a; reflexivity. Qed.

Lemma JSNum_max_Ext_l (q : Q) (b : Ext.t) :
  JSNum.max (JSNum.Fin q) (JSNum.ofExt b) = JSNum.ofExt (Ext.max (Ext.Fin q) b).
Proof. destruct b; reflexivity. Qed.

Lemma JSNum_sub_Fin (a b : Q) :
  JSNum.sub (JSNum.Fin a) (JSNum.Fin b) = JSNum.Fin (a - b).
Proof. reflexivity. Qed.

Lemma JSNum_add_Fin (a b : Q) :
  JSNum.add (JSNum.Fin a) (JSNum.Fin b) = JSNum.Fin (a + b).
Proof. reflexivity. Qed.

Lemma JSNum_mul_Fin (a b : Q) :
  JSNum.mul (JSNum.Fin a) (JSNum.Fin b) = JSNum.Fin (a * b).
Proof. reflexivity. Qed.

Lemma JSNum_min_Fin (a b : Q) :
  JSNum.min (JSNum.Fin a) (JSNum.Fin b) = JSNum.Fin (JSMath.min a b).
Proof. reflexivity. Qed.

Lemma JSNum_max_Fin (a b : Q) :
  JSNum.max (JSNum.Fin a) (JSNum.Fin b) = JSNum.Fin (JSMath.max a b).
Proof. reflexivity. Qed.

Lemma JSNum_half (a : Q) :
  JSNum.div (JSNum.Fin a) (JSNum.Fin 2) = JSNum.Fin (a / 2).
Proof. reflexivity. Qed.

(** Arithmetic on finite numbers stays finite. *)
Ltac jsnum :=
  repeat first
    [ rewrite JSNum_sub_Fin | rewrite JSNum_add_Fin | rewrite JSNum_mul_Fin
    | rewrite JSNum_min_Fin | rewrite JSNum_max_Fin | rewrite JSNum_half ].

(** Where [autoZoom] is defined, the effect passes its values to the
    setters. *)
Lemma autoZoom_JS (d : Dom) (boxes : list BoundingBox) (z : AutoZoom) :
  autoZoom d boxes = Some z ->
  autoZoomJS d boxes
  = mkWrites (JSNum.Fin (newScale z)) (JSNum.Fin (newTranslateX z))
      (JSNum.Fin (newTranslateY z)).
Proof.
  unfold autoZoom, autoZoomJS. cbv zeta.
  destruct (minX (boundsOfBoxes boxes)) as [|x0|]; try (intros K; discriminate K).
  destruct (minY (boundsOfBoxes boxes)) as [|y0|]; try (intros K; discriminate K).
  destruct (maxX (boundsOfBoxes boxes)) as [|x1|]; try (intros K; discriminate K).
  destruct (maxY (boundsOfBoxes boxes)) as [|y1|]; try (intros K; discriminate K).
  cbn [JSNum.ofExt]. jsnum.
  destruct (Ext.div (DOMRect.width (rect d)) (naturalWidth d))
    as [[|sw|]|] eqn:E1; try (intros K; discriminate K).
  destruct (Ext.div (DOMRect.height (rect d)) (naturalHeight d))
    as [[|sh|]|] eqn:E2; try (intros K; discriminate K).
  rewrite (JSNum_div_Ext _ _ _ E1), (JSNum_div_Ext _ _ _ E2).
  cbn [JSNum.ofExt]. jsnum.
  match goal with
  | |- context [Ext.div (DOMRect.width (rect d) * 0.45) ?p] =>
      destruct (Ext.div (DOMRect.width (rect d) * 0.45) p) as [sx|] eqn:E3;
      [rewrite (JSNum_div_Ext _ _ _ E3) | intros K; discriminate K]
  end.
  match goal with
  | |- context [Ext.div (DOMRect.height (rect d) * 0.45) ?p] =>
      destruct (Ext.div (DOMRect.height (rect d) * 0.45) p) as [sy|] eqn:E4;
      [rewrite (JSNum_div_Ext _ _ _ E4) | intros K; discriminate K]
  end.
  destruct (Ext.div (DOMRect.width (rect d) / 2) (JSMath.min sw sh))
    as [[|halfW|]|] eqn:E5; try (intros K; discriminate K).
  destruct (Ext.div (DOMRect.height (rect d) / 2) (JSMath.min sw sh))
    as [[|halfH|]|] eqn:E6; try (intros K; discriminate K).
  rewrite (JSNum_div_Ext _ _ _ E5), (JSNum_div_Ext _ _ _ E6).
  rewrite JSNum_min_Ext, JSNum_min_Ext_r, JSNum_max_Ext_l.
  destruct (Ext.finite
              (Ext.max (Ext.Fin 1.2) (Ext.min (Ext.min sx sy) (Ext.Fin 6))))
    as [v|] eqn:E7; [|intros K; discriminate K].
  rewrite (JSNum_finite_Ext _ _ E7). cbn [JSNum.ofExt].
  jsnum. intros [= <-]. reflexivity.
Qed.

Lemma autoZoomEffect_of_autoZoom (d : Dom) (props : Props) (st : PanelState)
    (z : AutoZoom) :
  imageLoaded st = true ->
  boundingBoxes props <> [] ->
  truthy (maskUrl props) = false ->
  autoZoom d (boundingBoxes props) = Some z ->
  autoZoomEffect (Some d) props st
  = Some (setTranslateY (newTranslateY z)
            (setTranslateX (newTranslateX z) (setScale (newScale z) st))).
Proof.
  intros L N M Z. unfold autoZoomEffect, autoZoomWrites.
  rewrite L, M, (autoZoom_JS _ _ _ Z).
  destruct (boundingBoxes props); [congruence | reflexivity].
Qed.


(** ** Coordinate round trip *)

(** C7 (amended): for every image point p and every valid transform state,
    the composite the render effect draws with,
    imageToClient(p) = (p * scale + translate + margin) * displayFitScale
    measured from the origin of the canvas rectangle (the margin is added
    after scaling, it is not scaled), followed by clientToImage
    ([mouseToImageCoords]) returns p. *)
Theorem clientToImage_imageToClient (d : Dom) (st : PanelState) (p : Point.t) :
  ~ displayScale d == 0 ->
  scaleInBounds st ->
  exists q,
    mouseToImageCoords (Some d) st (imageToClient d st p) = Some q /\
    Point.x q == Point.x p /\ Point.y q == Point.y p.
Proof.
  intros Hds [Hs _]. unfold mouseToImageCoords, imageToClient, imageToCanvas.
  eexists. split; [reflexivity|]. cbn.
  split; field; split; lra.
Qed.

Lemma clientToImage_imageToClient_witness :
  exists q,
    mouseToImageCoords (Some sampleDom) afterAutoFit
      (imageToClient sampleDom afterAutoFit (Point.mk 200 200)) = Some q /\
    Point.x q == 200 /\ Point.y q == 200.
Proof.
  apply (clientToImage_imageToClient sampleDom afterAutoFit (Point.mk 200 200)).
  - vm_compute. discriminate.
  - unfold scaleInBounds. vm_compute. split; discriminate.
Defined.

(** With the composite as the specification writes it,
    ((p + margin) * scale + translate) * displayFitScale, the round trip
    misses p by margin * (1 - 1 / scale). *)
Lemma clientToImage_imageToClient_spec (d : Dom) (st : PanelState) (p : Point.t) :
  ~ displayScale d == 0 ->
  scaleInBounds st ->
  DOMRect.left (rect d) == 0 -> DOMRect.top (rect d) == 0 ->
  Point.x (clientToImage d st (imageToClient_spec d st p))
  == Point.x p + rulerMargin d * (1 - / scale st) /\
  Point.y (clientToImage d st (imageToClient_spec d st p))
  == Point.y p + rulerMargin d * (1 - / scale st).
Proof.
  intros Hds [Hs _] L T.
  unfold clientToImage, mouseToImageCoords, imageToClient_spec. cbn.
  rewrite L, T. split; field; split; lra.
Qed.

(** C7, as stated, fails: at scale 2 and translate (0, 0) in the sample
    viewport (margin 60, canvas rectangle at the client origin), the
    specification's composite sends the image point (0, 0) to the client
    point (60, 60), which [mouseToImageCoords] maps to (30, 30). *)
Lemma clientToImage_imageToClient_counterexample :
  scaleInBounds (setScale 2 initialState) /\
  ~ (Point.x (clientToImage sampleDom (setScale 2 initialState)
                (imageToClient_spec sampleDom (setScale 2 initialState)
                   (Point.mk 0 0)))
     == 0) /\
  Point.x (clientToImage sampleDom (setScale 2 initialState)
             (imageToClient_spec sampleDom (setScale 2 initialState)
                (Point.mk 0 0)))
  == 30.
Proof.
  split; [unfold scaleInBounds; vm_compute; split; discriminate|].
  split.
  - intros X. vm_compute in X. discriminate.
  - vm_compute. reflexivity.
Qed.

(** ** Focal zoom *)

Lemma focal_axis (pointerRS translate scale scale' : Q) :
  ~ scale == 0 -> ~ scale' == 0 ->
  (pointerRS - focalTranslate pointerRS translate scale scale') / scale'
  == (pointerRS - translate) / scale.
Proof. intros. unfold focalTranslate. field. split; assumption. Qed.

Lemma clampScale_bounds (v : Q) : 1 <= clampScale v /\ clampScale v <= 10.
Proof. unfold clampScale. minmax. lra. Qed.

Lemma focalZoom_intro (d : Dom) (st st' : PanelState) (c : MouseEvent)
    (scale' : Q) :
  scaleInBounds st -> 1 <= scale' ->
  scale st' = scale' ->
  translateX st'
  = Point.x (constrainPan (Some d)
               (focalTranslate (Point.x (clientToCanvas d c)) (translateX st)
                  (scale st) scale')
               (focalTranslate (Point.y (clientToCanvas d c)) (translateY st)
                  (scale st) scale') scale') ->
  translateY st'
  = Point.y (constrainPan (Some d)
               (focalTranslate (Point.x (clientToCanvas d c)) (translateX st)
                  (scale st) scale')
               (focalTranslate (Point.y (clientToCanvas d c)) (translateY st)
                  (scale st) scale') scale') ->
  focalZoom d st st' c scale'.
Proof.
  intros [Hs _] Hs' Es Ex Ey. unfold focalZoom. cbv zeta.
  rewrite <- Ex, <- Ey, Es.
  split; [reflexivity|]. split; [reflexivity|]. split; [reflexivity|].
  unfold clientToImage, mouseToImageCoords. cbn [Point.x Point.y].
  rewrite Es.
  split; intros ->; apply focal_axis; lra.
Qed.

(** C2 (amended): a wheel zoom sets the scale to
    clamp(scale * (1.1 if deltaY < 0 else 0.9), 1, 10) and a pinch zoom to
    clamp(touchStartScale * distance / touchStartDistance, 1, 10); in both
    the new translate is pointerRS - (pointerRS - translate) * (scale' / scale)
    passed through the boundary solver, and on each axis where the boundary
    solver returns that focal translate unchanged the image-space point under
    the pointer (the touch midpoint for a pinch) is the same before and after
    the zoom. *)
Theorem zoom_focal (Math_sqrt : Q -> Q) (d : Dom) (e : WheelEvent)
    (props : Props) (t1 t2 : Touch) (st : PanelState) :
  ~ displayScale d == 0 ->
  scaleInBounds st ->
  (deltaY e < 0 ->
   focalZoom d st (handleWheel (Some d) e st) (pointer e)
     (clampScale (scale st * 1.1))) /\
  (~ deltaY e < 0 ->
   focalZoom d st (handleWheel (Some d) e st) (pointer e)
     (clampScale (scale st * 0.9))) /\
  (0 < touchStartDistance st ->
   focalZoom d st (handleTouchMove Math_sqrt (Some d) props [t1; t2] st)
     (mkMouseEvent ((clientX t1 + clientX t2) / 2) ((clientY t1 + clientY t2) / 2))
     (clampScale
        (touchStartScale st
         * (getTouchDistance Math_sqrt [t1; t2] / touchStartDistance st)))).
Proof.
  intros Hds I. split; [|split].
  - intros D. apply focalZoom_intro; try assumption.
    + apply clampScale_bounds.
    + unfold handleWheel. apply Qlt_bool_true in D. rewrite D. reflexivity.
    + unfold handleWheel. apply Qlt_bool_true in D. rewrite D. reflexivity.
    + unfold handleWheel. apply Qlt_bool_true in D. rewrite D. reflexivity.
  - intros D. assert (F : Qlt_bool (deltaY e) 0 = false).
    { apply Qlt_bool_false. lra. }
    apply focalZoom_intro; try assumption.
    + apply clampScale_bounds.
    + unfold handleWheel. rewrite F. reflexivity.
    + unfold handleWheel. rewrite F. reflexivity.
    + unfold handleWheel. rewrite F. reflexivity.
  - intros D. apply Qlt_bool_true in D.
    apply focalZoom_intro; try assumption.
    + apply clampScale_bounds.
    + unfold handleTouchMove. rewrite D. reflexivity.
    + unfold handleTouchMove. rewrite D. reflexivity.
    + unfold handleTouchMove. rewrite D. reflexivity.
Qed.

Lemma zoom_focal_witness :
  (* the wheel, at the client point (200, 150): scale 2 to 2.2 *)
  (scale (handleWheel (Some sampleDom) zoomedWheel zoomedPinch) == 2.2 /\
   translateX (handleWheel (Some sampleDom) zoomedWheel zoomedPinch) == - 584 /\
   translateY (handleWheel (Some sampleDom) zoomedWheel zoomedPinch) == - 464 /\
   Point.x (clientToImage sampleDom zoomedPinch (pointer zoomedWheel)) == 420 /\
   Point.y (clientToImage sampleDom zoomedPinch (pointer zoomedWheel)) == 320 /\
   Point.x (clientToImage sampleDom
              (handleWheel (Some sampleDom) zoomedWheel zoomedPinch)
              (pointer zoomedWheel))
   == Point.x (clientToImage sampleDom zoomedPinch (pointer zoomedWheel)) /\
   Point.y (clientToImage sampleDom
              (handleWheel (Some sampleDom) zoomedWheel zoomedPinch)
              (pointer zoomedWheel))
   == Point.y (clientToImage sampleDom zoomedPinch (pointer zoomedWheel))) /\
  (* the pinch, fingers from 100 to 110 pixels apart about (280, 230) *)
  (scale (handleTouchMove sqrtFloor (Some sampleDom) sampleProps
            [mkMouseEvent 225 230; mkMouseEvent 335 230] zoomedPinch) == 2.2 /\
   Point.x (clientToImage sampleDom zoomedPinch (mkMouseEvent 280 230)) == 500 /\
   Point.x (clientToImage sampleDom
              (handleTouchMove sqrtFloor (Some sampleDom) sampleProps
                 [mkMouseEvent 225 230; mkMouseEvent 335 230] zoomedPinch)
              (mkMouseEvent ((225 + 335) / 2) ((230 + 230) / 2)))
   == Point.x (clientToImage sampleDom zoomedPinch
                 (mkMouseEvent ((225 + 335) / 2) ((230 + 230) / 2))) /\
   Point.y (clientToImage sampleDom
              (handleTouchMove sqrtFloor (Some sampleDom) sampleProps
                 [mkMouseEvent 225 230; mkMouseEvent 335 230] zoomedPinch)
              (mkMouseEvent ((225 + 335) / 2) ((230 + 230) / 2)))
   == Point.y (clientToImage sampleDom zoomedPinch
                 (mkMouseEvent ((225 + 335) / 2) ((230 + 230) / 2)))).
Proof.
  assert (Hds : ~ displayScale sampleDom == 0) by (vm_compute; discriminate).
  assert (I : scaleInBounds zoomedPinch)
    by (unfold scaleInBounds; vm_compute; split; discriminate).
  assert (D : deltaY zoomedWheel < 0) by (vm_compute; reflexivity).
  assert (T : 0 < touchStartDistance zoomedPinch) by (vm_compute; reflexivity).
  pose proof (zoom_focal sqrtFloor sampleDom zoomedWheel sampleProps
                (mkMouseEvent 225 230) (mkMouseEvent 335 230) zoomedPinch Hds I)
    as (W & _ & P).
  destruct (W D) as (_ & _ & _ & Wx & Wy).
  destruct (P T) as (_ & _ & _ & Px & Py).
  split.
  - split; [vm_compute; reflexivity|].
    split; [vm_compute; reflexivity|].
    split; [vm_compute; reflexivity|].
    split; [vm_compute; reflexivity|].
    split; [vm_compute; reflexivity|].
    split; [apply Wx | apply Wy]; vm_compute; reflexivity.
  - split; [vm_compute; reflexivity|].
    split; [vm_compute; reflexivity|].
    split; [apply Px | apply Py]; vm_compute; reflexivity.
Defined.

(** C2, as stated, fails where the boundary solver moves the focal
    translate: in the sample viewport at scale 1, a wheel notch at the client
    point (140, 140) zooms to scale 1.1, at which the image is narrower than
    the rectangle and is centred by the solver; the image point under the
    pointer goes from x = 220 to x = 245 5/11. *)
Lemma zoom_focal_counterexample :
  Point.x (clientToImage sampleDom (imageOnLoad initialState) (pointer sampleWheel))
  == 220 /\
  Point.x (clientToImage sampleDom
             (handleWheel (Some sampleDom) sampleWheel (imageOnLoad initialState))
             (pointer sampleWheel))
  == 2700 # 11 /\
  ~ Point.x (clientToImage sampleDom
               (handleWheel (Some sampleDom) sampleWheel (imageOnLoad initialState))
               (pointer sampleWheel))
    == Point.x (clientToImage sampleDom (imageOnLoad initialState)
                  (pointer sampleWheel)).
Proof.
  split; [vm_compute; reflexivity|].
  split; [vm_compute; reflexivity|].
  intros X. vm_compute in X. discriminate.
Qed.

(** ** Region drawing *)

(** The rectangle [handleMouseMove] and [handleTouchMove] compute from the
    anchor and the current point. *)
Lemma handleMouseMove_region (d : Dom) (props : Props) (e : MouseEvent)
    (st : PanelState) (anchor : Point.t) :
  isDrawingRegion st = true -> regionStart st = Some anchor ->
  isRegionSelectMode props = true ->
  currentRegion (handleMouseMove (Some d) props e st)
  = let cur := clientToImage d st e in
    let x := Qmax 0 (Qmin (Point.x anchor) (Point.x cur)) in
    let y := Qmax 0 (Qmin (Point.y anchor) (Point.y cur)) in
    Some (RegionSelection.mk x y
            (Qmin (naturalWidth d - x) (Qabs (Point.x cur - Point.x anchor)))
            (Qmin (naturalHeight d - y) (Qabs (Point.y cur - Point.y anchor)))).
Proof.
  intros D A M. unfold handleMouseMove. rewrite D, A, M. reflexivity.
Qed.

Lemma handleTouchMove_region (Math_sqrt : Q -> Q) (d : Dom) (props : Props)
    (touch : Touch) (st : PanelState) (anchor : Point.t) :
  isDrawingRegion st = true -> regionStart st = Some anchor ->
  isRegionSelectMode props = true ->
  handleTouchMove Math_sqrt (Some d) props [touch] st
  = handleMouseMove (Some d) props touch st.
Proof.
  intros D A M. unfold handleTouchMove, handleMouseMove.
  rewrite D, A, M. reflexivity.
Qed.

(** Where the drag stays to the right of and below the image origin and
    starts inside the image, the rectangle is the clipped one. *)
Lemma drag_axis_clipped (bound a c : Q) :
  0 <= Qmin a c -> Qmin a c <= bound ->
  Qmax 0 (Qmin a c) == clipTo bound (Qmin a c) /\
  Qmin (bound - Qmax 0 (Qmin a c)) (Qabs (c - a))
  == clipTo bound (Qmin a c + Qabs (c - a)) - clipTo bound (Qmin a c).
Proof.
  intros L U. unfold clipTo, JSMath.max, JSMath.min.
  assert (A : Qabs (c - a) == Qmax (c - a) (a - c)).
  { apply Qabs_case; intros; pose proof (Q.max_spec (c - a) (a - c)); lra. }
  rewrite !A. clear A. minmax. split; lra.
Qed.

Lemma handleMouseMove_region_clipped (d : Dom) (props : Props) (e : MouseEvent)
    (st : PanelState) (anchor : Point.t) (r : RegionSelection.t) :
  isDrawingRegion st = true -> regionStart st = Some anchor ->
  isRegionSelectMode props = true ->
  0 <= Qmin (Point.x anchor) (Point.x (clientToImage d st e))
       <= naturalWidth d ->
  0 <= Qmin (Point.y anchor) (Point.y (clientToImage d st e))
       <= naturalHeight d ->
  currentRegion (handleMouseMove (Some d) props e st) = Some r ->
  sameRegion r
    (clippedDragRegion (naturalWidth d) (naturalHeight d) anchor
       (clientToImage d st e)).
Proof.
  intros D A M [Lx Ux] [Ly Uy].
  rewrite (handleMouseMove_region d props e st anchor D A M). cbv zeta.
  intros R. injection R as <-.
  destruct (drag_axis_clipped (naturalWidth d) _ _ Lx Ux) as [X W].
  destruct (drag_axis_clipped (naturalHeight d) _ _ Ly Uy) as [Y H].
  unfold sameRegion, clippedDragRegion. cbn.
  repeat split; assumption.
Qed.

(** The scenario of the specification: a reverse drag from the image point
    (50, 50) to (40, 30), that is, in the sample viewport at scale 1, from
    the client point (55, 55) to (50, 45). *)
Example reverse_drag :
  exists r,
    dragCandidate (Some sampleDom) regionProps (mkMouseEvent 55 55)
      (mkMouseEvent 50 45) (imageOnLoad initialState) = Some r /\
    sameRegion r (RegionSelection.mk 40 30 10 20).
Proof.
  eexists. split; [vm_compute; reflexivity|].
  unfold sameRegion. cbn. repeat split; reflexivity.
Qed.

(** C5: the candidate rectangle of a region drag is meant to be the
    rectangle spanned by the anchor and the pointer, clipped to the image
    bounds.  A drag that leaves the image to the left is not clipped: in the
    sample viewport at scale 1, pressing at the client point (45, 45) (image
    point (30, 30)) and moving to (20, 95) (image point (-20, 130), over the
    ruler margin) gives the rectangle {x: 0, y: 30, width: 50, height: 100},
    which reaches 20 pixels beyond the anchor, where the clipped rectangle is
    {x: 0, y: 30, width: 30, height: 100}. *)
Theorem region_drag_past_left_edge :
  exists r,
    dragCandidate (Some sampleDom) regionProps (mkMouseEvent 45 45)
      (mkMouseEvent 20 95) (imageOnLoad initialState) = Some r /\
    sameRegion r (RegionSelection.mk 0 30 50 100) /\
    sameRegion
      (clippedDragRegion 1000 800 (Point.mk 30 30) (Point.mk (-20) 130))
      (RegionSelection.mk 0 30 30 100) /\
    ~ sameRegion r
        (clippedDragRegion 1000 800 (Point.mk 30 30) (Point.mk (-20) 130)).
Proof.
  eexists. split; [vm_compute; reflexivity|].
  split; [unfold sameRegion; cbn; repeat split; reflexivity|].
  split; [unfold sameRegion; cbn; repeat split; reflexivity|].
  intros (_ & _ & W & _). vm_compute in W. discriminate.
Qed.

(** ** Committing or discarding the region on release *)

Lemma meaningfulSize_iff (r : RegionSelection.t) :
  meaningfulSize r = true
  <-> 10 <= RegionSelection.width r /\ 10 <= RegionSelection.height r.
Proof.
  unfold meaningfulSize. rewrite andb_true_iff, !Qle_bool_iff. reflexivity.
Qed.

Lemma meaningfulSize_false (r : RegionSelection.t) :
  meaningfulSize r = false
  <-> RegionSelection.width r < 10 \/ RegionSelection.height r < 10.
Proof.
  unfold meaningfulSize. rewrite andb_false_iff. split.
  - intros [H | H]; apply Qle_bool_false in H; [now left | now right].
  - intros [H | H]; [left | right];
      (destruct (Qle_bool 10 _) eqn:E; [apply Qle_bool_iff in E; lra | reflexivity]).
Qed.

(** A release of the mouse or of the last finger ends the region draw in the
    same way. *)
Lemma handleTouchEnd_region (props : Props) (st : PanelState)
    (r : RegionSelection.t) :
  isDrawingRegion st = true -> currentRegion st = Some r ->
  isRegionSelectMode props = true ->
  snd (handleTouchEnd props [] st) = snd (handleMouseUp props st) /\
  currentRegion (fst (handleTouchEnd props [] st))
  = currentRegion (fst (handleMouseUp props st)) /\
  isDrawingRegion (fst (handleTouchEnd props [] st)) = false /\
  isDrawingRegion (fst (handleMouseUp props st)) = false.
Proof.
  intros D C M. unfold handleTouchEnd, handleMouseUp. rewrite D, C, M.
  destruct (meaningfulSize r); cbn; repeat split.
Qed.

Lemma handleMouseUp_region (props : Props) (st : PanelState)
    (r : RegionSelection.t) :
  isDrawingRegion st = true -> currentRegion st = Some r ->
  isRegionSelectMode props = true -> onRegionSelect props = true ->
  (meaningfulSize r = true ->
   snd (handleMouseUp props st) = [CallRegionSelect (Some r)] /\
   currentRegion (fst (handleMouseUp props st)) = Some r) /\
  (meaningfulSize r = false ->
   snd (handleMouseUp props st) = [] /\
   currentRegion (fst (handleMouseUp props st)) = None).
Proof.
  intros D C M O. unfold handleMouseUp. rewrite D, C, M, O.
  split; intros ->; cbn; split; (reflexivity || assumption).
Qed.

(** C6: on the release that ends a region draw (mouse up, mouse leave, or
    the last finger lifted) the candidate rectangle is committed, that is
    [onRegionSelect] is called with it, exactly when its width and its height
    are both at least 10 image pixels; otherwise it is discarded: no call is
    made, the candidate is dropped, and the selection of the parent page,
    null since the press that started the draw, stays null.  A 15 x 15
    rectangle is committed. *)
Theorem region_commit_iff (props : Props) (st : PanelState)
    (r : RegionSelection.t) (page : Page.t) :
  isDrawingRegion st = true ->
  currentRegion st = Some r ->
  isRegionSelectMode props = true ->
  onRegionSelect props = true ->
  Page.regionSelection page = None ->
  let committed (out : PanelState * list Call) :=
    snd out = [CallRegionSelect (Some r)] /\
    currentRegion (fst out) = Some r /\
    Page.regionSelection (Page.receiveAll page (snd out)) = Some r in
  let discarded (out : PanelState * list Call) :=
    snd out = [] /\
    currentRegion (fst out) = None /\
    Page.regionSelection (Page.receiveAll page (snd out)) = None in
  (10 <= RegionSelection.width r /\ 10 <= RegionSelection.height r ->
   committed (handleMouseUp props st) /\ committed (handleTouchEnd props [] st)) /\
  (RegionSelection.width r < 10 \/ RegionSelection.height r < 10 ->
   discarded (handleMouseUp props st) /\ discarded (handleTouchEnd props [] st)) /\
  (In (CallRegionSelect (Some r)) (snd (handleMouseUp props st))
   <-> 10 <= RegionSelection.width r /\ 10 <= RegionSelection.height r) /\
  (In (CallRegionSelect (Some r)) (snd (handleTouchEnd props [] st))
   <-> 10 <= RegionSelection.width r /\ 10 <= RegionSelection.height r) /\
  (RegionSelection.width r == 15 -> RegionSelection.height r == 15 ->
   committed (handleMouseUp props st) /\ committed (handleTouchEnd props [] st)).
Proof.
  intros D C M O P committed discarded.
  destruct (handleTouchEnd_region props st r D C M) as (Ts & Tc & _).
  destruct (handleMouseUp_region props st r D C M O) as (Big & Small).
  assert (Commit : meaningfulSize r = true ->
            committed (handleMouseUp props st)
            /\ committed (handleTouchEnd props [] st)).
  { intros S. destruct (Big S) as (Ec & Er). unfold committed.
    rewrite Ts, Tc, Ec, Er. cbn. repeat split. }
  assert (Discard : meaningfulSize r = false ->
            discarded (handleMouseUp props st)
            /\ discarded (handleTouchEnd props [] st)).
  { intros S. destruct (Small S) as (Ec & Er). unfold discarded.
    rewrite Ts, Tc, Ec, Er. cbn. repeat split; assumption. }
  assert (Iff : In (CallRegionSelect (Some r)) (snd (handleMouseUp props st))
                <-> 10 <= RegionSelection.width r
                    /\ 10 <= RegionSelection.height r).
  { rewrite <- meaningfulSize_iff. destruct (meaningfulSize r) eqn:S.
    - destruct (Big eq_refl) as (-> & _). cbn. intuition.
    - destruct (Small eq_refl) as (-> & _). cbn. intuition discriminate. }
  split; [intros S; apply Commit, meaningfulSize_iff, S|].
  split; [intros S; apply Discard, meaningfulSize_false, S|].
  split; [exact Iff|].
  split; [rewrite Ts; exact Iff|].
  intros W H. apply Commit, meaningfulSize_iff. rewrite W, H. split; discriminate.
Qed.

Lemma region_commit_iff_witness :
  sameRegion candidate15 (RegionSelection.mk 20 20 15 15) /\
  snd (handleMouseUp regionProps drawing15)
  = [CallRegionSelect (Some candidate15)] /\
  snd (handleTouchEnd regionProps [] drawing15)
  = [CallRegionSelect (Some candidate15)] /\
  Page.regionSelection
    (Page.receiveAll pageAfterPress (snd (handleMouseUp regionProps drawing15)))
  = Some candidate15.
Proof.
  assert (S : sameRegion candidate15 (RegionSelection.mk 20 20 15 15))
    by (unfold sameRegion; cbn; repeat split; reflexivity).
  split; [exact S|].
  destruct S as (_ & _ & W & H).
  pose proof (region_commit_iff regionProps drawing15 candidate15 pageAfterPress
                eq_refl eq_refl eq_refl eq_refl eq_refl)
    as (_ & _ & _ & _ & C).
  destruct (C W H) as ((A & _ & B) & (A' & _)).
  split; [exact A|]. split; [exact A'|]. exact B.
Defined.

(** The narrower draw is dropped on release, and nothing is selected. *)
Example region_discarded :
  exists r,
    currentRegion drawing9 = Some r /\
    sameRegion r (RegionSelection.mk 20 20 9 15) /\
    snd (handleMouseUp regionProps drawing9) = [] /\
    currentRegion (fst (handleMouseUp regionProps drawing9)) = None /\
    Page.regionSelection
      (Page.receiveAll pageAfterPress (snd (handleMouseUp regionProps drawing9)))
    = None.
Proof.
  eexists. split; [reflexivity|].
  split; [unfold sameRegion; cbn; repeat split; reflexivity|].
  repeat split.
Qed.

(** ** Selection blink *)

Lemma totalDuration_4000 : totalDuration == 4000.
Proof. reflexivity. Qed.

Lemma remove_single (h : positive) : List.remove Pos.eq_dec h [h] = [].
Proof. cbn. destruct (Pos.eq_dec h h); [reflexivity | contradiction]. Qed.

Section BlinkProperties.

Variable Math_sin : Q -> Q.
Variable props : Props.

Lemma blinkEffect_starts (now : Q) (w : World) :
  truthy (selectedObjectId props) = true ->
  pendingFrames (scheduler w) = [] ->
  blinkAlive (blinkEffect props now w) now /\
  panel (blinkEffect props now w) = panel w /\
  calls (blinkEffect props now w) = calls w.
Proof.
  intros T P. unfold blinkEffect, blinkAlive. rewrite T. cbn. rewrite P.
  split; [|split; reflexivity]. now eexists.
Qed.

Lemma frame_running (now start : Q) (w : World) :
  blinkAlive w start -> now - start < totalDuration ->
  blinkAlive (frame Math_sin props now w) start /\
  blinkOpacity (panel (frame Math_sin props now w))
  = blinkCurve Math_sin (now - start) /\
  calls (frame Math_sin props now w) = calls w.
Proof.
  intros (h & R & P) E. unfold frame. rewrite R. cbn [animationFrame].
  rewrite P. cbn [existsb]. rewrite Pos.eqb_refl. cbn [orb].
  unfold animate. cbn [startTime panel scheduler calls].
  destruct (Qle_bool totalDuration (now - start)) eqn:L.
  { apply Qle_bool_iff in L. lra. }
  unfold cancelAnimationFrame. rewrite P, remove_single. cbn.
  split; [|split; reflexivity]. unfold blinkAlive. cbn. now eexists.
Qed.

Lemma frame_completes (now start : Q) (w : World) :
  blinkAlive w start -> totalDuration <= now - start ->
  pendingFrames (scheduler (frame Math_sin props now w)) = [] /\
  blinkOpacity (panel (frame Math_sin props now w)) = 0.4 /\
  calls (frame Math_sin props now w)
  = calls w ++ (if onObjectSelect props then [CallObjectSelect None] else []).
Proof.
  intros (h & R & P) E. unfold frame. rewrite R. cbn [animationFrame].
  rewrite P. cbn [existsb]. rewrite Pos.eqb_refl. cbn [orb].
  unfold animate. cbn [startTime panel scheduler calls].
  apply Qle_bool_iff in E. rewrite E.
  unfold cancelAnimationFrame. rewrite P, remove_single. cbn.
  repeat split.
Qed.

Lemma frame_idle (now : Q) (w : World) :
  pendingFrames (scheduler w) = [] -> frame Math_sin props now w = w.
Proof.
  intros P. unfold frame. destruct (blinkRun w) as [run|]; [|reflexivity].
  destruct (animationFrame run); [|reflexivity]. now rewrite P.
Qed.

Lemma frames_idle (times : list Q) (w : World) :
  pendingFrames (scheduler w) = [] -> frames Math_sin props times w = w.
Proof.
  intros P. unfold frames. induction times as [|t times IH]; [reflexivity|].
  cbn [fold_left]. now rewrite frame_idle.
Qed.

Lemma frames_running (start : Q) (times : list Q) :
  forall w,
    blinkAlive w start ->
    Forall (fun now => now - start < totalDuration) times ->
    blinkAlive (frames Math_sin props times w) start /\
    calls (frames Math_sin props times w) = calls w.
Proof.
  unfold frames. induction times as [|t times IH]; intros w A F.
  - split; [assumption | reflexivity].
  - cbn [fold_left]. inversion F as [|? ? Ft Fr]; subst.
    destruct (frame_running t start w A Ft) as (A' & _ & C).
    destruct (IH _ A' Fr) as (A'' & C'').
    split; [assumption | congruence].
Qed.

Lemma frames_last (start : Q) (times : list Q) (now : Q) (w : World) :
  blinkAlive w start ->
  Forall (fun now => now - start < totalDuration) (times ++ [now]) ->
  blinkOpacity (panel (frames Math_sin props (times ++ [now]) w))
  = blinkCurve Math_sin (now - start).
Proof.
  intros A F. apply Forall_app in F as [Ft Fn].
  unfold frames. rewrite fold_left_app. cbn [fold_left].
  destruct (frames_running start times w A Ft) as (A' & _).
  inversion Fn; subst.
  now destruct (frame_running now start _ A') as (_ & O & _).
Qed.

Lemma blinkCleanup_cancels (start : Q) (w : World) :
  blinkAlive w start ->
  pendingFrames (scheduler (blinkCleanup w)) = [] /\
  blinkRun (blinkCleanup w) = None /\
  panel (blinkCleanup w) = panel w.
Proof.
  intros (h & R & P). unfold blinkCleanup. rewrite R. cbn.
  rewrite P, remove_single. repeat split.
Qed.

End BlinkProperties.

(** C8: the selection blink terminates by itself.  With an object selected
    at time [t0], every frame delivered less than 10 x 400 ms = 4000 ms
    later sets the opacity to 0.35 + 0.15 sin(elapsed / 400) and requests
    exactly one further frame; the first frame at which the elapsed time
    reaches 4000 ms resets the opacity to 0.4, calls [onObjectSelect(null)]
    (which clears [selectedObjectId] in the parent) and requests no frame, so
    that later frames change nothing.  The cleanup of the effect (run on a
    new selection or on unmount) cancels the pending frame: no frame stays
    queued and later frames change nothing, and a new selection then runs
    one loop of its own. *)
Theorem blink_self_terminating (Math_sin : Q -> Q) (props : Props)
    (page : Page.t) (t0 t : Q) (before after : list Q) (w : World) :
  truthy (selectedObjectId props) = true ->
  onObjectSelect props = true ->
  pendingFrames (scheduler w) = [] ->
  Forall (fun now => now - t0 < totalDuration) before ->
  totalDuration <= t - t0 ->
  let running := frames Math_sin props before (blinkEffect props t0 w) in
  let done := frame Math_sin props t running in
  totalDuration == 10 * 400 /\
  (* while the duration has not elapsed *)
  blinkAlive running t0 /\
  (forall earlier now, before = earlier ++ [now] ->
     blinkOpacity (panel running) = blinkCurve Math_sin (now - t0)) /\
  (* when it has *)
  pendingFrames (scheduler done) = [] /\
  blinkOpacity (panel done) = 0.4 /\
  calls done = calls w ++ [CallObjectSelect None] /\
  Page.selectedObjectId (Page.receiveAll page (calls done)) = None /\
  frames Math_sin props after done = done /\
  (* cancellation *)
  pendingFrames (scheduler (blinkCleanup running)) = [] /\
  frames Math_sin props after (blinkCleanup running) = blinkCleanup running /\
  (forall props' t',
     truthy (selectedObjectId props') = true ->
     blinkAlive (blinkEffect props' t' (blinkCleanup running)) t').
Proof.
  intros T O P F E running done.
  destruct (blinkEffect_starts props t0 w T P) as (A0 & _ & C0).
  destruct (frames_running Math_sin props t0 before _ A0 F) as (A & C).
  fold running in A, C.
  destruct (frame_completes Math_sin props t t0 running A E) as (Pd & Od & Cd).
  fold done in Pd, Od, Cd. rewrite O, C, C0 in Cd.
  destruct (blinkCleanup_cancels t0 running A) as (Pc & _ & _).
  split; [reflexivity|]. split; [exact A|].
  split.
  { intros earlier now ->. apply (frames_last Math_sin props t0); assumption. }
  split; [exact Pd|]. split; [exact Od|]. split; [exact Cd|].
  split.
  { rewrite Cd. unfold Page.receiveAll. rewrite fold_left_app. reflexivity. }
  split; [now apply frames_idle|].
  split; [exact Pc|].
  split; [now apply frames_idle|].
  intros props' t' T'. now apply blinkEffect_starts.
Qed.

Lemma blink_self_terminating_witness :
  blinkOpacity
    (panel (frames sinSeries selectedProps [16; 2000; 3999]
              (blinkEffect selectedProps 0 sampleWorld)))
  = blinkCurve sinSeries (3999 - 0) /\
  blinkOpacity
    (panel (frame sinSeries selectedProps 4016
              (frames sinSeries selectedProps [16; 2000; 3999]
                 (blinkEffect selectedProps 0 sampleWorld))))
  = 0.4 /\
  Page.selectedObjectId
    (Page.receiveAll (Page.mk None (Some "obj_1"%string))
       (calls (frame sinSeries selectedProps 4016
                 (frames sinSeries selectedProps [16; 2000; 3999]
                    (blinkEffect selectedProps 0 sampleWorld)))))
  = None /\
  frames sinSeries selectedProps [4032; 4048]
    (frame sinSeries selectedProps 4016
       (frames sinSeries selectedProps [16; 2000; 3999]
          (blinkEffect selectedProps 0 sampleWorld)))
  = frame sinSeries selectedProps 4016
      (frames sinSeries selectedProps [16; 2000; 3999]
         (blinkEffect selectedProps 0 sampleWorld)).
Proof.
  assert (F : Forall (fun now => now - 0 < totalDuration) [16; 2000; 3999])
    by (repeat constructor).
  assert (E : totalDuration <= 4016 - 0) by (vm_compute; discriminate).
  pose proof (blink_self_terminating sinSeries selectedProps
                (Page.mk None (Some "obj_1"%string)) 0 4016
                [16; 2000; 3999] [4032; 4048] sampleWorld
                eq_refl eq_refl eq_refl F E)
    as (_ & _ & Curve & _ & Reset & _ & Cleared & Idle & _).
  split; [exact (Curve [16; 2000] 3999 eq_refl)|].
  split; [exact Reset|]. split; [exact Cleared | exact Idle].
Defined.

(** ** Export *)

(** C9: the export does not depend on the live transform state.  Two states
    that differ in scale and translate (or in anything but [imageLoaded])
    export the same surface with the same drawing calls for the same image
    and detections; and whenever the image is loaded the export does yield
    a surface, of the natural size of the image, whose drawing calls are the
    image at (0, 0) followed by the boxes, in which neither scale nor
    translate occurs. *)
Theorem export_independent_of_transform (measureText : string -> Q)
    (refs : option Dom) (props : Props) (st1 st2 : PanelState) :
  imageLoaded st1 = imageLoaded st2 ->
  handleDownloadWithOverlays measureText refs props st1
  = handleDownloadWithOverlays measureText refs props st2 /\
  (forall scale' translateX' translateY',
     handleDownloadWithOverlays measureText refs props
       (setTranslateY translateY' (setTranslateX translateX' (setScale scale' st1)))
     = handleDownloadWithOverlays measureText refs props st1) /\
  (forall img,
     refs = Some img -> imageLoaded st1 = true ->
     exists canvas,
       handleDownloadWithOverlays measureText refs props st1 = Some canvas /\
       handleDownloadWithOverlays measureText refs props st2 = Some canvas /\
       export_width canvas = naturalWidth img /\
       export_height canvas = naturalHeight img /\
       ops canvas
       = DrawImage 0 0 :: exportBoxes measureText 0 (boundingBoxes props)) /\
  (forall img canvas,
     refs = Some img ->
     handleDownloadWithOverlays measureText refs props st1 = Some canvas ->
     export_width canvas = naturalWidth img /\
     export_height canvas = naturalHeight img).
Proof.
  intros L. unfold handleDownloadWithOverlays. split; [|split; [|split]].
  - destruct refs; [|reflexivity]. now rewrite L.
  - intros. destruct refs; reflexivity.
  - intros img -> T. rewrite <- L, T. cbn [negb].
    eexists. repeat split.
  - intros img canvas ->. destruct (negb (imageLoaded st1)); [discriminate|].
    intros C. injection C as <-. split; reflexivity.
Qed.

Lemma export_independent_of_transform_witness :
  ~ scale (imageOnLoad initialState) == scale zoomedView /\
  ~ translateX (imageOnLoad initialState) == translateX zoomedView /\
  handleDownloadWithOverlays (fun label => 7 * inject_Z (Z.of_nat (String.length label)))
    (Some sampleDom) sampleProps (imageOnLoad initialState)
  = handleDownloadWithOverlays (fun label => 7 * inject_Z (Z.of_nat (String.length label)))
      (Some sampleDom) sampleProps zoomedView /\
  exists canvas,
    handleDownloadWithOverlays (fun label => 7 * inject_Z (Z.of_nat (String.length label)))
      (Some sampleDom) sampleProps zoomedView = Some canvas /\
    export_width canvas = 1000 /\ export_height canvas = 800.
Proof.
  destruct (export_independent_of_transform
              (fun label => 7 * inject_Z (Z.of_nat (String.length label)))
              (Some sampleDom) sampleProps (imageOnLoad initialState) zoomedView
              eq_refl) as (E & _ & S & _).
  split; [vm_compute; discriminate|].
  split; [vm_compute; discriminate|].
  split; [exact E|].
  destruct (S sampleDom eq_refl eq_refl) as (canvas & _ & C & W & H & _).
  exists canvas. split; [exact C|]. split; [exact W | exact H].
Defined.

(** ** Pinch zoom and division by zero *)

Lemma Checked_div_some (a b : Q) : ~ b == 0 -> Checked.div a b = Some (a / b).
Proof.
  intros N. unfold Checked.div.
  destruct (Qeq_bool b 0) eqn:E; [apply Qeq_bool_iff in E; contradiction|].
  reflexivity.
Qed.

Lemma Checked_rulerMargin (d : Dom) : Checked.rulerMargin d = Some (rulerMargin d).
Proof.
  unfold Checked.rulerMargin. rewrite Checked_div_some by discriminate.
  reflexivity.
Qed.

Lemma Checked_displayScale (d : Dom) :
  ~ canvas_width d == 0 -> ~ canvas_height d == 0 ->
  Checked.displayScale d = Some (displayScale d).
Proof.
  intros W H. unfold Checked.displayScale.
  rewrite !Checked_div_some by assumption. reflexivity.
Qed.

Lemma Checked_constrainPan (d : Dom) (tx ty s : Q) :
  ~ canvas_width d == 0 -> ~ canvas_height d == 0 -> ~ displayScale d == 0 ->
  Checked.constrainPan d tx ty s = Some (constrainPan (Some d) tx ty s).
Proof.
  intros W H N. unfold Checked.constrainPan, constrainPan.
  destruct (Qeq_bool s 1); [reflexivity|].
  rewrite Checked_rulerMargin, Checked_displayScale by assumption.
  cbn [Checked.bind]. unfold Checked.constrainAxis.
  destruct (Qle_bool (naturalWidth d * displayScale d * s) (DOMRect.width (rect d)));
    destruct (Qle_bool (naturalHeight d * displayScale d * s)
                (DOMRect.height (rect d)));
    repeat (rewrite Checked_div_some by (assumption || discriminate);
            cbn [Checked.bind]);
    reflexivity.
Qed.

(** C10: pinch-zoom handling never divides by zero.  [getTouchDistance] is 0
    whenever fewer than two touches are present; a two-finger move that
    arrives while the pinch baseline [touchStartDistance] is unset (0, or
    anything not above 0) leaves the state, and so the transform, unchanged;
    and in a rendered, visible canvas at a valid scale the two-finger branch
    evaluates no division by zero: run with checked divisions it succeeds and
    gives the state [handleTouchMove] computes, the ratio
    distance / touchStartDistance being formed only under the guard
    touchStartDistance > 0. *)
Theorem pinch_never_divides_by_zero (Math_sqrt : Q -> Q) (d : Dom)
    (props : Props) (touches : list Touch) (t1 t2 : Touch) (st : PanelState) :
  ~ canvas_width d == 0 -> ~ canvas_height d == 0 -> ~ displayScale d == 0 ->
  scaleInBounds st ->
  ((List.length touches < 2)%nat -> getTouchDistance Math_sqrt touches = 0) /\
  (~ 0 < touchStartDistance st ->
   forall refs, handleTouchMove Math_sqrt refs props [t1; t2] st = st) /\
  Checked.pinchMove Math_sqrt d [t1; t2] st
  = Some (handleTouchMove Math_sqrt (Some d) props [t1; t2] st) /\
  (handleTouchMove Math_sqrt (Some d) props [t1; t2] st <> st ->
   ~ touchStartDistance st == 0).
Proof.
  intros W H N [S _].
  assert (Unset : ~ 0 < touchStartDistance st ->
            forall refs, handleTouchMove Math_sqrt refs props [t1; t2] st = st).
  { intros G refs. unfold handleTouchMove. destruct refs; [|reflexivity].
    destruct (Qlt_bool 0 (touchStartDistance st)) eqn:E; [|reflexivity].
    apply Qlt_bool_true in E. contradiction. }
  split; [|split; [exact Unset|split]].
  - destruct touches as [|a [|b l]]; cbn; intros L; try reflexivity. lia.
  - unfold Checked.pinchMove, handleTouchMove.
    rewrite Checked_displayScale by assumption. cbn [Checked.bind].
    destruct (Qlt_bool 0 (touchStartDistance st)) eqn:G; [|reflexivity].
    apply Qlt_bool_true in G.
    rewrite (Checked_div_some _ (touchStartDistance st)) by lra.
    cbn [Checked.bind].
    rewrite !(Checked_div_some _ (displayScale d)) by assumption.
    rewrite Checked_rulerMargin. cbn [Checked.bind].
    rewrite (Checked_div_some _ (scale st)) by lra. cbn [Checked.bind].
    rewrite Checked_constrainPan by assumption. reflexivity.
  - intros Changed Z. apply Changed, Unset. lra.
Qed.

Lemma pinch_never_divides_by_zero_witness :
  getTouchDistance sqrtFloor [mkMouseEvent 100 100] = 0 /\
  handleTouchMove sqrtFloor (Some sampleDom) sampleProps
    [mkMouseEvent 100 100; mkMouseEvent 400 500] afterAutoFit
  = afterAutoFit /\
  Checked.pinchMove sqrtFloor sampleDom
    [mkMouseEvent 100 100; mkMouseEvent 400 500] afterAutoFit
  = Some afterAutoFit.
Proof.
  assert (W : ~ canvas_width sampleDom == 0) by (vm_compute; discriminate).
  assert (H : ~ canvas_height sampleDom == 0) by (vm_compute; discriminate).
  assert (N : ~ displayScale sampleDom == 0) by (vm_compute; discriminate).
  assert (S : scaleInBounds afterAutoFit)
    by (unfold scaleInBounds; vm_compute; split; discriminate).
  assert (U : ~ 0 < touchStartDistance afterAutoFit)
    by (vm_compute; discriminate).
  pose proof (pinch_never_divides_by_zero sqrtFloor sampleDom sampleProps
                [mkMouseEvent 100 100] (mkMouseEvent 100 100)
                (mkMouseEvent 400 500) afterAutoFit W H N S)
    as (D & Unset & Ck & _).
  split; [apply D; cbn; lia|].
  split; [exact (Unset U (Some sampleDom))|].
  exact (eq_trans Ck (f_equal Some (Unset U (Some sampleDom)))).
Defined.

(** ** Where the model is defined *)

Lemma rulerMargin_pos (d : Dom) : 60 <= rulerMargin d.
Proof. unfold rulerMargin. minmax. lra. Qed.

(** After the render effect has sized the canvas, a visible canvas has a
    positive display scale. *)
Lemma displayScale_pos (d : Dom) :
  renderedCanvas d ->
  0 <= naturalWidth d -> 0 <= naturalHeight d ->
  0 < DOMRect.width (rect d) -> 0 < DOMRect.height (rect d) ->
  0 < displayScale d.
Proof.
  intros [W H] NW NH RW RH. pose proof (rulerMargin_pos d) as M.
  unfold displayScale. apply Qmin_pos; apply Qdiv_pos; lra.
Qed.

Lemma sampleDom_rendered : renderedCanvas sampleDom.
Proof. split; vm_compute; reflexivity. Qed.

Lemma autoZoom_defined (d : Dom) (boxes : list BoundingBox) :
  positiveGeometry d -> hasVertex boxes -> exists z, autoZoom d boxes = Some z.
Proof.
  intros G V.
  destruct (boundsOfBoxes_finite boxes V) as (x0 & y0 & x1 & y1 & B).
  destruct (autoZoom_solved d boxes x0 y0 x1 y1 B G) as (z & Z & _).
  now exists z.
Qed.

Section Totality.

Variable Math_sqrt : Q -> Q.

Lemma step_defined (st : PanelState) (ev : Event) :
  finiteEvent ev -> exists st', step Math_sqrt st ev = Some st'.
Proof.
  destruct ev; cbn [step]; intros F; try (now eexists).
  unfold autoZoomEffect, autoZoomWrites. destruct refs as [d|]; [|now eexists].
  destruct (negb (imageLoaded st) || _)%bool; [now eexists|].
  destruct (truthy (maskUrl props)); [now eexists|].
  destruct F as [G V].
  destruct (autoZoom_defined d (boundingBoxes props) G V) as (z & Z).
  rewrite (autoZoom_JS _ _ _ Z). now eexists.
Qed.

(** Every sequence of such events runs to the end, and the scale stays
    within its bounds all along. *)
Lemma run_defined (evs : list Event) :
  forall st,
    Forall finiteEvent evs ->
    exists trace, run Math_sqrt st evs = Some trace.
Proof.
  induction evs as [|ev evs IH]; intros st F; cbn [run].
  - now eexists.
  - inversion F as [|? ? Fe Fr]; subst.
    destruct (step_defined st ev Fe) as (st1 & ->).
    destruct (IH st1 Fr) as (tr & ->). now eexists.
Qed.

Lemma scale_bounds_total (evs : list Event) :
  Forall finiteEvent evs ->
  exists trace,
    run Math_sqrt initialState evs = Some trace /\ Forall scaleInBounds trace.
Proof.
  intros F. destruct (run_defined evs initialState F) as (trace & R).
  exists trace. split; [exact R|].
  apply (run_scale Math_sqrt evs initialState trace R).
  unfold scaleInBounds. cbn. lra.
Qed.

End Totality.

(** ** The bounds of the detections *)

Lemma Ext_min_le (a : Ext.t) (x q : Q) :
  (Ext_le a (Ext.Fin q) \/ x <= q) -> Ext_le (Ext.min a (Ext.Fin x)) (Ext.Fin q).
Proof.
  destruct a as [|p|]; cbn; intros [H | H]; try exact I; try contradiction;
    try assumption; unfold JSMath.min; minmax; lra.
Qed.

Lemma Ext_max_le (a : Ext.t) (x q : Q) :
  (Ext_le (Ext.Fin q) a \/ q <= x) -> Ext_le (Ext.Fin q) (Ext.max a (Ext.Fin x)).
Proof.
  destruct a as [|p|]; cbn; intros [H | H]; try exact I; try contradiction;
    try assumption; unfold JSMath.max; minmax; lra.
Qed.

Lemma boundsOfVertices_encloses (cs : list (Q * Q)) (v : Q * Q) :
  forall acc,
    encloses acc v \/ In v cs -> encloses (boundsOfVertices acc cs) v.
Proof.
  unfold boundsOfVertices.
  induction cs as [|[x y] cs IH]; intros acc H; cbn [fold_left].
  - destruct H as [H | []]. exact H.
  - apply IH. destruct H as [(A & B & C & D) | [E | H]].
    + left. unfold encloses. cbn.
      repeat split; (apply Ext_min_le || apply Ext_max_le); now left.
    + left. subst v. unfold encloses. cbn.
      repeat split; (apply Ext_min_le || apply Ext_max_le); right; lra.
    + now right.
Qed.

Lemma fold_boxes_encloses (boxes : list BoundingBox) (v : Q * Q) :
  forall acc,
    encloses acc v \/ (exists box, In box boxes /\ In v (coordinates box)) ->
    encloses
      (fold_left (fun b box => boundsOfVertices b (coordinates box)) boxes acc) v.
Proof.
  induction boxes as [|box boxes IH]; intros acc H; cbn [fold_left].
  - destruct H as [H | (b & [] & _)]. exact H.
  - apply IH. destruct H as [H | (b & [<- | I] & V)].
    + left. apply boundsOfVertices_encloses. now left.
    + left. apply boundsOfVertices_encloses. now right.
    + right. now exists b.
Qed.

(** The bounds computed by the effect enclose every vertex of every
    detection. *)
Lemma boundsOfBoxes_encloses (boxes : list BoundingBox) (x0 y0 x1 y1 : Q) :
  boundsOfBoxes boxes
  = mkBounds (Ext.Fin x0) (Ext.Fin y0) (Ext.Fin x1) (Ext.Fin y1) ->
  forall box x y,
    In box boxes -> In (x, y) (coordinates box) ->
    (x0 <= x /\ x <= x1) /\ (y0 <= y /\ y <= y1).
Proof.
  intros B box x y I V.
  assert (E : encloses (boundsOfBoxes boxes) (x, y)).
  { apply fold_boxes_encloses. right. now exists box. }
  rewrite B in E. destruct E as (a & b & c & d). cbn in *. now repeat split.
Qed.

(** * Further properties of the handlers *)

(** ** The boundary solver as a projection *)

Lemma Qle_bool_compat (a b c d : Q) :
  a == c -> b == d -> Qle_bool a b = Qle_bool c d.
Proof.
  intros E F. destruct (Qle_bool c d) eqn:L.
  - apply Qle_bool_iff. apply Qle_bool_iff in L. lra.
  - apply Qle_bool_false in L.
    destruct (Qle_bool a b) eqn:K; [|reflexivity].
    apply Qle_bool_iff in K. lra.
Qed.

Lemma clamp_idempotent (lo hi t : Q) :
  Qmax lo (Qmin hi (Qmax lo (Qmin hi t))) == Qmax lo (Qmin hi t).
Proof. minmax. lra. Qed.

Lemma clamp_compat (lo hi t t' : Q) :
  t == t' -> Qmax lo (Qmin hi t) == Qmax lo (Qmin hi t').
Proof. intros E. minmax. lra. Qed.

Lemma constrainPan_again (refs : option Dom) (tx ty s : Q) :
  Point.x (constrainPan refs (Point.x (constrainPan refs tx ty s))
             (Point.y (constrainPan refs tx ty s)) s)
  == Point.x (constrainPan refs tx ty s) /\
  Point.y (constrainPan refs (Point.x (constrainPan refs tx ty s))
             (Point.y (constrainPan refs tx ty s)) s)
  == Point.y (constrainPan refs tx ty s).
Proof.
  destruct refs as [d|]; [|split; reflexivity].
  unfold constrainPan. destruct (Qeq_bool s 1); [split; reflexivity|].
  cbv zeta. cbn [Point.x Point.y]. unfold JSMath.max, JSMath.min.
  destruct (Qle_bool (naturalWidth d * displayScale d * s) (DOMRect.width (rect d)));
    destruct (Qle_bool (naturalHeight d * displayScale d * s)
                (DOMRect.height (rect d)));
    split; try reflexivity; apply clamp_idempotent.
Qed.

(** X1: [constrainPan] is idempotent: for a canvas with a positive
    [displayScale], solving an already solved translate again returns it, at
    every scale and for every requested translate. *)
Theorem constrainPan_idempotent (d : Dom) (tx ty s : Q) :
  0 < displayScale d ->
  let solved := constrainPan (Some d) tx ty s in
  Point.x (constrainPan (Some d) (Point.x solved) (Point.y solved) s)
  == Point.x solved /\
  Point.y (constrainPan (Some d) (Point.x solved) (Point.y solved) s)
  == Point.y solved.
Proof.
  intros _ solved. unfold solved. apply constrainPan_again.
Qed.

Lemma constrainPan_idempotent_witness :
  Point.x
    (constrainPan (Some sampleDom)
       (Point.x (constrainPan (Some sampleDom) 500 (-900) 2))
       (Point.y (constrainPan (Some sampleDom) 500 (-900) 2)) 2)
  == Point.x (constrainPan (Some sampleDom) 500 (-900) 2).
Proof.
  apply (constrainPan_idempotent sampleDom 500 (-900) 2). reflexivity.
Defined.

(** The solver does not tell apart equal numbers. *)
Lemma constrainPan_compat (refs : option Dom) (tx ty tx' ty' s : Q) :
  tx == tx' -> ty == ty' ->
  Point.x (constrainPan refs tx ty s) == Point.x (constrainPan refs tx' ty' s) /\
  Point.y (constrainPan refs tx ty s) == Point.y (constrainPan refs tx' ty' s).
Proof.
  intros X Y. destruct refs as [d|]; [|split; assumption].
  unfold constrainPan. destruct (Qeq_bool s 1); [split; reflexivity|].
  cbv zeta. cbn [Point.x Point.y]. unfold JSMath.max, JSMath.min.
  destruct (Qle_bool (naturalWidth d * displayScale d * s) (DOMRect.width (rect d)));
    destruct (Qle_bool (naturalHeight d * displayScale d * s)
                (DOMRect.height (rect d)));
    split; try reflexivity; now apply clamp_compat.
Qed.

Lemma boundarySolved_after (d : Dom) (st' : PanelState) (tx ty : Q) :
  translateX st' = Point.x (constrainPan (Some d) tx ty (scale st')) ->
  translateY st' = Point.y (constrainPan (Some d) tx ty (scale st')) ->
  boundarySolved d st'.
Proof.
  intros X Y. unfold boundarySolved. rewrite X, Y.
  apply constrainPan_again.
Qed.

(** X2: every handler that moves the view leaves a translate the boundary
    solver accepts: for a canvas with a positive [displayScale] and a valid
    scale, after a wheel zoom, a click on the zoom buttons, a pan move by
    mouse or finger and a pinch move, [constrainPan] applied to the new
    translate at the new scale returns it unchanged. *)
Theorem view_stays_boundary_solved (Math_sqrt : Q -> Q) (d : Dom)
    (props : Props) (st : PanelState) :
  0 < displayScale d ->
  scaleInBounds st ->
  (forall e, boundarySolved d (handleWheel (Some d) e st)) /\
  boundarySolved d (zoomIn (Some d) st) /\
  boundarySolved d (zoomOut (Some d) st) /\
  (forall e,
     isRegionSelectMode props = false -> isPanning st = true ->
     boundarySolved d (handleMouseMove (Some d) props e st)) /\
  (forall touch,
     isRegionSelectMode props = false -> isPanning st = true ->
     boundarySolved d (handleTouchMove Math_sqrt (Some d) props [touch] st)) /\
  (forall t1 t2,
     0 < touchStartDistance st ->
     boundarySolved d (handleTouchMove Math_sqrt (Some d) props [t1; t2] st)).
Proof.
  intros _ _.
  refine (conj _ (conj _ (conj _ (conj _ (conj _ _))))).
  - intros e. unfold handleWheel. eapply boundarySolved_after; reflexivity.
  - unfold zoomIn. eapply boundarySolved_after; reflexivity.
  - unfold zoomOut. eapply boundarySolved_after; reflexivity.
  - intros e M P. unfold handleMouseMove. rewrite M, P.
    destruct (isDrawingRegion st), (regionStart st);
      eapply boundarySolved_after; reflexivity.
  - intros t M P. unfold handleTouchMove. rewrite M, P.
    destruct (isDrawingRegion st), (regionStart st);
      eapply boundarySolved_after; reflexivity.
  - intros t1 t2 G. apply Qlt_bool_true in G. unfold handleTouchMove. rewrite G.
    eapply boundarySolved_after; reflexivity.
Qed.

Lemma view_stays_boundary_solved_witness :
  boundarySolved sampleDom
    (handleMouseMove (Some sampleDom) sampleProps (mkMouseEvent 300 200)
       (fst (handleMouseDown (Some sampleDom) sampleProps (mkMouseEvent 100 100)
               afterAutoFit))) /\
  boundarySolved sampleDom
    (handleTouchMove sqrtFloor (Some sampleDom) sampleProps
       [mkMouseEvent 100 100; mkMouseEvent 400 500] pinching).
Proof.
  split.
  - pose proof (view_stays_boundary_solved sqrtFloor sampleDom sampleProps
                  (fst (handleMouseDown (Some sampleDom) sampleProps
                          (mkMouseEvent 100 100) afterAutoFit))
                  eq_refl ltac:(split; discriminate))
      as (_ & _ & _ & Pan & _).
    exact (Pan (mkMouseEvent 300 200) eq_refl eq_refl).
  - pose proof (view_stays_boundary_solved sqrtFloor sampleDom sampleProps pinching
                  eq_refl ltac:(split; discriminate))
      as (_ & _ & _ & _ & _ & Pinch).
    apply (Pinch (mkMouseEvent 100 100) (mkMouseEvent 400 500)).
    vm_compute. reflexivity.
Defined.

(** ** Panning *)

(** X3: a pan drag follows the pointer.  Outside region-select mode, a press
    at [e1] followed by a move to [e2] (by mouse, or with one finger)
    requests the translate of the press plus the pointer displacement
    divided by [displayScale], and sets what the boundary solver makes of
    it; the scale is untouched and no callback is called. *)
Theorem pan_follows_pointer (Math_sqrt : Q -> Q) (d : Dom) (props : Props)
    (e1 e2 : MouseEvent) (st : PanelState) :
  0 < displayScale d ->
  isRegionSelectMode props = false ->
  let requested :=
    constrainPan (Some d)
      (translateX st + (clientX e2 - clientX e1) / displayScale d)
      (translateY st + (clientY e2 - clientY e1) / displayScale d) (scale st) in
  let byMouse :=
    handleMouseMove (Some d) props e2
      (fst (handleMouseDown (Some d) props e1 st)) in
  let byTouch :=
    handleTouchMove Math_sqrt (Some d) props [e2]
      (fst (handleTouchStart Math_sqrt (Some d) props [e1] st)) in
  snd (handleMouseDown (Some d) props e1 st) = [] /\
  snd (handleTouchStart Math_sqrt (Some d) props [e1] st) = [] /\
  (scale byMouse = scale st /\
   translateX byMouse == Point.x requested /\
   translateY byMouse == Point.y requested) /\
  (scale byTouch = scale st /\
   translateX byTouch == Point.x requested /\
   translateY byTouch == Point.y requested).
Proof.
  intros P M requested byMouse byTouch.
  assert (N : ~ displayScale d == 0) by lra.
  assert (R : forall a b t, (a - (b - t * displayScale d)) / displayScale d
                            == t + (a - b) / displayScale d)
    by (intros; field; assumption).
  pose proof (constrainPan_compat (Some d) _ _ _ _ (scale st)
                (R (clientX e2) (clientX e1) (translateX st))
                (R (clientY e2) (clientY e1) (translateY st))) as [X Y].
  unfold byMouse, byTouch, handleMouseDown, handleMouseMove, handleTouchStart,
    handleTouchMove. rewrite M. cbn.
  destruct (isDrawingRegion st), (regionStart st); cbn;
    (split; [reflexivity|]); (split; [reflexivity|]);
    (split; (split; [reflexivity|]); split; assumption).
Qed.

Lemma pan_follows_pointer_witness :
  translateX
    (handleMouseMove (Some sampleDom) sampleProps (mkMouseEvent 90 80)
       (fst (handleMouseDown (Some sampleDom) sampleProps (mkMouseEvent 100 100)
               (zoomIn (Some sampleDom) (zoomIn (Some sampleDom) afterAutoFit)))))
  == Point.x
       (constrainPan (Some sampleDom)
          (translateX (zoomIn (Some sampleDom) (zoomIn (Some sampleDom) afterAutoFit))
           + (90 - 100) / displayScale sampleDom)
          (translateY (zoomIn (Some sampleDom) (zoomIn (Some sampleDom) afterAutoFit))
           + (80 - 100) / displayScale sampleDom)
          (scale (zoomIn (Some sampleDom) (zoomIn (Some sampleDom) afterAutoFit)))).
Proof.
  assert (N : 0 < displayScale sampleDom) by reflexivity.
  pose proof (pan_follows_pointer sqrtFloor sampleDom sampleProps
                (mkMouseEvent 100 100) (mkMouseEvent 90 80)
                (zoomIn (Some sampleDom) (zoomIn (Some sampleDom) afterAutoFit))
                N eq_refl) as (_ & _ & (_ & X & _) & _).
  exact X.
Defined.

(** ** Zooming *)

(** X4: zooming never goes the wrong way.  At a valid scale, a wheel notch
    with deltaY < 0 and the zoom-in button do not decrease the scale, a wheel
    notch with deltaY >= 0 and the zoom-out button do not increase it; the
    buttons change the scale strictly until the bound 10 or 1 is reached. *)
Theorem zoom_direction (refs : option Dom) (e : WheelEvent) (st : PanelState) :
  scaleInBounds st ->
  (deltaY e < 0 -> scale st <= scale (handleWheel refs e st)) /\
  (~ deltaY e < 0 -> scale (handleWheel refs e st) <= scale st) /\
  scale st <= scale (zoomIn refs st) /\
  scale (zoomOut refs st) <= scale st /\
  (scale st < 10 -> scale st < scale (zoomIn refs st)) /\
  (1 < scale st -> scale (zoomOut refs st) < scale st).
Proof.
  intros [L U].
  assert (E : scale st / 1.2 == scale st * (5 # 6)) by field.
  refine (conj _ (conj _ (conj _ (conj _ (conj _ _))))).
  - intros D. unfold handleWheel. destruct refs; [|lra].
    apply Qlt_bool_true in D. rewrite D. cbn. minmax. lra.
  - intros D. unfold handleWheel. destruct refs; [|lra].
    assert (F : Qlt_bool (deltaY e) 0 = false) by (apply Qlt_bool_false; lra).
    rewrite F. cbn. minmax. lra.
  - unfold zoomIn. cbn. minmax. lra.
  - unfold zoomOut. cbn. minmax. lra.
  - intros S. unfold zoomIn. cbn. minmax. lra.
  - intros S. unfold zoomOut. cbn. minmax. lra.
Qed.

Lemma zoom_direction_witness :
  scale afterAutoFit < scale (zoomIn (Some sampleDom) afterAutoFit) /\
  scale (zoomOut (Some sampleDom) afterAutoFit) < scale afterAutoFit.
Proof.
  assert (I : scaleInBounds afterAutoFit)
    by (unfold scaleInBounds; vm_compute; split; discriminate).
  pose proof (zoom_direction (Some sampleDom) sampleWheel afterAutoFit I)
    as (_ & _ & _ & _ & In & Out).
  split; [apply In | apply Out]; vm_compute; reflexivity.
Defined.

(** X6: zooming out to 100 % shows the full view again.  When the zoom-out
    button (scale <= 1.2) or a wheel notch away (scale * 0.9 <= 1) brings
    the scale to 1, the translate is reset to (0, 0) whatever it was. *)
Theorem zoom_out_to_full_view (d : Dom) (e : WheelEvent) (st : PanelState) :
  (scale st <= 1.2 ->
   scale (zoomOut (Some d) st) == 1 /\
   translateX (zoomOut (Some d) st) = 0 /\
   translateY (zoomOut (Some d) st) = 0) /\
  (~ deltaY e < 0 -> scale st * 0.9 <= 1 ->
   scale (handleWheel (Some d) e st) == 1 /\
   translateX (handleWheel (Some d) e st) = 0 /\
   translateY (handleWheel (Some d) e st) = 0).
Proof.
  split.
  - intros S.
    assert (E : JSMath.max (scale st / 1.2) 1 == 1).
    { assert (scale st / 1.2 == scale st * (5 # 6)) by field. minmax. lra. }
    unfold zoomOut, constrainPan. cbn.
    apply Qeq_bool_iff in E as B. rewrite B. cbn. now repeat split.
  - intros D S.
    assert (F : Qlt_bool (deltaY e) 0 = false) by (apply Qlt_bool_false; lra).
    assert (E : JSMath.min (JSMath.max 1 (scale st * 0.9)) 10 == 1)
      by (minmax; lra).
    unfold handleWheel, constrainPan. rewrite F. cbn.
    apply Qeq_bool_iff in E as B. rewrite B. cbn. now repeat split.
Qed.

Lemma zoom_out_to_full_view_witness :
  scale (zoomOut (Some sampleDom) afterAutoFit) == 1 /\
  translateX (zoomOut (Some sampleDom) afterAutoFit) = 0 /\
  translateY (zoomOut (Some sampleDom) afterAutoFit) = 0.
Proof.
  apply (zoom_out_to_full_view sampleDom sampleWheel afterAutoFit).
  vm_compute. discriminate.
Defined.

(** ** Pinching *)

(** X7: a pinch is relative to its start.  After a two-finger touch start,
    every later two-finger move sets the scale to
    clamp(scaleAtStart * distance / distanceAtStart, 1, 10), whatever moves
    came in between; in particular fingers that are as far apart as at the
    start give back the scale of the start. *)
Theorem pinch_relative_to_start (Math_sqrt : Q -> Q) (d : Dom) (props : Props)
    (s1 s2 m1 m2 n1 n2 : Touch) (st : PanelState) :
  0 < getTouchDistance Math_sqrt [s1; s2] ->
  scaleInBounds st ->
  let started := fst (handleTouchStart Math_sqrt (Some d) props [s1; s2] st) in
  let moved := handleTouchMove Math_sqrt (Some d) props [m1; m2] started in
  let movedAgain := handleTouchMove Math_sqrt (Some d) props [n1; n2] moved in
  sameView started st /\
  scale moved
  == clampScale (scale st * (getTouchDistance Math_sqrt [m1; m2]
                             / getTouchDistance Math_sqrt [s1; s2])) /\
  scale movedAgain
  == clampScale (scale st * (getTouchDistance Math_sqrt [n1; n2]
                             / getTouchDistance Math_sqrt [s1; s2])) /\
  scale (handleTouchMove Math_sqrt (Some d) props [s1; s2] started) == scale st.
Proof.
  intros P [L U] started moved movedAgain.
  apply Qlt_bool_true in P as B.
  assert (G : Qlt_bool 0 (touchStartDistance started) = true) by exact B.
  assert (G' : Qlt_bool 0 (touchStartDistance moved) = true).
  { unfold moved, handleTouchMove. rewrite G. exact B. }
  split; [repeat split|]. split; [|split].
  - unfold moved, handleTouchMove. rewrite G. reflexivity.
  - unfold movedAgain, handleTouchMove at 1. rewrite G'.
    unfold moved, handleTouchMove. rewrite G. reflexivity.
  - unfold handleTouchMove. rewrite G. cbn. unfold JSMath.min, JSMath.max.
    cbn in P. set (dist := Math_sqrt _) in *.
    assert (E : scale st * (dist / dist) == scale st) by (field; lra).
    rewrite E. minmax. lra.
Qed.

Lemma pinch_relative_to_start_witness :
  scale
    (handleTouchMove sqrtFloor (Some sampleDom) sampleProps
       [mkMouseEvent 100 100; mkMouseEvent 106 108]
       (handleTouchMove sqrtFloor (Some sampleDom) sampleProps
          [mkMouseEvent 100 100; mkMouseEvent 400 500]
          (fst (handleTouchStart sqrtFloor (Some sampleDom) sampleProps
                  [mkMouseEvent 100 100; mkMouseEvent 103 104] afterAutoFit))))
  == clampScale
       (scale afterAutoFit
        * (getTouchDistance sqrtFloor [mkMouseEvent 100 100; mkMouseEvent 106 108]
           / getTouchDistance sqrtFloor [mkMouseEvent 100 100; mkMouseEvent 103 104])).
Proof.
  assert (P : 0 < getTouchDistance sqrtFloor
                    [mkMouseEvent 100 100; mkMouseEvent 103 104])
    by (vm_compute; reflexivity).
  assert (I : scaleInBounds afterAutoFit)
    by (unfold scaleInBounds; vm_compute; split; discriminate).
  pose proof (pinch_relative_to_start sqrtFloor sampleDom sampleProps
                (mkMouseEvent 100 100) (mkMouseEvent 103 104)
                (mkMouseEvent 100 100) (mkMouseEvent 400 500)
                (mkMouseEvent 100 100) (mkMouseEvent 106 108)
                afterAutoFit P I) as (_ & _ & Again & _).
  exact Again.
Defined.

(** X8: lifting a finger disarms the pinch.  Once [handleTouchEnd] has run
    with at most one touch left, a two-finger move changes nothing until a
    new two-finger touch start has set the baseline again. *)
Theorem pinch_disarmed_after_release (Math_sqrt : Q -> Q) (refs : option Dom)
    (props props' : Props) (remaining : list Touch) (t1 t2 : Touch)
    (st : PanelState) :
  (List.length remaining <= 1)%nat ->
  handleTouchMove Math_sqrt refs props' [t1; t2]
    (fst (handleTouchEnd props remaining st))
  = fst (handleTouchEnd props remaining st).
Proof.
  intros L.
  assert (Z : touchStartDistance (fst (handleTouchEnd props remaining st)) = 0).
  { unfold handleTouchEnd. destruct remaining as [|a [|b l]]; cbn in L; try lia.
    - destruct (isDrawingRegion st), (currentRegion st) as [r|],
        (isRegionSelectMode props); try reflexivity.
      destruct (meaningfulSize r); reflexivity.
    - reflexivity. }
  unfold handleTouchMove. destruct refs; [|reflexivity].
  rewrite Z. reflexivity.
Qed.

Lemma pinch_disarmed_after_release_witness :
  handleTouchMove sqrtFloor (Some sampleDom) sampleProps
    [mkMouseEvent 100 100; mkMouseEvent 400 500]
    (fst (handleTouchEnd sampleProps [mkMouseEvent 100 100] pinching))
  = fst (handleTouchEnd sampleProps [mkMouseEvent 100 100] pinching).
Proof.
  apply (pinch_disarmed_after_release sqrtFloor (Some sampleDom) sampleProps
           sampleProps [mkMouseEvent 100 100]).
  cbn. lia.
Defined.

(** ** Region drawing *)

Lemma moves_keep_drawing (d : Dom) (props : Props) (moves : list MouseEvent) :
  isRegionSelectMode props = true ->
  forall st anchor,
    isDrawingRegion st = true -> regionStart st = Some anchor ->
    let st' := fold_left (fun s e => handleMouseMove (Some d) props e s) moves st in
    sameView st' st /\ isDrawingRegion st' = true /\
    regionStart st' = Some anchor /\
    (moves <> [] -> currentRegion st' <> None).
Proof.
  intros M. induction moves as [|e moves IH]; intros st anchor D A; cbn [fold_left].
  - split; [repeat split|]. split; [assumption|]. split; [assumption|].
    congruence.
  - set (st1 := handleMouseMove (Some d) props e st).
    assert (S : sameView st1 st /\ isDrawingRegion st1 = true
                /\ regionStart st1 = Some anchor /\ currentRegion st1 <> None).
    { unfold st1, handleMouseMove. rewrite D, A, M. cbn.
      repeat split; try assumption. discriminate. }
    destruct S as ((S1 & S2 & S3) & D1 & A1 & C1).
    destruct (IH st1 anchor D1 A1) as ((T1 & T2 & T3) & D2 & A2 & C2).
    split; [repeat split; congruence|]. split; [assumption|].
    split; [assumption|]. intros _.
    destruct moves as [|e' moves']; [exact C1 | apply C2; discriminate].
Qed.

(** X9: drawing a region never moves the view.  In region-select mode a
    whole gesture (press, any number of moves, release) leaves scale and
    translate as they were. *)
Theorem region_draw_keeps_view (d : Dom) (props : Props) (down : MouseEvent)
    (moves : list MouseEvent) (st : PanelState) :
  isRegionSelectMode props = true ->
  let pressed := fst (handleMouseDown (Some d) props down st) in
  let dragged :=
    fold_left (fun s e => handleMouseMove (Some d) props e s) moves pressed in
  let released := fst (handleMouseUp props dragged) in
  sameView pressed st /\ sameView dragged st /\ sameView released st /\
  isPanning pressed = isPanning st.
Proof.
  intros M pressed dragged released.
  assert (P : sameView pressed st /\ isDrawingRegion pressed = true
              /\ exists anchor, regionStart pressed = Some anchor).
  { unfold pressed, handleMouseDown. rewrite M. cbn.
    repeat split. now eexists. }
  destruct P as ((P1 & P2 & P3) & D & anchor & A).
  destruct (moves_keep_drawing d props moves M pressed anchor D A)
    as ((Q1 & Q2 & Q3) & D' & _).
  fold dragged in Q1, Q2, Q3, D'.
  assert (R : sameView released dragged).
  { unfold released, handleMouseUp. rewrite D', M.
    destruct (currentRegion dragged) as [r|]; [|repeat split].
    destruct (meaningfulSize r); repeat split. }
  destruct R as (R1 & R2 & R3).
  split; [repeat split; assumption|].
  split; [repeat split; congruence|].
  split; [repeat split; congruence|].
  unfold pressed, handleMouseDown. rewrite M. reflexivity.
Qed.

Lemma region_draw_keeps_view_witness :
  sameView
    (fst (handleMouseUp regionProps
            (fold_left
               (fun s e => handleMouseMove (Some sampleDom) regionProps e s)
               [mkMouseEvent 60 70; mkMouseEvent 200 150]
               (fst (handleMouseDown (Some sampleDom) regionProps
                       (mkMouseEvent 40 40) afterAutoFit)))))
    afterAutoFit.
Proof.
  pose proof (region_draw_keeps_view sampleDom regionProps (mkMouseEvent 40 40)
                [mkMouseEvent 60 70; mkMouseEvent 200 150] afterAutoFit eq_refl)
    as (_ & _ & R & _).
  exact R.
Defined.

(** X10: a candidate rectangle anchored inside the image stays inside the
    image: for a canvas with a positive [displayScale] and a valid scale,
    with the anchor within [[0, width] x [0, height]], wherever the pointer
    goes the rectangle has a non-negative size and lies within the image
    bounds. *)
Theorem candidate_inside_image (Math_sqrt : Q -> Q) (d : Dom) (props : Props)
    (e : Touch) (st : PanelState) (anchor : Point.t) :
  0 < displayScale d ->
  scaleInBounds st ->
  isDrawingRegion st = true ->
  regionStart st = Some anchor ->
  isRegionSelectMode props = true ->
  0 <= Point.x anchor <= naturalWidth d ->
  0 <= Point.y anchor <= naturalHeight d ->
  exists r,
    currentRegion (handleMouseMove (Some d) props e st) = Some r /\
    currentRegion (handleTouchMove Math_sqrt (Some d) props [e] st) = Some r /\
    0 <= RegionSelection.x r /\ 0 <= RegionSelection.width r /\
    RegionSelection.x r + RegionSelection.width r <= naturalWidth d /\
    0 <= RegionSelection.y r /\ 0 <= RegionSelection.height r /\
    RegionSelection.y r + RegionSelection.height r <= naturalHeight d.
Proof.
  intros _ _ D A M [X0 X1] [Y0 Y1].
  rewrite (handleTouchMove_region Math_sqrt d props e st anchor D A M).
  rewrite (handleMouseMove_region d props e st anchor D A M). cbv zeta.
  generalize (clientToImage d st e). intros cur.
  eexists. split; [reflexivity|]. split; [reflexivity|].
  cbn [RegionSelection.x RegionSelection.y RegionSelection.width
       RegionSelection.height].
  pose proof (Qabs_nonneg (Point.x cur - Point.x anchor)).
  pose proof (Qabs_nonneg (Point.y cur - Point.y anchor)).
  set (ax := Qabs (Point.x cur - Point.x anchor)) in *.
  set (ay := Qabs (Point.y cur - Point.y anchor)) in *.
  clearbody ax ay. minmax. repeat split; lra.
Qed.

Lemma candidate_inside_image_witness :
  exists r,
    currentRegion
      (handleMouseMove (Some sampleDom) regionProps (mkMouseEvent 0 500) drawing15)
    = Some r /\
    0 <= RegionSelection.x r /\ 0 <= RegionSelection.width r /\
    RegionSelection.x r + RegionSelection.width r <= 1000.
Proof.
  destruct (candidate_inside_image sqrtFloor sampleDom regionProps
              (mkMouseEvent 0 500) drawing15
              (Point.mk (11200 # 560) (11200 # 560)))
    as (r & R & _ & A & B & C & _).
  - reflexivity.
  - split; discriminate.
  - reflexivity.
  - vm_compute. reflexivity.
  - reflexivity.
  - split; vm_compute; discriminate.
  - split; vm_compute; discriminate.
  - exists r. repeat split; assumption.
Defined.

(** X11: a press released before any move does not end the draw.  In
    region-select mode (positive [displayScale], valid scale), after a press
    and an immediate release (mouse up or mouse leave) no callback has been
    called for the release, the panel is still drawing from the same anchor,
    and the next move, with no button held, makes a candidate rectangle. *)
Theorem release_without_move_keeps_drawing (d : Dom) (props : Props)
    (down next : MouseEvent) (st : PanelState) :
  0 < displayScale d ->
  scaleInBounds st ->
  isRegionSelectMode props = true ->
  let pressed := fst (handleMouseDown (Some d) props down st) in
  let released := fst (handleMouseUp props pressed) in
  snd (handleMouseUp props pressed) = [] /\
  isDrawingRegion released = true /\
  regionStart released = Some (clientToImage d st down) /\
  currentRegion released = None /\
  currentRegion (handleMouseMove (Some d) props next released) <> None.
Proof.
  intros _ _ M pressed released.
  unfold released, pressed, handleMouseUp, handleMouseDown, handleMouseMove.
  rewrite M. cbn. repeat split. discriminate.
Qed.

Lemma release_without_move_keeps_drawing_witness :
  isDrawingRegion
    (fst (handleMouseUp regionProps
            (fst (handleMouseDown (Some sampleDom) regionProps
                    (mkMouseEvent 40 40) afterAutoFit))))
  = true.
Proof.
  pose proof (release_without_move_keeps_drawing sampleDom regionProps
                (mkMouseEvent 40 40) (mkMouseEvent 80 80) afterAutoFit
                eq_refl ltac:(split; discriminate) eq_refl)
    as (_ & D & _).
  exact D.
Defined.

(** ** Rulers *)

(** The spacing before it is rounded to a nice number, measured on screen
    (spacing * scale * displayScale), lies between 40 and 150 pixels. *)
Lemma tickSpacing_on_screen (d : Dom) (currentScale : Q) :
  0 < naturalWidth d ->
  0 < currentScale ->
  0 < displayScale d ->
  40 <= tickSpacing d currentScale * currentScale * displayScale d /\
  tickSpacing d currentScale * currentScale * displayScale d <= 150.
Proof.
  intros _ Pc Pd.
  assert (P : 0 < currentScale * displayScale d) by nra.
  unfold tickSpacing. cbv zeta.
  set (ds := displayScale d) in *.
  set (t := 50 * (naturalWidth d * currentScale * ds / naturalWidth d)).
  assert (Nc : ~ currentScale == 0) by (intros Z; rewrite Z in P; lra).
  assert (Nd : ~ ds == 0) by (intros Z; rewrite Z in P; lra).
  destruct (Qlt_bool (t * currentScale * ds) 40) eqn:A.
  - assert (E : 40 / (currentScale * ds) * currentScale * ds == 40)
      by (field; split; assumption).
    rewrite E. split; lra.
  - apply Qlt_bool_false in A.
    destruct (Qlt_bool 150 (t * currentScale * ds)) eqn:B.
    + assert (E : 150 / (currentScale * ds) * currentScale * ds == 150)
        by (field; split; assumption).
      rewrite E. split; lra.
    + apply Qlt_bool_false in B. split; assumption.
Qed.

(** X13: the nice interval rounds the spacing down by less than a factor
    2.5.  With [magnitude] the power of ten at or below the spacing (as
    [Math.log10] gives it for a positive spacing), the interval is 1, 2 or 5
    times [magnitude], is at most the spacing and more than 2/5 of it. *)
Theorem niceInterval_rounds_down (Math_log10 : Q -> Q) (spacing : Q) :
  10 ^ Qfloor (Math_log10 spacing) <= spacing ->
  spacing < 10 * 10 ^ Qfloor (Math_log10 spacing) ->
  (niceInterval Math_log10 spacing == 10 ^ Qfloor (Math_log10 spacing) \/
   niceInterval Math_log10 spacing == 2 * 10 ^ Qfloor (Math_log10 spacing) \/
   niceInterval Math_log10 spacing == 5 * 10 ^ Qfloor (Math_log10 spacing)) /\
  niceInterval Math_log10 spacing <= spacing /\
  spacing < (5 # 2) * niceInterval Math_log10 spacing.
Proof.
  intros L U. unfold niceInterval. cbv zeta.
  set (mag := 10 ^ Qfloor (Math_log10 spacing)) in *.
  assert (P : 0 < mag) by (apply Qpower_0_lt; reflexivity).
  assert (E : spacing / mag * mag == spacing) by (field; lra).
  destruct (Qlt_bool (spacing / mag) 2) eqn:A.
  - apply Qlt_bool_true in A. split; [left; reflexivity|]. split; [lra | nra].
  - apply Qlt_bool_false in A.
    destruct (Qlt_bool (spacing / mag) 5) eqn:B.
    + apply Qlt_bool_true in B. split; [right; left; reflexivity|].
      split; nra.
    + apply Qlt_bool_false in B. split; [right; right; reflexivity|].
      split; nra.
Qed.

Lemma niceInterval_rounds_down_witness :
  niceInterval log10Floor (tickSpacing sampleDom (scale afterAutoFit))
  <= tickSpacing sampleDom (scale afterAutoFit) /\
  tickSpacing sampleDom (scale afterAutoFit)
  < (5 # 2) * niceInterval log10Floor (tickSpacing sampleDom (scale afterAutoFit)).
Proof.
  apply (niceInterval_rounds_down log10Floor
           (tickSpacing sampleDom (scale afterAutoFit))).
  - vm_compute. discriminate.
  - vm_compute. reflexivity.
Defined.

Lemma Qfloor_le_Z (y : Q) (m : Z) : y < inject_Z (m + 1) -> (Qfloor y <= m)%Z.
Proof.
  intros H. pose proof (Qfloor_le y) as F.
  assert (L : inject_Z (Qfloor y) < inject_Z (m + 1)) by lra.
  rewrite <- Zlt_Qlt in L. lia.
Qed.

Lemma Qmax_inject_Z (a b : Z) : Qmax (inject_Z a) (inject_Z b) == inject_Z (Z.max a b).
Proof.
  destruct (Z.max_spec a b) as [[L ->] | [L ->]];
    pose proof (Q.max_spec (inject_Z a) (inject_Z b)) as S;
    [assert (inject_Z a < inject_Z b) by (rewrite <- Zlt_Qlt; lia)
    |assert (inject_Z b <= inject_Z a) by (rewrite <- Zle_Qle; lia)]; lra.
Qed.

(** The ruler bar is never thicker than the margin kept free for it. *)
Lemma rulerThickness_le_margin (d : Dom) :
  renderedCanvas d ->
  0 <= naturalWidth d -> 0 <= naturalHeight d ->
  rulerThickness d <= rulerMargin d.
Proof.
  intros [W H] NW NH.
  unfold rulerThickness, rulerScale. cbv zeta.
  unfold rulerMargin, JSMath.round, JSMath.max in *.
  set (D := Qmax (naturalWidth d) (naturalHeight d)) in *.
  assert (PD : 0 <= D /\ naturalWidth d <= D /\ naturalHeight d <= D
               /\ (D <= naturalWidth d \/ D <= naturalHeight d))
    by (unfold D; minmax; lra).
  set (k := Qfloor (D / 20 + (1 # 2))) in *.
  assert (K : D / 20 + (1 # 2) < inject_Z (k + 1)) by apply Qlt_floor.
  assert (M : Qmax 60 (inject_Z k) == inject_Z (Z.max 60 k))
    by (apply (Qmax_inject_Z 60 k)).
  assert (K' : inject_Z (k + 1) == inject_Z k + 1)
    by (rewrite inject_Z_plus; reflexivity).
  assert (E : D / 20 == D * (1 # 20)) by field.
  apply Qle_trans with (inject_Z (Z.max 60 k)); [|lra].
  rewrite <- Zle_Qle. apply Qfloor_le_Z.
  assert (I : inject_Z (Z.max 60 k + 1) == inject_Z (Z.max 60 k) + 1)
    by (rewrite inject_Z_plus; reflexivity).
  set (size := Qmax (canvas_width d) (canvas_height d)).
  assert (S : size == D + Qmax 60 (inject_Z k) * 2).
  { unfold size. clearbody D k. minmax. lra. }
  assert (F : size / 1000 == size * (1 # 1000)) by field.
  clearbody size D k.
  pose proof (Q.max_spec 1 (size / 1000)) as X.
  set (rs := Qmax 1 (size / 1000)) in *. clearbody rs.
  pose proof (Q.max_spec 60 (inject_Z k)) as Y. lra.
Qed.

Lemma rulerThickness_min (d : Dom) : 45 <= rulerThickness d.
Proof.
  unfold rulerThickness, JSMath.round, rulerScale, JSMath.max. cbv zeta.
  set (rs := Qmax 1 _).
  assert (R : 1 <= rs) by (unfold rs; apply Q.le_max_l).
  assert (F : (Qfloor 45 <= Qfloor (45 * rs + (1 # 2)))%Z)
    by (apply Qfloor_resp_le; lra).
  change (Qfloor 45) with 45%Z in F. rewrite Zle_Qle in F. exact F.
Qed.

(** X14: at 100 % the rulers leave the image free.  Once the render effect
    has sized the canvas, the ruler bar is at most as thick as the margin
    around the image, and in the full view (scale 1, translate (0, 0)) the
    border is stroked exactly around the image: from (margin, margin), with
    the natural size of the image. *)
Theorem border_at_full_view (d : Dom) (st : PanelState) :
  renderedCanvas d ->
  0 <= naturalWidth d -> 0 <= naturalHeight d ->
  scale st == 1 -> translateX st == 0 -> translateY st == 0 ->
  rulerThickness d <= rulerMargin d /\
  sameRegion (borderRect d st)
    (RegionSelection.mk (rulerMargin d) (rulerMargin d)
       (naturalWidth d) (naturalHeight d)).
Proof.
  intros R NW NH S X Y.
  pose proof (rulerThickness_le_margin d R NW NH) as T.
  pose proof (rulerMargin_pos d) as M.
  destruct R as [W H].
  split; [exact T|].
  unfold sameRegion, borderRect. cbv zeta.
  cbn [RegionSelection.x RegionSelection.y RegionSelection.width
       RegionSelection.height].
  unfold JSMath.max, JSMath.min.
  set (m := rulerMargin d) in *. set (t := rulerThickness d) in *.
  clearbody m t.
  assert (A : naturalWidth d * scale st == naturalWidth d) by (rewrite S; ring).
  assert (B : naturalHeight d * scale st == naturalHeight d) by (rewrite S; ring).
  set (w := naturalWidth d * scale st) in *.
  set (h := naturalHeight d * scale st) in *. clearbody w h.
  minmax. repeat split; lra.
Qed.

Lemma border_at_full_view_witness :
  rulerThickness sampleDom <= rulerMargin sampleDom /\
  sameRegion (borderRect sampleDom (imageOnLoad initialState))
    (RegionSelection.mk (rulerMargin sampleDom) (rulerMargin sampleDom) 1000 800).
Proof.
  apply (border_at_full_view sampleDom (imageOnLoad initialState)).
  - split; vm_compute; reflexivity.
  - vm_compute. discriminate.
  - vm_compute. discriminate.
  - reflexivity.
  - reflexivity.
  - reflexivity.
Defined.

Lemma displayScale_le (d : Dom) :
  0 < canvas_width d -> 0 < canvas_height d ->
  displayScale d * canvas_width d <= DOMRect.width (rect d) /\
  displayScale d * canvas_height d <= DOMRect.height (rect d).
Proof.
  intros W H. unfold displayScale, JSMath.min.
  assert (A : DOMRect.width (rect d) / canvas_width d * canvas_width d
              == DOMRect.width (rect d)) by (field; lra).
  assert (B : DOMRect.height (rect d) / canvas_height d * canvas_height d
              == DOMRect.height (rect d)) by (field; lra).
  set (a := DOMRect.width (rect d) / canvas_width d) in *.
  set (b := DOMRect.height (rect d) / canvas_height d) in *.
  clearbody a b. minmax. split; nra.
Qed.

(** X15: zoomed in, the border frames the whole viewport.  On an axis where
    the scaled image is larger than the canvas rectangle and the translate is
    one the boundary solver accepts, the border runs from the ruler bar to
    the far edge of the canvas. *)
Theorem border_when_zoomed_in (d : Dom) (st : PanelState) :
  0 < displayScale d ->
  0 < canvas_width d -> 0 < canvas_height d ->
  ~ scale st == 1 ->
  boundarySolved d st ->
  (DOMRect.width (rect d) < naturalWidth d * displayScale d * scale st ->
   RegionSelection.x (borderRect d st) == rulerThickness d /\
   RegionSelection.x (borderRect d st) + RegionSelection.width (borderRect d st)
   == canvas_width d) /\
  (DOMRect.height (rect d) < naturalHeight d * displayScale d * scale st ->
   RegionSelection.y (borderRect d st) == rulerThickness d /\
   RegionSelection.y (borderRect d st) + RegionSelection.height (borderRect d st)
   == canvas_height d).
Proof.
  intros P CW CH S [BX BY].
  destruct (displayScale_le d CW CH) as [LW LH].
  pose proof (rulerThickness_min d) as T.
  pose proof (constrainPan_x d (translateX st) (translateY st) (scale st) P S)
    as [_ AX].
  pose proof (constrainPan_y d (translateX st) (translateY st) (scale st) P S)
    as [_ AY].
  cbv zeta in AX, AY.
  set (rx := Point.x (constrainPan (Some d) (translateX st) (translateY st)
                        (scale st))) in *.
  set (ry := Point.y (constrainPan (Some d) (translateX st) (translateY st)
                        (scale st))) in *.
  clearbody rx ry.
  unfold borderRect. cbv zeta.
  cbn [RegionSelection.x RegionSelection.y RegionSelection.width
       RegionSelection.height].
  unfold JSMath.max, JSMath.min.
  set (m := rulerMargin d) in *. set (t := rulerThickness d) in *.
  set (ds := displayScale d) in *. clearbody m t.
  split; intros Z.
  - destruct (AX Z) as (_ & _ & _ & _ & L & R).
    set (w := naturalWidth d * scale st) in *. clearbody w.
    assert (translateX st + m + w >= canvas_width d) by nra.
    assert (translateX st + m <= 0) by nra.
    minmax. split; lra.
  - destruct (AY Z) as (_ & _ & _ & _ & L & R).
    set (h := naturalHeight d * scale st) in *. clearbody h.
    assert (translateY st + m + h >= canvas_height d) by nra.
    assert (translateY st + m <= 0) by nra.
    minmax. split; lra.
Qed.

Lemma border_when_zoomed_in_witness :
  RegionSelection.x
    (borderRect sampleDom (zoomIn (Some sampleDom) (zoomIn (Some sampleDom) afterAutoFit)))
  == rulerThickness sampleDom /\
  RegionSelection.x
    (borderRect sampleDom (zoomIn (Some sampleDom) (zoomIn (Some sampleDom) afterAutoFit)))
  + RegionSelection.width
      (borderRect sampleDom (zoomIn (Some sampleDom) (zoomIn (Some sampleDom) afterAutoFit)))
  == canvas_width sampleDom.
Proof.
  apply (border_when_zoomed_in sampleDom
           (zoomIn (Some sampleDom) (zoomIn (Some sampleDom) afterAutoFit))).
  - vm_compute. reflexivity.
  - vm_compute. reflexivity.
  - vm_compute. reflexivity.
  - vm_compute. discriminate.
  - split; vm_compute; reflexivity.
  - vm_compute. reflexivity.
Defined.

Section TickLoop.

Variables (d : Dom) (cs translate extent imgExtent b endTick : Q).

Let loop := tickLoop d cs translate extent imgExtent b endTick.
Let visible := tickVisible d cs translate extent imgExtent.

Lemma inject_Z_succ (k : nat) :
  inject_Z (Z.of_nat (S k)) == inject_Z (Z.of_nat k) + 1.
Proof. rewrite Nat2Z.inj_succ. unfold Z.succ. now rewrite inject_Z_plus. Qed.

Lemma tickLoop_sound (fuel : nat) :
  forall x t,
    In t (loop fuel x) ->
    visible (tickAt t) /\
    tickScreen t = translate + rulerMargin d + tickAt t * cs /\
    tickMajor t = Qeq_bool (JSrem (tickAt t) (b * 2)) 0 /\
    exists k, tickAt t == x + inject_Z (Z.of_nat k) * b.
Proof.
  unfold loop, visible.
  induction fuel as [|fuel IH]; intros x t I; [destruct I|].
  cbn [tickLoop] in I.
  destruct (Qle_bool x endTick); [|destruct I].
  assert (Rest : In t (tickLoop d cs translate extent imgExtent b endTick fuel
                         (x + b)) ->
                 tickVisible d cs translate extent imgExtent (tickAt t) /\
                 tickScreen t = translate + rulerMargin d + tickAt t * cs /\
                 tickMajor t = Qeq_bool (JSrem (tickAt t) (b * 2)) 0 /\
                 exists k, tickAt t == x + inject_Z (Z.of_nat k) * b).
  { intros J. destruct (IH _ _ J) as (V & Sc & M & k & E).
    split; [exact V|]. split; [exact Sc|]. split; [exact M|]. exists (S k).
    rewrite E, inject_Z_succ. ring. }
  destruct (Qlt_bool x 0) eqn:A; [exact (Rest I)|].
  destruct (Qlt_bool imgExtent x) eqn:B; [exact (Rest I)|].
  cbn [orb] in I.
  destruct (Qlt_bool (translate + rulerMargin d + x * cs) (rulerThickness d)) eqn:C;
    [exact (Rest I)|].
  destruct (Qlt_bool extent (translate + rulerMargin d + x * cs)) eqn:D;
    [exact (Rest I)|].
  cbn [orb] in I. destruct I as [<- | I]; [|exact (Rest I)].
  apply Qlt_bool_false in A, B, C, D. cbn.
  split; [repeat split; assumption|]. split; [reflexivity|].
  split; [reflexivity|]. exists O. cbn. ring.
Qed.

Lemma tickLoop_complete (fuel : nat) :
  0 <= b ->
  forall x k,
    (k < fuel)%nat ->
    x + inject_Z (Z.of_nat k) * b <= endTick ->
    visible (x + inject_Z (Z.of_nat k) * b) ->
    exists t, In t (loop fuel x) /\ tickAt t == x + inject_Z (Z.of_nat k) * b.
Proof.
  unfold loop, visible. intros Pb.
  induction fuel as [|fuel IH]; intros x k K E V; [lia|].
  assert (Nk : 0 <= inject_Z (Z.of_nat k))
    by (change 0 with (inject_Z 0); rewrite <- Zle_Qle; lia).
  assert (X : x <= endTick) by nra.
  cbn [tickLoop]. apply Qle_bool_iff in X. rewrite X.
  destruct k as [|k].
  - assert (Z : x + inject_Z (Z.of_nat 0) * b == x) by (cbn; ring).
    destruct V as (V1 & V2 & V3 & V4). rewrite Z in V1, V2, V3, V4.
    assert (A : Qlt_bool x 0 = false) by (apply Qlt_bool_false; lra).
    assert (B : Qlt_bool imgExtent x = false) by (apply Qlt_bool_false; lra).
    assert (C : Qlt_bool (translate + rulerMargin d + x * cs) (rulerThickness d)
                = false) by (apply Qlt_bool_false; lra).
    assert (D : Qlt_bool extent (translate + rulerMargin d + x * cs) = false)
      by (apply Qlt_bool_false; lra).
    rewrite A, B, C, D. cbn [orb]. eexists. split; [left; reflexivity|].
    cbn. now rewrite Z.
  - assert (Sk : x + b + inject_Z (Z.of_nat k) * b
                 == x + inject_Z (Z.of_nat (S k)) * b)
      by (rewrite inject_Z_succ; ring).
    destruct (IH (x + b) k) as (t & I & T).
    + lia.
    + rewrite Sk. exact E.
    + destruct V as (V1 & V2 & V3 & V4). unfold tickVisible.
      rewrite Sk. repeat split; assumption.
    + exists t. split; [|rewrite T; exact Sk].
      destruct (Qlt_bool x 0 || Qlt_bool imgExtent x)%bool; [exact I|].
      destruct (Qlt_bool (translate + rulerMargin d + x * cs) (rulerThickness d)
                || Qlt_bool extent (translate + rulerMargin d + x * cs))%bool;
        [exact I | right; exact I].
Qed.

End TickLoop.

Lemma niceInterval_bracket (Math_log10 : Q -> Q) (spacing : Q) :
  10 ^ Qfloor (Math_log10 spacing) <= spacing ->
  spacing < 10 * 10 ^ Qfloor (Math_log10 spacing) ->
  niceInterval Math_log10 spacing <= spacing /\
  spacing < (5 # 2) * niceInterval Math_log10 spacing.
Proof.
  intros L U. unfold niceInterval. cbv zeta.
  set (mag := 10 ^ Qfloor (Math_log10 spacing)) in *.
  assert (P : 0 < mag) by (apply Qpower_0_lt; reflexivity).
  assert (E : spacing / mag * mag == spacing) by (field; lra).
  destruct (Qlt_bool (spacing / mag) 2) eqn:A.
  - apply Qlt_bool_true in A. split; [lra | nra].
  - apply Qlt_bool_false in A.
    destruct (Qlt_bool (spacing / mag) 5) eqn:B.
    + apply Qlt_bool_true in B. split; nra.
    + apply Qlt_bool_false in B. split; nra.
Qed.

Lemma tick_step_on_canvas (d : Dom) (cs translate extent imgExtent b : Q)
    (t t' : Tick) :
  In t (rulerTicks d cs translate extent imgExtent b) ->
  In t' (rulerTicks d cs translate extent imgExtent b) ->
  tickAt t' == tickAt t + b ->
  tickScreen t' - tickScreen t == b * cs.
Proof.
  unfold rulerTicks. cbv zeta. intros I I' E.
  destruct (tickLoop_sound _ _ _ _ _ _ _ _ _ _ I) as (_ & S & _).
  destruct (tickLoop_sound _ _ _ _ _ _ _ _ _ _ I') as (_ & S' & _).
  rewrite S, S', E. ring.
Qed.

(** X12: the ticks the rulers are drawn with stay readable.  For an image
    of positive width, a positive scale and a positive [displayScale], with
    [Math.log10] giving the power of ten at or below the spacing, the
    interval of the ticks, [baseInterval], measured on screen
    (interval * scale * displayScale), is more than 16 and at most 150
    pixels: the spacing is first brought into [[40, 150]] and then rounded
    down, by less than a factor 2.5, to 1, 2 or 5 times a power of ten.  Two
    ticks of a ruler that are one interval apart are drawn that far apart
    on the canvas. *)
Theorem tick_interval_on_screen (Math_log10 : Q -> Q) (d : Dom)
    (st : PanelState) :
  0 < naturalWidth d ->
  0 < scale st ->
  0 < displayScale d ->
  let spacing := tickSpacing d (scale st) in
  let interval := baseInterval Math_log10 d (scale st) in
  10 ^ Qfloor (Math_log10 spacing) <= spacing ->
  spacing < 10 * 10 ^ Qfloor (Math_log10 spacing) ->
  (16 < interval * scale st * displayScale d /\
   interval * scale st * displayScale d <= 150) /\
  (forall t t',
     In t (xTicks d st interval) -> In t' (xTicks d st interval) ->
     tickAt t' == tickAt t + interval ->
     16 < (tickScreen t' - tickScreen t) * displayScale d /\
     (tickScreen t' - tickScreen t) * displayScale d <= 150) /\
  (forall t t',
     In t (yTicks d st interval) -> In t' (yTicks d st interval) ->
     tickAt t' == tickAt t + interval ->
     16 < (tickScreen t' - tickScreen t) * displayScale d /\
     (tickScreen t' - tickScreen t) * displayScale d <= 150).
Proof.
  intros Pw Pc Pd spacing interval L U.
  destruct (tickSpacing_on_screen d (scale st) Pw Pc Pd) as [Lo Hi].
  destruct (niceInterval_bracket Math_log10 spacing L U) as [Le Lt].
  fold spacing in Lo, Hi.
  change (niceInterval Math_log10 spacing) with interval in Le, Lt.
  assert (K : 0 < scale st * displayScale d) by nra.
  assert (B : 16 < interval * scale st * displayScale d /\
              interval * scale st * displayScale d <= 150).
  { set (k := scale st * displayScale d) in *.
    assert (E1 : interval * scale st * displayScale d == interval * k)
      by (unfold k; ring).
    assert (E2 : spacing * scale st * displayScale d == spacing * k)
      by (unfold k; ring).
    rewrite E1. rewrite E2 in Lo, Hi. clearbody k. split; nra. }
  split; [exact B|].
  split; intros t t' I I' E.
  - rewrite (tick_step_on_canvas _ _ _ _ _ _ _ _ I I' E). exact B.
  - rewrite (tick_step_on_canvas _ _ _ _ _ _ _ _ I I' E). exact B.
Qed.

Lemma tick_interval_on_screen_witness :
  baseInterval log10Floor sampleDom (scale afterAutoFit) == 50 /\
  16 < baseInterval log10Floor sampleDom (scale afterAutoFit)
       * scale afterAutoFit * displayScale sampleDom /\
  baseInterval log10Floor sampleDom (scale afterAutoFit)
  * scale afterAutoFit * displayScale sampleDom <= 150.
Proof.
  split; [vm_compute; reflexivity|].
  destruct (tick_interval_on_screen log10Floor sampleDom afterAutoFit)
    as (B & _).
  - reflexivity.
  - reflexivity.
  - reflexivity.
  - vm_compute. discriminate.
  - vm_compute. reflexivity.
  - exact B.
Defined.

Lemma inject_Z_of_to_nat (z : Z) :
  (0 <= z)%Z -> inject_Z (Z.of_nat (Z.to_nat z)) = inject_Z z.
Proof. intros H. now rewrite Z2Nat.id. Qed.

(** X16: the rulers show exactly the visible multiples of the interval.
    For a positive scale and interval, every tick of a ruler sits on a
    multiple of the interval that lies on the image and, on the canvas,
    between the ruler bar and the far edge, at canvas position
    translate + margin + x * scale; and every such multiple has its tick: the
    loop bounds leave none out. *)
Theorem rulerTicks_exact (d : Dom) (cs translate extent imgExtent b : Q) :
  0 < cs -> 0 < b ->
  (forall t,
     In t (rulerTicks d cs translate extent imgExtent b) ->
     tickVisible d cs translate extent imgExtent (tickAt t) /\
     tickScreen t = translate + rulerMargin d + tickAt t * cs /\
     exists z : Z, tickAt t == inject_Z z * b) /\
  (forall z : Z,
     tickVisible d cs translate extent imgExtent (inject_Z z * b) ->
     exists t,
       In t (rulerTicks d cs translate extent imgExtent b) /\
       tickAt t == inject_Z z * b).
Proof.
  intros Pc Pb. unfold rulerTicks. cbv zeta.
  set (lo := - (translate + rulerMargin d) / cs / b).
  set (hi := (extent - translate - rulerMargin d) / cs / b).
  set (first := Qfloor lo). set (last := Qceiling hi).
  assert (Lo : lo * cs * b == - (translate + rulerMargin d))
    by (unfold lo; field; split; lra).
  assert (Hi : hi * cs * b == extent - translate - rulerMargin d)
    by (unfold hi; field; split; lra).
  pose proof (Qfloor_le lo) as Fl. fold first in Fl.
  pose proof (Qle_ceiling hi) as Ce. fold last in Ce.
  clearbody lo hi.
  split.
  - intros t I.
    destruct (tickLoop_sound d cs translate extent imgExtent b _ _ _ _ I)
      as (V & S & _ & k & E).
    split; [exact V|]. split; [exact S|].
    exists (first + Z.of_nat k)%Z. rewrite E, inject_Z_plus. ring.
  - intros z V.
    pose proof (rulerThickness_min d) as T.
    destruct V as (V1 & V2 & V3 & V4).
    assert (Pcb : 0 < cs * b) by nra.
    assert (A : lo <= inject_Z z) by nra.
    assert (B : inject_Z z <= hi) by nra.
    assert (Zlo : (first <= z)%Z) by (rewrite Zle_Qle; lra).
    assert (Zhi : (z <= last)%Z) by (rewrite Zle_Qle; lra).
    assert (K : inject_Z first * b + inject_Z (Z.of_nat (Z.to_nat (z - first))) * b
                == inject_Z z * b).
    { rewrite inject_Z_of_to_nat by lia.
      unfold Zminus. rewrite inject_Z_plus, inject_Z_opp. ring. }
    destruct (tickLoop_complete d cs translate extent imgExtent b
                (inject_Z last * b) (Z.to_nat (last - first + 1))
                (Qlt_le_weak _ _ Pb) (inject_Z first * b)
                (Z.to_nat (z - first))) as (t & I & E).
    + lia.
    + rewrite K. assert (inject_Z z <= inject_Z last) by (rewrite <- Zle_Qle; lia).
      nra.
    + unfold tickVisible. rewrite K. repeat split; assumption.
    + exists t. split; [exact I|]. rewrite E. exact K.
Qed.

Lemma rulerTicks_exact_witness :
  0 < scale afterAutoFit /\
  exists t,
    In t (xTicks sampleDom afterAutoFit 50) /\ tickAt t == inject_Z 3 * 50.
Proof.
  split; [reflexivity|].
  destruct (rulerTicks_exact sampleDom (scale afterAutoFit)
              (translateX afterAutoFit) (canvas_width sampleDom)
              (naturalWidth sampleDom) 50) as [_ C];
    [reflexivity | reflexivity |].
  apply (C 3%Z). vm_compute. repeat split; discriminate.
Defined.

Lemma Qtruncate_half (z : Z) (q : Q) :
  q == inject_Z z / 2 ->
  Qtruncate q = (if (0 <=? z)%Z then z / 2 else - (- z / 2))%Z.
Proof.
  intros E. unfold Qtruncate.
  assert (H : inject_Z z / 2 == inject_Z z * (1 # 2)) by field.
  destruct (0 <=? z)%Z eqn:S.
  - apply Z.leb_le in S.
    assert (P : 0 <= q)
      by (rewrite E, H; assert (0 <= inject_Z z)
            by (change 0 with (inject_Z 0); rewrite <- Zle_Qle; lia); lra).
    apply Qle_bool_iff in P. rewrite P.
    rewrite (Qfloor_comp _ _ E). symmetry. apply (Zdiv_Qdiv z 2).
  - apply Z.leb_gt in S.
    assert (P : q < 0)
      by (rewrite E, H; assert (inject_Z z < 0)
            by (change 0 with (inject_Z 0); rewrite <- Zlt_Qlt; lia); lra).
    destruct (Qle_bool 0 q) eqn:L; [apply Qle_bool_iff in L; lra|].
    unfold Qceiling. f_equal.
    assert (N : - q == inject_Z (- z) / inject_Z 2)
      by (rewrite E, inject_Z_opp; field).
    rewrite (Qfloor_comp _ _ N). symmetry. apply (Zdiv_Qdiv (- z) 2).
Qed.

Lemma JSrem_multiple (b x : Q) (z : Z) :
  0 < b -> x == inject_Z z * b ->
  Qeq_bool (JSrem x (b * 2)) 0 = Z.even z.
Proof.
  intros Pb E. unfold JSrem.
  assert (Q2 : x / (b * 2) == inject_Z z / 2) by (rewrite E; field; lra).
  rewrite (Qtruncate_half z _ Q2).
  set (w := (if (0 <=? z)%Z then z / 2 else - (- z / 2))%Z).
  assert (R : x - b * 2 * inject_Z w == b * inject_Z (z - 2 * w)).
  { rewrite E. unfold Zminus. rewrite inject_Z_plus, inject_Z_opp, inject_Z_mult.
    change (inject_Z 2) with 2. ring. }
  pose proof (Z.div_mod z 2 ltac:(lia)) as D1.
  pose proof (Z.mod_pos_bound z 2 ltac:(lia)) as D2.
  pose proof (Z.div_mod (- z) 2 ltac:(lia)) as D3.
  pose proof (Z.mod_pos_bound (- z) 2 ltac:(lia)) as D4.
  destruct (Z.even z) eqn:Ev.
  - apply Z.even_spec in Ev. destruct Ev as [m Em].
    assert (W : (z - 2 * w = 0)%Z).
    { unfold w. destruct (0 <=? z)%Z; lia. }
    apply Qeq_bool_iff. rewrite R, W. ring.
  - assert (Od : Z.odd z = true) by (rewrite <- Z.negb_even, Ev; reflexivity).
    apply Z.odd_spec in Od. destruct Od as [m Em].
    assert (W : (z - 2 * w <> 0)%Z).
    { unfold w. destruct (0 <=? z)%Z; lia. }
    destruct (Qeq_bool (x - b * 2 * inject_Z w) 0) eqn:B; [|reflexivity].
    apply Qeq_bool_iff in B. rewrite R in B. exfalso.
    assert (I : ~ inject_Z (z - 2 * w) == 0).
    { change 0 with (inject_Z 0). rewrite inject_Z_injective. exact W. }
    apply I. apply (Qmult_integral_l b); [lra | exact B].
Qed.

(** X17: every second tick is a major one.  For a positive scale and
    interval, a tick at the multiple z * interval is major (long, labelled)
    exactly when z is even, that is, when the position is a multiple of
    twice the interval. *)
Theorem major_ticks_alternate (d : Dom) (cs translate extent imgExtent b : Q)
    (t : Tick) (z : Z) :
  0 < cs ->
  0 < b ->
  In t (rulerTicks d cs translate extent imgExtent b) ->
  tickAt t == inject_Z z * b ->
  tickMajor t = Z.even z.
Proof.
  intros _ Pb I E. unfold rulerTicks in I. cbv zeta in I.
  destruct (tickLoop_sound d cs translate extent imgExtent b _ _ _ _ I)
    as (_ & _ & M & _).
  rewrite M. now apply JSrem_multiple.
Qed.

Lemma major_ticks_alternate_witness :
  tickMajor (nth 3 (xTicks sampleDom afterAutoFit 50) (mkTick 0 0 true))
  = Z.even 3.
Proof.
  apply (major_ticks_alternate sampleDom (scale afterAutoFit)
           (translateX afterAutoFit) (canvas_width sampleDom)
           (naturalWidth sampleDom) 50 _ 3%Z).
  - reflexivity.
  - reflexivity.
  - apply nth_In. vm_compute. lia.
  - vm_compute. reflexivity.
Defined.

(** ** The render effect *)

(** X18: labels and ruler ticks are drawn where the image points are.  The
    labels and the rulers are drawn after [ctx.restore()], with their canvas
    positions written out; for a positive scale and tick interval these
    agree with the matrix the image and the polygons are drawn under: a
    label anchored at an image point sits on the drawn point, and a tick of
    the top (left) ruler stands at the canvas x (y) at which the image
    column (row) of its value is drawn. *)
Theorem overlays_drawn_with_image (d : Dom) (st : PanelState) (b : Q) :
  0 < scale st ->
  0 < b ->
  (forall p,
     Point.x (imageToCanvas d st p)
     == Point.x (transformPoint (renderMatrix d st) p) /\
     Point.y (imageToCanvas d st p)
     == Point.y (transformPoint (renderMatrix d st) p)) /\
  (forall t y,
     In t (xTicks d st b) ->
     tickScreen t
     == Point.x (transformPoint (renderMatrix d st) (Point.mk (tickAt t) y))) /\
  (forall t x,
     In t (yTicks d st b) ->
     tickScreen t
     == Point.y (transformPoint (renderMatrix d st) (Point.mk x (tickAt t)))).
Proof.
  intros _ _. split; [|split].
  - intros p. unfold imageToCanvas, transformPoint, renderMatrix, ctx_scale,
      ctx_translate, identityMatrix. cbn. split; ring.
  - intros t y I. unfold xTicks, rulerTicks in I. cbv zeta in I.
    destruct (tickLoop_sound _ _ _ _ _ _ _ _ _ _ I) as (_ & S & _).
    rewrite S. unfold transformPoint, renderMatrix, ctx_scale,
      ctx_translate, identityMatrix. cbn. ring.
  - intros t x I. unfold yTicks, rulerTicks in I. cbv zeta in I.
    destruct (tickLoop_sound _ _ _ _ _ _ _ _ _ _ I) as (_ & S & _).
    rewrite S. unfold transformPoint, renderMatrix, ctx_scale,
      ctx_translate, identityMatrix. cbn. ring.
Qed.

Lemma overlays_drawn_with_image_witness :
  tickScreen (nth 2 (xTicks sampleDom afterAutoFit 50) (mkTick 0 0 true))
  == Point.x (transformPoint (renderMatrix sampleDom afterAutoFit)
                (Point.mk
                   (tickAt (nth 2 (xTicks sampleDom afterAutoFit 50)
                              (mkTick 0 0 true)))
                   0)).
Proof.
  destruct (overlays_drawn_with_image sampleDom afterAutoFit 50)
    as (_ & T & _); [reflexivity | reflexivity |].
  apply T. apply nth_In. vm_compute. lia.
Defined.

Lemma fold_sum_bounds (A : Type) (f : A -> Q) (lo hi : Q) (l : list A) :
  (forall v, In v l -> lo <= f v /\ f v <= hi) ->
  forall a,
    a + inject_Z (Z.of_nat (List.length l)) * lo
    <= fold_left (fun sum c => sum + f c) l a /\
    fold_left (fun sum c => sum + f c) l a
    <= a + inject_Z (Z.of_nat (List.length l)) * hi.
Proof.
  induction l as [|v l IH]; intros B a.
  - cbn [fold_left List.length Z.of_nat]. change (inject_Z 0) with 0.
    split; lra.
  - cbn [fold_left List.length]. rewrite inject_Z_succ.
    destruct (B v (or_introl eq_refl)) as [L H].
    destruct (IH (fun w I => B w (or_intror I)) (a + f v)) as [L' H'].
    split; lra.
Qed.

(** X19: the label anchor lies within the extent of its polygon.  For a box
    with at least one vertex the centroid, where the label is anchored on
    screen and in the export, lies in every axis-parallel rectangle that
    contains all the vertices. *)
Theorem centroid_within_bounds (coords : list (Q * Q)) (x0 x1 y0 y1 : Q) :
  coords <> [] ->
  (forall v, In v coords ->
     (x0 <= fst v /\ fst v <= x1) /\ (y0 <= snd v /\ snd v <= y1)) ->
  (x0 <= Point.x (centroid coords) /\ Point.x (centroid coords) <= x1) /\
  (y0 <= Point.y (centroid coords) /\ Point.y (centroid coords) <= y1).
Proof.
  intros NE B. unfold centroid. cbn [Point.x Point.y].
  assert (N : 0 < inject_Z (Z.of_nat (List.length coords))).
  { change 0 with (inject_Z 0). rewrite <- Zlt_Qlt.
    destruct coords; [congruence | cbn [List.length]; lia]. }
  destruct (fold_sum_bounds _ fst x0 x1 coords (fun v I => proj1 (B v I)) 0)
    as [Lx Hx].
  destruct (fold_sum_bounds _ snd y0 y1 coords (fun v I => proj2 (B v I)) 0)
    as [Ly Hy].
  set (n := inject_Z (Z.of_nat (List.length coords))) in *.
  set (sx := fold_left (fun sum c => sum + fst c) coords 0) in *.
  set (sy := fold_left (fun sum c => sum + snd c) coords 0) in *.
  clearbody n sx sy.
  repeat split.
  - apply Qle_shift_div_l; [exact N | lra].
  - apply Qle_shift_div_r; [exact N | lra].
  - apply Qle_shift_div_l; [exact N | lra].
  - apply Qle_shift_div_r; [exact N | lra].
Qed.

Lemma centroid_within_bounds_witness :
  (100 <= Point.x (centroid (coordinates sampleBox)) /\
   Point.x (centroid (coordinates sampleBox)) <= 300) /\
  (100 <= Point.y (centroid (coordinates sampleBox)) /\
   Point.y (centroid (coordinates sampleBox)) <= 300).
Proof.
  apply (centroid_within_bounds (coordinates sampleBox) 100 300 100 300).
  - discriminate.
  - intros v I. cbn in I.
    destruct I as [<- | [<- | [<- | [<- | []]]]]; cbn; repeat split; lra.
Defined.

(** X20: the decorations of the region rectangle keep their size on the
    canvas up to 200 %.  At a valid scale the upper clamp of [uiScale] is
    never reached; while scale <= 2 the handle size and the line width, drawn
    under the zoom, come out as 10 and 2.5 canvas pixels whatever the zoom,
    and from scale 2 on they are 5 and 1.25 image pixels, so they grow with
    the zoom. *)
Theorem region_chrome_on_canvas (s : Q) :
  1 <= s -> s <= 10 ->
  clampedUiScale s <= 1 /\
  (s <= 2 ->
   regionHandleSize s * s == 10 /\ regionLineWidth s * s == 2.5) /\
  (2 <= s ->
   regionHandleSize s == 5 /\ regionLineWidth s == 1.25).
Proof.
  intros L H. unfold regionHandleSize, regionLineWidth, clampedUiScale.
  cbv zeta. set (u := 1 / s).
  assert (U : u * s == 1) by (unfold u; field; lra).
  clearbody u. minmax.
  assert (A : s <= 2 -> 0.5 <= u) by (intros; nra).
  assert (B : 2 <= s -> u <= 0.5) by (intros; nra).
  assert (C : u <= 1) by nra.
  split; [lra|]. split; intros K.
  - specialize (A K). assert (E : m0 == u) by lra. rewrite E. split; lra.
  - specialize (B K). assert (E : m0 == 0.5) by lra. rewrite E. split; lra.
Qed.

Lemma region_chrome_on_canvas_witness :
  regionHandleSize (scale afterAutoFit) * scale afterAutoFit == 10.
Proof.
  destruct (region_chrome_on_canvas (scale afterAutoFit))
    as (_ & K & _); [discriminate | discriminate |].
  apply K. discriminate.
Defined.

(** ** Detections in the parent page *)

Lemma list_pair_ind (A : Type) (P : list A -> Prop) :
  P [] -> (forall a, P [a]) -> (forall a b l, P l -> P (a :: b :: l)) ->
  forall l, P l.
Proof.
  intros H0 H1 H2. fix IH 1. intros [|a [|b l]].
  - exact H0.
  - apply H1.
  - apply H2, IH.
Qed.

(** X21: a flat coordinate array becomes its list of vertices.  The
    conversion is defined exactly for the arrays of even length; the result
    has half as many vertices as the array has numbers, and vertex i is
    (flat[2i] * width, flat[2i+1] * height). *)
Theorem denormalize_pairs (imgWidth imgHeight : Q) (flatCoords : list Q) :
  (Nat.even (List.length flatCoords) = true <->
   exists coordinates,
     denormalize imgWidth imgHeight flatCoords = Some coordinates) /\
  (forall coordinates,
     denormalize imgWidth imgHeight flatCoords = Some coordinates ->
     List.length flatCoords = (2 * List.length coordinates)%nat /\
     forall i,
       (i < List.length coordinates)%nat ->
       nth i coordinates (0, 0)
       = (nth (2 * i) flatCoords 0 * imgWidth,
          nth (2 * i + 1) flatCoords 0 * imgHeight)).
Proof.
  induction flatCoords as [|a|a b l IH] using list_pair_ind.
  - split.
    + split; [intros _; exists []; reflexivity | reflexivity].
    + cbn. intros cs [= <-]. split; [reflexivity|]. cbn. intros i L. lia.
  - split.
    + split; [discriminate | intros [cs E]; discriminate].
    + cbn. intros cs E. discriminate.
  - destruct IH as [IH1 IH2].
    change (denormalize imgWidth imgHeight (a :: b :: l))
      with (match denormalize imgWidth imgHeight l with
            | Some coordinates =>
                Some ((a * imgWidth, b * imgHeight) :: coordinates)
            | None => None
            end).
    change (Nat.even (List.length (a :: b :: l)))
      with (Nat.even (List.length l)).
    split.
    + rewrite IH1. split.
      * intros [cs E]. rewrite E. eexists. reflexivity.
      * intros [cs E].
        destruct (denormalize imgWidth imgHeight l) as [cs'|];
          [exists cs'; reflexivity | discriminate].
    + intros cs E.
      destruct (denormalize imgWidth imgHeight l) as [cs'|] eqn:D;
        [|discriminate].
      injection E as <-. destruct (IH2 cs' eq_refl) as [Len Nth].
      split; [cbn [List.length]; lia|].
      intros [|i] L.
      * reflexivity.
      * cbn [List.length] in L.
        replace (2 * S i)%nat with (S (S (2 * i))) by lia.
        replace (S (S (2 * i)) + 1)%nat with (S (S (2 * i + 1))) by lia.
        cbn [nth]. apply Nth. lia.
Qed.

Lemma denormalize_pairs_witness :
  exists coordinates,
    denormalize 1000 800 (hd [] sampleObbs) = Some coordinates.
Proof.
  destruct (denormalize_pairs 1000 800 (hd [] sampleObbs)) as [[K _] _].
  apply K. reflexivity.
Defined.

Lemma denormalize_inside (imgWidth imgHeight : Q) (flatCoords : list Q) :
  0 <= imgWidth -> 0 <= imgHeight ->
  Forall normalised flatCoords ->
  forall coordinates,
    denormalize imgWidth imgHeight flatCoords = Some coordinates ->
    Forall (insideImage imgWidth imgHeight) coordinates.
Proof.
  intros W H.
  induction flatCoords as [|a|a b l IH] using list_pair_ind; intros N cs E.
  - injection E as <-. constructor.
  - discriminate.
  - cbn in E.
    destruct (denormalize imgWidth imgHeight l) as [cs'|]; [|discriminate].
    injection E as <-.
    inversion N as [|? ? [A0 A1] N']; subst.
    inversion N' as [|? ? [B0 B1] N'']; subst.
    constructor; [|apply IH; [assumption | reflexivity]].
    unfold insideImage. cbn [fst snd]. repeat split; nra.
Qed.

(** X22: normalised detections land inside the image.  When every number
    of every array is within [[0, 1]], every vertex of every box the page
    hands to the panel lies within [[0, width] x [0, height]]. *)
Theorem detections_inside_image (imgWidth imgHeight : Q) (idx : nat)
    (obbs : list (list Q)) (boxes : list BoundingBox) :
  0 <= imgWidth -> 0 <= imgHeight ->
  Forall (Forall normalised) obbs ->
  boxesOfObbs imgWidth imgHeight idx obbs = Some boxes ->
  forall box v,
    In box boxes -> In v (coordinates box) ->
    insideImage imgWidth imgHeight v.
Proof.
  intros W H. revert idx boxes.
  induction obbs as [|flat obbs IH]; intros idx boxes N E box v Ib Iv.
  - injection E as <-. destruct Ib.
  - cbn in E.
    destruct (denormalize imgWidth imgHeight flat) as [cs|] eqn:D;
      [|discriminate].
    destruct (boxesOfObbs imgWidth imgHeight (S idx) obbs) as [bs|] eqn:B;
      [|discriminate].
    injection E as <-. inversion N as [|? ? Nf No]; subst.
    destruct Ib as [<- | Ib].
    + cbn in Iv.
      pose proof (denormalize_inside _ _ _ W H Nf _ D) as F.
      rewrite Forall_forall in F. now apply F.
    + exact (IH (S idx) bs No B box v Ib Iv).
Qed.

Lemma detections_inside_image_witness :
  insideImage 1000 800 (0.3 * 1000, 0.4 * 800).
Proof.
  apply (detections_inside_image 1000 800 0 sampleObbs sampleDetections
           ltac:(discriminate) ltac:(discriminate)
           ltac:(repeat constructor; discriminate) eq_refl
           (hd (mkBoundingBox "" []) sampleDetections)).
  - left. reflexivity.
  - right. left. reflexivity.
Defined.

Lemma to_uint_not_Nil (n : nat) : Nat.to_uint n <> Nil.
Proof.
  intros E. pose proof (Unsigned.of_to n) as K. rewrite E in K.
  cbn in K. subst n. discriminate E.
Qed.

Lemma objectName_inj (i j : nat) : objectName i = objectName j -> i = j.
Proof.
  unfold objectName. intros E. cbn [append] in E.
  injection E as E.
  assert (U : Some (Nat.to_uint (i + 1)) = Some (Nat.to_uint (j + 1))).
  { rewrite <- (NilZero.usu _ (to_uint_not_Nil (i + 1))),
            <- (NilZero.usu _ (to_uint_not_Nil (j + 1))).
    now rewrite E. }
  injection U as U. apply Unsigned.to_uint_inj in U. lia.
Qed.

Lemma boxesOfObbs_ids (imgWidth imgHeight : Q) (obbs : list (list Q)) :
  forall idx boxes,
    boxesOfObbs imgWidth imgHeight idx obbs = Some boxes ->
    map object_id boxes = map objectName (seq idx (List.length obbs)).
Proof.
  induction obbs as [|flat obbs IH]; intros idx boxes E.
  - injection E as <-. reflexivity.
  - cbn in E.
    destruct (denormalize imgWidth imgHeight flat) as [cs|]; [|discriminate].
    destruct (boxesOfObbs imgWidth imgHeight (S idx) obbs) as [bs|] eqn:B;
      [|discriminate].
    injection E as <-. cbn. f_equal. now apply IH.
Qed.

Lemma NoDup_map_inj (A B : Type) (f : A -> B) (l : list A) :
  (forall a b, f a = f b -> a = b) -> NoDup l -> NoDup (map f l).
Proof.
  intros Inj N. induction N as [|a l Na N IH]; cbn; constructor.
  - intros I. apply in_map_iff in I. destruct I as (b & E & I).
    apply Inj in E. subst b. contradiction.
  - exact IH.
Qed.

(** X23: the detections get the ids object_1, object_2, ... in order, all
    distinct.  The page makes one box for each array, box number i (from 0)
    is named "object_" followed by i + 1, and no two boxes of one answer
    share an id, so that a selection by id designates one box. *)
Theorem detection_ids_distinct (imgWidth imgHeight : Q)
    (obbs : list (list Q)) (boxes : list BoundingBox) :
  boxesOfObbs imgWidth imgHeight 0 obbs = Some boxes ->
  List.length boxes = List.length obbs /\
  (forall i box, nth_error boxes i = Some box -> object_id box = objectName i) /\
  NoDup (map object_id boxes).
Proof.
  intros E. pose proof (boxesOfObbs_ids _ _ _ _ _ E) as M.
  split; [|split].
  - rewrite <- (length_map object_id), M, length_map. apply length_seq.
  - intros i box Nb.
    pose proof (map_nth_error object_id _ _ Nb) as K. rewrite M in K.
    destruct (nth_error (seq 0 (List.length obbs)) i) as [k|] eqn:Sq.
    + rewrite (map_nth_error objectName _ _ Sq) in K.
      injection K as K.
      assert (L : (i < List.length (seq 0 (List.length obbs)))%nat)
        by (apply nth_error_Some; congruence).
      rewrite length_seq in L.
      pose proof (@seq_nth (List.length obbs) 0%nat i 0%nat L) as Sn.
      apply (nth_error_nth _ _ 0%nat) in Sq. rewrite Sn in Sq.
      cbn in Sq. subst k. now symmetry.
    + apply nth_error_None in Sq. rewrite length_seq in Sq.
      assert (L : (i < List.length (map objectName (seq 0 (List.length obbs))))%nat)
        by (apply nth_error_Some; congruence).
      rewrite length_map, length_seq in L. lia.
  - rewrite M. apply NoDup_map_inj; [exact objectName_inj | apply seq_NoDup].
Qed.

Lemma detection_ids_distinct_witness :
  List.length sampleDetections = List.length sampleObbs /\
  (forall i box,
     nth_error sampleDetections i = Some box -> object_id box = objectName i) /\
  NoDup (map object_id sampleDetections).
Proof.
  apply (detection_ids_distinct 1000 800 sampleObbs sampleDetections).
  reflexivity.
Defined.

Lemma rename_bounds (objectId newName : string) (boxes : list BoundingBox) :
  forall acc,
    fold_left (fun b box => boundsOfVertices b (coordinates box))
      (handleObjectRename objectId newName boxes) acc
    = fold_left (fun b box => boundsOfVertices b (coordinates box)) boxes acc.
Proof.
  unfold handleObjectRename.
  induction boxes as [|box boxes IH]; intros acc; [reflexivity|].
  cbn [map fold_left]. rewrite IH.
  now destruct (String.eqb (object_id box) objectId).
Qed.

Lemma rename_ids (objectId newName : string) (boxes : list BoundingBox) :
  map object_id (handleObjectRename objectId newName boxes)
  = map (fun id => if String.eqb id objectId then newName else id)
      (map object_id boxes).
Proof.
  unfold handleObjectRename. rewrite !map_map. apply map_ext.
  intros box. now destruct (String.eqb (object_id box) objectId).
Qed.

(** X24: a rename changes the name and nothing else.  [handleObjectRename]
    keeps the number, the order and the vertices of the boxes, so the
    auto-zoom effect, which runs again because the array is a new one, fits
    the same view as for the boxes before the rename; a rename of an id no
    box has changes nothing; and ids that were distinct stay distinct when
    the new name is not in use. *)
Theorem rename_keeps_geometry (refs : option Dom) (props : Props)
    (st : PanelState) (objectId newName : string) :
  let boxes := boundingBoxes props in
  let renamed := handleObjectRename objectId newName boxes in
  map coordinates renamed = map coordinates boxes /\
  autoZoomEffect refs (setBoundingBoxes renamed props) st
  = autoZoomEffect refs props st /\
  (~ In objectId (map object_id boxes) -> renamed = boxes) /\
  (NoDup (map object_id boxes) -> ~ In newName (map object_id boxes) ->
   NoDup (map object_id renamed)).
Proof.
  intros boxes renamed. split; [|split; [|split]].
  - unfold renamed, handleObjectRename. rewrite map_map. apply map_ext.
    intros box. now destruct (String.eqb (object_id box) objectId).
  - unfold autoZoomEffect, autoZoomWrites.
    cbn [boundingBoxes maskUrl setBoundingBoxes].
    fold boxes. unfold renamed at 1, handleObjectRename at 1.
    rewrite length_map.
    assert (A : forall d, autoZoomJS d renamed = autoZoomJS d boxes).
    { intros d. unfold autoZoomJS, boundsOfBoxes, renamed.
      now rewrite rename_bounds. }
    destruct refs as [d|]; [|reflexivity]. now rewrite A.
  - intros NI. unfold renamed, handleObjectRename.
    rewrite <- (map_id boxes) at 2. apply map_ext_in. intros box I.
    destruct (String.eqb (object_id box) objectId) eqn:E; [|reflexivity].
    apply String.eqb_eq in E. exfalso. apply NI. rewrite <- E.
    now apply in_map.
  - intros ND NN. unfold renamed. rewrite rename_ids.
    induction (map object_id boxes) as [|a l IH]; [constructor|].
    inversion ND as [|? ? Na Nl]; subst. cbn [map]. constructor.
    + intros I. apply in_map_iff in I. destruct I as (b & E & Ib).
      destruct (String.eqb a objectId) eqn:Ea,
               (String.eqb b objectId) eqn:Eb.
      * apply String.eqb_eq in Ea, Eb. subst. contradiction.
      * subst b. apply NN. now right.
      * subst a. apply NN. now left.
      * subst b. contradiction.
    + apply IH; [exact Nl | intros I; apply NN; now right].
Qed.

Lemma rename_keeps_geometry_witness :
  NoDup
    (map object_id
       (handleObjectRename "object_2" "tower"
          (boundingBoxes (setBoundingBoxes sampleDetections sampleProps)))).
Proof.
  destruct (rename_keeps_geometry (Some sampleDom)
              (setBoundingBoxes sampleDetections sampleProps) afterAutoFit
              "object_2" "tower") as (_ & _ & _ & K).
  apply K.
  - cbn. repeat constructor; cbn; intuition discriminate.
  - cbn. intuition discriminate.
Defined.

(** ** The auto-zoom effect *)

(** X25: the auto-fit replaces the view; it does not adjust it.  With the
    image loaded and at least one box, the scale and translate the effect
    sets do not depend on the view before it, so a manual zoom or pan is
    lost when the effect runs; and running the effect again on its own
    result changes nothing. *)
Theorem autoZoom_overrides_view (d : Dom) (props : Props)
    (st1 st2 st1' : PanelState) :
  imageLoaded st1 = true -> imageLoaded st2 = true ->
  boundingBoxes props <> [] ->
  autoZoomEffect (Some d) props st1 = Some st1' ->
  (exists st2',
     autoZoomEffect (Some d) props st2 = Some st2' /\ sameView st1' st2') /\
  autoZoomEffect (Some d) props st1' = Some st1'.
Proof.
  intros L1 L2 NE E. unfold autoZoomEffect, autoZoomWrites in *.
  rewrite L1 in E. rewrite L2.
  destruct (boundingBoxes props) as [|box boxes] eqn:B; [congruence|].
  cbn [List.length Nat.eqb negb orb] in *.
  destruct (truthy (maskUrl props)).
  - injection E as <-. split.
    + eexists. split; [reflexivity|]. repeat split.
    + destruct st1; cbn in *. now rewrite L1.
  - destruct (JSNum.finite (scaleArg (autoZoomJS d (box :: boxes))))
      as [s|] eqn:S; [|discriminate].
    destruct (JSNum.finite (translateXArg (autoZoomJS d (box :: boxes))))
      as [x|] eqn:X; [|discriminate].
    destruct (JSNum.finite (translateYArg (autoZoomJS d (box :: boxes))))
      as [y|] eqn:Y; [|discriminate].
    injection E as <-. split.
    + eexists. split; [reflexivity|]. repeat split.
    + destruct st1; cbn in *. rewrite L1. cbn. now rewrite S, X, Y.
Qed.

Lemma autoZoom_overrides_view_witness :
  autoZoomEffect (Some sampleDom) sampleProps afterAutoFit = Some afterAutoFit.
Proof.
  apply (autoZoom_overrides_view sampleDom sampleProps
           (imageOnLoad initialState) (imageOnLoad initialState) afterAutoFit).
  - reflexivity.
  - reflexivity.
  - discriminate.
  - reflexivity.
Defined.

(** X26: the padded region covers the detections.  The region the effect
    fits, centred at (centerX, centerY) with size paddedWidth x
    paddedHeight, lies within the image and contains every vertex of every
    box that lies within the image. *)
Theorem padded_region_covers_detections (d : Dom) (boxes : list BoundingBox)
    (z : AutoZoom) :
  positiveGeometry d ->
  autoZoom d boxes = Some z ->
  (0 <= centerX z - paddedWidth z / 2 /\
   centerX z + paddedWidth z / 2 <= naturalWidth d) /\
  (0 <= centerY z - paddedHeight z / 2 /\
   centerY z + paddedHeight z / 2 <= naturalHeight d) /\
  forall box v,
    In box boxes -> In v (coordinates box) ->
    insideImage (naturalWidth d) (naturalHeight d) v ->
    (centerX z - paddedWidth z / 2 <= fst v /\
     fst v <= centerX z + paddedWidth z / 2) /\
    (centerY z - paddedHeight z / 2 <= snd v /\
     snd v <= centerY z + paddedHeight z / 2).
Proof.
  intros G E.
  assert (F : finiteBounds (boundsOfBoxes boxes)).
  { unfold autoZoom in E. unfold finiteBounds.
    destruct (boundsOfBoxes boxes) as [[| a |] [| b |] [| c |] [| e |]];
      cbn in E; try discriminate.
    now exists a, b, c, e. }
  destruct F as (x0 & y0 & x1 & y1 & B).
  destruct (autoZoom_solved d boxes x0 y0 x1 y1 B G)
    as (z' & E' & CX & CY & PW & PH & _).
  rewrite E in E'. injection E' as <-.
  rewrite CX, CY, PW, PH. clear CX CY PW PH.
  destruct G as (W & H & _).
  set (padding := Qmax (x1 - x0) (y1 - y0) * 1.2).
  assert (Enc := boundsOfBoxes_encloses boxes x0 y0 x1 y1 B).
  assert (P : (exists box x y, In box boxes /\ In (x, y) (coordinates box)) ->
              0 <= padding).
  { intros (box & x & y & Ib & Iv).
    destruct (Enc box x y Ib Iv) as ((A0 & A1) & _).
    unfold padding. pose proof (Q.le_max_l (x1 - x0) (y1 - y0)). lra. }
  clearbody padding.
  assert (HS : forall a b : Q, (a + b) / 2 - (b - a) / 2 == a)
    by (intros; field).
  assert (HA : forall a b : Q, (a + b) / 2 + (b - a) / 2 == b)
    by (intros; field).
  split; [|split].
  - rewrite HS, HA. minmax. split; lra.
  - rewrite HS, HA. minmax. split; lra.
  - intros box [x y] Ib Iv ((X0 & X1) & (Y0 & Y1)). cbn [fst snd] in *.
    destruct (Enc box x y Ib Iv) as ((A0 & A1) & (B0 & B1)).
    assert (P' : 0 <= padding) by (apply P; now exists box, x, y).
    rewrite !HS, !HA. minmax. repeat split; lra.
Qed.

Lemma padded_region_covers_detections_witness :
  exists z,
    autoZoom sampleDom (boundingBoxes sampleProps) = Some z /\
    centerX z - paddedWidth z / 2 <= 300 /\
    300 <= centerX z + paddedWidth z / 2.
Proof.
  destruct (autoZoom sampleDom (boundingBoxes sampleProps)) as [z|] eqn:E;
    [|discriminate E].
  exists z. split; [reflexivity|].
  destruct (padded_region_covers_detections sampleDom
              (boundingBoxes sampleProps) z) as (_ & _ & K);
    [repeat split | exact E |].
  destruct (K sampleBox (300, 300)) as ((A & B) & _).
  - left. reflexivity.
  - right. right. left. reflexivity.
  - repeat split; discriminate.
  - split; assumption.
Defined.

(** ** Colours and the export *)

Lemma pastelColors_NoDup : NoDup pastelColors.
Proof.
  unfold pastelColors.
  repeat (constructor; [cbn [In]; intuition discriminate|]).
  constructor.
Qed.

(** X27: the colours repeat with period ten and not before.  Two boxes are
    drawn in the same palette colour exactly when their positions in the
    list differ by a multiple of ten; ten consecutive boxes get ten
    different colours. *)
Theorem palette_period (i j : nat) :
  getObjectColor i = getObjectColor j <-> i mod 10 = j mod 10.
Proof.
  unfold getObjectColor.
  change (List.length pastelColors) with 10%nat.
  split.
  - intros E.
    apply (proj1 (NoDup_nth pastelColors (mkColor "" "" "")) pastelColors_NoDup);
      try exact E;
      change (List.length pastelColors) with 10%nat;
      apply Nat.mod_upper_bound; discriminate.
  - intros ->. reflexivity.
Qed.

Lemma exportBox_label (measureText : string -> Q) (idx : nat)
    (box : BoundingBox) (text : string) :
  (exists x y, In (FillText text x y) (exportBox measureText idx box)) <->
  ((2 <= List.length (coordinates box))%nat /\ object_id box = text).
Proof.
  unfold exportBox. destruct (coordinates box) as [|[x0 y0] [|c rest]].
  - split; [intros (x & y & []) | cbn; lia].
  - split; [intros (x & y & []) | cbn; lia].
  - cbv zeta. split.
    + intros (x & y & I). split; [cbn; lia|].
      apply in_app_or in I. destruct I as [I|I].
      * cbn [In] in I. destruct I as [I|[I|[]]]; discriminate I.
      * apply in_app_or in I. destruct I as [I|I].
        -- apply in_map_iff in I. destruct I as (? & I & _). discriminate I.
        -- cbn [In] in I.
           repeat (destruct I as [I|I]; [discriminate I|]).
           destruct I as [I|[]]. now injection I.
    + intros [_ <-]. eexists _, _.
      apply in_or_app. right. apply in_or_app. right.
      cbn [In]. do 8 right. left. reflexivity.
Qed.

(** X28: the export labels exactly the boxes it draws.  A text is written
    on the exported image if and only if it is the id of a box with at least
    two vertices; boxes with fewer vertices leave no trace, and nothing but
    the ids is written. *)
Theorem export_labels_drawn_boxes (measureText : string -> Q) (idx : nat)
    (boxes : list BoundingBox) (text : string) :
  (exists x y, In (FillText text x y) (exportBoxes measureText idx boxes)) <->
  (exists box,
     In box boxes /\ (2 <= List.length (coordinates box))%nat /\
     object_id box = text).
Proof.
  revert idx. induction boxes as [|box boxes IH]; intros idx.
  - cbn. split; [intros (x & y & []) | intros (box & [] & _)].
  - cbn [exportBoxes]. split.
    + intros (x & y & I). apply in_app_iff in I. destruct I as [I|I].
      * exists box. split; [now left|].
        apply (exportBox_label measureText idx). now exists x, y.
      * destruct (proj1 (IH (S idx))) as (b & Ib & K); [now exists x, y|].
        exists b. split; [now right | exact K].
    + intros (b & [<- | Ib] & K).
      * apply (exportBox_label measureText idx) in K.
        destruct K as (x & y & I). exists x, y. apply in_app_iff. now left.
      * destruct (proj2 (IH (S idx))) as (x & y & I); [now exists b|].
        exists x, y. apply in_app_iff. now right.
Qed.
